(** * A shallow embedding of the Brainfuck execution engine

    Source: [src/sourcecode.c], function [execute_brainfuck] (lines 45-219)
    together with the debug hook [print_debug_state] (lines 21-42).

    Modelling conventions.
    - A tape cell is an [unsigned char]: a [Z] in [0, 256) whose
      wrap-around is written out with [mod 256].
    - [ptr] is the offset [ptr - memory] of the data pointer; [pc],
      [stack_pos], [input_pos], [input_size] and [nest_level] are [size_t]
      counters.  They are natural numbers here: every one of them is bounded
      by [strlen(code)], [MAX_NESTED_LOOPS] or [INPUT_BUFFER_SIZE], and
      [nest_level] is decremented only under the guard [nest_level > 0], so
      no wrap-around of [size_t] can occur.
    - [code] is a C string: the list of its characters up to (excluding) the
      terminating NUL, so [strlen(code)] is [length code] and the loop guard
      [pc < code_length] is [code !! pc = Some _].
    - [loop_stack] is the live part [loop_stack[0 .. stack_pos)] of the
      array, most recent entry first; [stack_pos] is its length.
    - [stdin] is the finite sequence of bytes the input source still holds,
      followed by end-of-file; [stdout] is the sequence of things written to
      the standard output, oldest first.
    - [fgets] and [strlen] are the functions of the C library, modelled
      after the C standard on a byte stream (no translation of line ends).
    - [calloc] and [malloc] are taken to succeed; their failure branches
      (lines 48-51 and 61-65) return before the engine starts.
    - The main loop need not terminate, so [run] takes fuel: the number of
      loop-guard evaluations it may perform.  [run_returns] says that a run
      ends with a given result whenever it is given enough fuel. *)

From Stdlib Require Import ZArith Ascii String List Lia.
From stdpp Require Import base list.

Local Open Scope nat_scope.
#[local] Set Warnings "-abstract-large-number".

(** ** Configuration and constants (lines 8-18) *)

Definition DEFAULT_MEMORY_SIZE : nat := 30000.
Definition MAX_NESTED_LOOPS : nat := 1000.
Definition INPUT_BUFFER_SIZE : nat := 4096.

Record BrainfuckConfig : Type := {
  wrap_memory : bool;
  debug_mode : bool;
  memory_size : nat;
  eof_behavior : bool
}.

(** The default configuration built by [main] (lines 260-265). *)
Definition default_config : BrainfuckConfig :=
  {| wrap_memory := false;
     debug_mode := false;
     memory_size := DEFAULT_MEMORY_SIZE;
     eof_behavior := false |}.

(** ** Observable events and engine state *)

(** What the engine writes to the standard output: a byte emitted by
    [putchar] (line 122), the dump printed by [print_debug_state], or the
    interactive prompt of line 134. *)
Inductive event : Type :=
  | EvPut (b : Z)
  | EvDebug (at_pc : nat) (instruction : ascii) (first last : nat)
            (ptr_pos : nat) (cells : list Z)
  | EvPrompt.

Record state : Type := {
  memory : list Z;
  ptr : nat;
  pc : nat;
  loop_stack : list nat;
  input_buffer : list Z;
  input_pos : nat;
  input_size : nat;
  stdin : list Z;
  stdout : list event
}.

(** The diagnostics printed on the standard error before an early [return]. *)
Inductive error : Type :=
  | OutOfBounds (position : nat)
  | UnmatchedOpen (position : nat)
  | UnmatchedClose (position : nat)
  | LoopStackOverflow.

(** Result of the [switch] body: fall through to [pc++], or [return]. *)
Inductive instr_result : Type :=
  | Ok (st : state)
  | Err (e : error) (st : state).

(** Result of one evaluation of the loop guard and, if it holds, of one
    iteration of the main loop. *)
Inductive outcome : Type :=
  | Continue (st : state)
  | Finished (st : state)
  | Abort (e : error) (st : state).

(** Result of a bounded run. *)
Inductive result : Type :=
  | Completed (st : state)
  | Aborted (e : error) (st : state)
  | OutOfFuel (st : state).

(** ** Field updates *)

Definition set_memory (m : list Z) (st : state) : state :=
  {| memory := m; ptr := ptr st; pc := pc st; loop_stack := loop_stack st;
     input_buffer := input_buffer st; input_pos := input_pos st;
     input_size := input_size st; stdin := stdin st; stdout := stdout st |}.

Definition set_ptr (p : nat) (st : state) : state :=
  {| memory := memory st; ptr := p; pc := pc st; loop_stack := loop_stack st;
     input_buffer := input_buffer st; input_pos := input_pos st;
     input_size := input_size st; stdin := stdin st; stdout := stdout st |}.

Definition set_pc (n : nat) (st : state) : state :=
  {| memory := memory st; ptr := ptr st; pc := n; loop_stack := loop_stack st;
     input_buffer := input_buffer st; input_pos := input_pos st;
     input_size := input_size st; stdin := stdin st; stdout := stdout st |}.

Definition set_loop_stack (s : list nat) (st : state) : state :=
  {| memory := memory st; ptr := ptr st; pc := pc st; loop_stack := s;
     input_buffer := input_buffer st; input_pos := input_pos st;
     input_size := input_size st; stdin := stdin st; stdout := stdout st |}.

Definition set_input (buf : list Z) (pos size : nat) (src : list Z)
    (st : state) : state :=
  {| memory := memory st; ptr := ptr st; pc := pc st;
     loop_stack := loop_stack st;
     input_buffer := buf; input_pos := pos; input_size := size;
     stdin := src; stdout := stdout st |}.

Definition emit (e : event) (st : state) : state :=
  {| memory := memory st; ptr := ptr st; pc := pc st;
     loop_stack := loop_stack st;
     input_buffer := input_buffer st; input_pos := input_pos st;
     input_size := input_size st; stdin := stdin st;
     stdout := stdout st ++ [e] |}.

(** The bytes of the program's output: what [putchar] wrote, without the
    debug dumps and prompts that share the channel. *)
Fixpoint output_bytes (evs : list event) : list Z :=
  match evs with
  | [] => []
  | EvPut b :: evs' => b :: output_bytes evs'
  | _ :: evs' => output_bytes evs'
  end.

(** ** Memory and pointer (lines 83-119) *)

(** The value read through [ptr].  The pointer is always on the tape
    ([reachable_tape_ok] below); off the tape, where the C code would be
    undefined, the embedding reads 0 and [store] writes nothing. *)
Definition cell (st : state) : Z := default 0%Z (memory st !! ptr st).

(** The assignment of [v] through [ptr]. *)
Definition store (v : Z) (st : state) : state :=
  set_memory (<[ptr st := v]> (memory st)) st.

(** Lines 114 and 118: increment and decrement of an [unsigned char]. *)
Definition cell_inc (v : Z) : Z := ((v + 1) mod 256)%Z.
Definition cell_dec (v : Z) : Z := ((v - 1) mod 256)%Z.

(** Lines 84-95: the new offset of [ptr], or [None] on the error branch. *)
Definition move_right (config : BrainfuckConfig) (p : nat) : option nat :=
  if wrap_memory config then
    Some (if p =? memory_size config - 1 then 0 else p + 1)
  else if p <? memory_size config - 1 then Some (p + 1)
  else None.

(** Lines 99-110. *)
Definition move_left (config : BrainfuckConfig) (p : nat) : option nat :=
  if wrap_memory config then
    Some (if p =? 0 then memory_size config - 1 else p - 1)
  else if 0 <? p then Some (p - 1)
  else None.

(** ** The input protocol (lines 126-154) *)

(** The characters [fgets] stores from the source: at most [n], stopping
    after a newline or at end-of-file; paired with what is left unread. *)
Fixpoint fgets_chars (n : nat) (src : list Z) : list Z * list Z :=
  match n with
  | 0 => ([], src)
  | S n' =>
      match src with
      | [] => ([], [])
      | c :: rest =>
          if (c =? 10)%Z then ([c], rest)
          else let '(chunk, unread) := fgets_chars n' rest in (c :: chunk, unread)
      end
  end.

(** [fgets(buf, size, stdin)]: [None] is the NULL returned when end-of-file
    is met before any character; otherwise the characters read, which the
    caller finds in [buf] followed by a NUL. *)
Definition fgets (size : nat) (src : list Z) : option (list Z) * list Z :=
  match fgets_chars (size - 1) src with
  | ([], _) => (None, src)
  | (chunk, unread) => (Some chunk, unread)
  end.

(** [strlen]: the number of characters before the first NUL. *)
Fixpoint strlen (s : list Z) : nat :=
  match s with
  | [] => 0
  | c :: s' => if (c =? 0)%Z then 0 else S (strlen s')
  end.

(** Lines 128-141: refill the buffer when it is used up. *)
Definition refill (tty : bool) (st : state) : state :=
  if input_size st <=? input_pos st then
    let st := set_input (input_buffer st) 0 0 (stdin st) st in
    let st := if tty then emit EvPrompt st else st in
    match fgets INPUT_BUFFER_SIZE (stdin st) with
    | (Some chunk, unread) =>
        set_input (chunk ++ [0%Z]) 0 (strlen (chunk ++ [0%Z])) unread st
    | (None, _) => st
    end
  else st.

(** Lines 149-152: the end-of-file policy. *)
Definition eof_policy (config : BrainfuckConfig) (st : state) : state :=
  if eof_behavior config then store 0%Z st else st.

(** Lines 144-153: deliver a byte, cast to [unsigned char], or apply the
    end-of-file policy. *)
Definition deliver (config : BrainfuckConfig) (st : state) : state :=
  if input_pos st <? input_size st then
    let c := nth (input_pos st) (input_buffer st) 0%Z in
    store (c mod 256)%Z
      (set_input (input_buffer st) (input_pos st + 1) (input_size st)
         (stdin st) st)
  else eof_policy config st.

Definition exec_input (config : BrainfuckConfig) (tty : bool) (st : state)
    : state :=
  deliver config (refill tty st).

(** ** The loop controller (lines 156-205) *)

(** Lines 159-175, the forward scan.  [rest] is [code] from index [pc + 1]
    on, so that [pc++; if (pc >= code_length)] is the test [rest = []] and
    [code[pc]] after the increment is the head of [rest].  The result is
    [inl pc'] when [nest_level] reaches 0 with the counter at [pc'], and
    [inr pc'] when the counter runs off the end of the code at [pc']. *)
Fixpoint skip_scan (rest : list ascii) (pc nest_level : nat) : nat + nat :=
  match nest_level with
  | 0 => inl pc
  | S below =>
      match rest with
      | [] => inr (pc + 1)
      | c :: rest' =>
          if Ascii.eqb c "[" then skip_scan rest' (pc + 1) (nest_level + 1)
          else if Ascii.eqb c "]" then skip_scan rest' (pc + 1) below
          else skip_scan rest' (pc + 1) nest_level
      end
  end.

(** Lines 157-186. *)
Definition exec_open (code : list ascii) (st : state) : instr_result :=
  if (cell st =? 0)%Z then
    match skip_scan (drop (pc st + 1) code) (pc st) 1 with
    | inl pc' => Ok (set_pc pc' st)
    | inr pc' =>
        Err (UnmatchedOpen
               match loop_stack st with top :: _ => top | [] => pc' end)
            (set_pc pc' st)
    end
  else if MAX_NESTED_LOOPS <=? length (loop_stack st) then
    Err LoopStackOverflow st
  else Ok (set_loop_stack (pc st :: loop_stack st) st).

(** Lines 190-204. *)
Definition exec_close (st : state) : instr_result :=
  match loop_stack st with
  | [] => Err (UnmatchedClose (pc st)) st
  | top :: below =>
      if negb (cell st =? 0)%Z then Ok (set_pc top st)
      else Ok (set_loop_stack below st)
  end.

(** ** The debug hook (lines 21-42 and 78-80) *)

Definition print_debug_state (st : state) (memory_size : nat)
    (instruction : ascii) : state :=
  let context := 10 in
  let ptr_pos := ptr st in
  let first := if context <? ptr_pos then ptr_pos - context else 0 in
  let last :=
    if ptr_pos + context <? memory_size then ptr_pos + context
    else memory_size - 1 in
  emit (EvDebug (pc st) instruction first last ptr_pos
          (take (last + 1 - first) (drop first (memory st)))) st.

(** ** The dispatcher (lines 75-209) *)

Inductive instr : Type :=
  | IRight | ILeft | IInc | IDec | IOut | IIn | IOpen | IClose | IOther.

(** The [case] labels of the [switch]; a character with no label falls
    through to [pc++]. *)
Definition decode (c : ascii) : instr :=
  if Ascii.eqb c ">" then IRight
  else if Ascii.eqb c "<" then ILeft
  else if Ascii.eqb c "+" then IInc
  else if Ascii.eqb c "-" then IDec
  else if Ascii.eqb c "." then IOut
  else if Ascii.eqb c "," then IIn
  else if Ascii.eqb c "[" then IOpen
  else if Ascii.eqb c "]" then IClose
  else IOther.

(** The [switch] of lines 82-206. *)
Definition exec_instr (config : BrainfuckConfig) (tty : bool)
    (code : list ascii) (instruction : ascii) (st : state) : instr_result :=
  match decode instruction with
  | IRight =>
      match move_right config (ptr st) with
      | Some p => Ok (set_ptr p st)
      | None => Err (OutOfBounds (pc st)) st
      end
  | ILeft =>
      match move_left config (ptr st) with
      | Some p => Ok (set_ptr p st)
      | None => Err (OutOfBounds (pc st)) st
      end
  | IInc => Ok (store (cell_inc (cell st)) st)
  | IDec => Ok (store (cell_dec (cell st)) st)
  | IOut => Ok (emit (EvPut (cell st)) st)
  | IIn => Ok (exec_input config tty st)
  | IOpen => exec_open code st
  | IClose => exec_close st
  | IOther => Ok st
  end.

(** Lines 78-80. *)
Definition debug_hook (config : BrainfuckConfig) (instruction : ascii)
    (st : state) : state :=
  if debug_mode config
  then print_debug_state st (memory_size config) instruction
  else st.

(** One evaluation of the guard [pc < code_length] and, when it holds, one
    iteration of the [while] body, ending with the [pc++] of line 208. *)
Definition step (config : BrainfuckConfig) (tty : bool) (code : list ascii)
    (st : state) : outcome :=
  match code !! pc st with
  | None => Finished st
  | Some instruction =>
      let st := debug_hook config instruction st in
      match exec_instr config tty code instruction st with
      | Ok st' => Continue (set_pc (pc st' + 1) st')
      | Err e st' => Abort e st'
      end
  end.

(** The main loop, bounded by [fuel] evaluations of its guard. *)
Fixpoint run (fuel : nat) (config : BrainfuckConfig) (tty : bool)
    (code : list ascii) (st : state) : result :=
  match fuel with
  | 0 => OutOfFuel st
  | S fuel' =>
      match step config tty code st with
      | Continue st' => run fuel' config tty code st'
      | Finished st' => Completed st'
      | Abort e st' => Aborted e st'
      end
  end.

(** Lines 47-72: the zeroed tape of [calloc] and the initial counters.  The
    input buffer is not initialised by the source; it is not read before
    the first refill, and is empty here. *)
Definition init (config : BrainfuckConfig) (input : list Z) : state :=
  {| memory := replicate (memory_size config) 0%Z;
     ptr := 0; pc := 0; loop_stack := [];
     input_buffer := []; input_pos := 0; input_size := 0;
     stdin := input; stdout := [] |}.

(** [execute_brainfuck] on a program text, bounded by [fuel]. *)
Definition execute_brainfuck (fuel : nat) (code : string)
    (config : BrainfuckConfig) (tty : bool) (input : list Z) : result :=
  run fuel config tty (list_ascii_of_string code) (init config input).

(** Line 212: the number reported by the unclosed-loops diagnostic, when
    it is not 0. *)
Definition unclosed_loops (st : state) : nat := length (loop_stack st).


(** The state a bounded run stopped in. *)
Definition result_state (r : result) : state :=
  match r with
  | Completed st | Aborted _ st | OutOfFuel st => st
  end.

(** Whether a bounded run reached the end of the program, and the error
    it stopped on otherwise. *)
Definition is_completed (r : result) : bool :=
  match r with Completed _ => true | _ => false end.

Definition result_error (r : result) : option error :=
  match r with Aborted e _ => Some e | _ => None end.

(** The run from [st] ends with result [r]: some amount of fuel is enough,
    and more fuel does not change the result. *)
Definition run_returns (config : BrainfuckConfig) (tty : bool)
    (code : list ascii) (st : state) (r : result) : Prop :=
  exists fuel, forall extra, run (fuel + extra) config tty code st = r.

Definition execute_brainfuck_returns (code : string)
    (config : BrainfuckConfig) (tty : bool) (input : list Z) (r : result)
    : Prop :=
  run_returns config tty (list_ascii_of_string code) (init config input) r.

(** A three-cell configuration for small examples. *)
Definition small_config (wrap eof : bool) : BrainfuckConfig :=
  {| wrap_memory := wrap; debug_mode := false; memory_size := 3;
     eof_behavior := eof |}.

(** An engine state given by its tape, pointer, counter and loop stack,
    with nothing buffered, read or written yet. *)
Definition state_at (m : list Z) (p n : nat) (s : list nat) (input : list Z)
    : state :=
  {| memory := m; ptr := p; pc := n; loop_stack := s;
     input_buffer := []; input_pos := 0; input_size := 0;
     stdin := input; stdout := [] |}.

(** ** Notions used to state the properties *)

(** [n] iterations of the main loop, when none of them ends the run. *)
Fixpoint steps (n : nat) (config : BrainfuckConfig) (tty : bool)
    (code : list ascii) (st : state) : option state :=
  match n with
  | 0 => Some st
  | S n' =>
      match step config tty code st with
      | Continue st' => steps n' config tty code st'
      | _ => None
      end
  end.

(** A pointer move applied [n] times in a row, [None] as soon as one fails. *)
Fixpoint move_n (move : nat -> option nat) (n : nat) (p : nat) : option nat :=
  match n with
  | 0 => Some p
  | S n' =>
      match move p with
      | Some p' => move_n move n' p'
      | None => None
      end
  end.

(** The loop jump an iteration is about to perform, if any: the value the
    forward scan leaves in the counter when it stops at nest level 0
    (line 160), or the stack entry assigned to the counter (line 199). *)
Definition jump_target (code : list ascii) (st : state) : option nat :=
  match decode <$> code !! pc st with
  | Some IOpen =>
      if (cell st =? 0)%Z then
        match skip_scan (drop (pc st + 1) code) (pc st) 1 with
        | inl target => Some target
        | inr _ => None
        end
      else None
  | Some IClose =>
      if (cell st =? 0)%Z then None else head (loop_stack st)
  | _ => None
  end.

(** The reading of loop jumps under which the counter is left on the jump
    target for the next iteration. *)
Definition next_pc_is_target (config : BrainfuckConfig) (tty : bool)
    (code : list ascii) (st : state) : Prop :=
  forall target st',
    jump_target code st = Some target ->
    step config tty code st = Continue st' ->
    pc st' = target.

(** Bracket matching stated without reference to the scan: the contribution
    of a character to the nest level, the nest level reached after the
    characters at indices [i + 1 .. k] when the level is 1 at [i], and the
    first index past [i] at which that level is 0. *)
Definition bracket_delta (c : ascii) : Z :=
  if Ascii.eqb c "[" then 1%Z else if Ascii.eqb c "]" then (-1)%Z else 0%Z.

Definition delta_sum (l : list ascii) : Z :=
  foldr (fun c acc => (bracket_delta c + acc)%Z) 0%Z l.

Definition nest_level_at (code : list ascii) (i k : nat) : Z :=
  (1 + delta_sum (take (k - i) (drop (i + 1) code)))%Z.

Definition matching_close (code : list ascii) (i m : nat) : Prop :=
  i < m < length code /\
  nest_level_at code i m = 0%Z /\
  forall k, i <= k < m -> (0 < nest_level_at code i k)%Z.

(** The characters of [code] at indices [a .. b - 1]; a text whose
    brackets are balanced, the nest level ending at 0 and never below 0 on
    the way; and the loop stack [s] under the counter [bound]: each entry
    is the position of a [[], deeper entries first in the text, and the
    text between an entry and the next one up -- for the top entry, up to
    the counter -- is balanced. *)
Definition segment (code : list ascii) (a b : nat) : list ascii :=
  take (b - a) (drop a code).

Definition balanced (l : list ascii) : Prop :=
  delta_sum l = 0%Z /\ forall k, (0 <= delta_sum (take k l))%Z.

Fixpoint loops_matched (code : list ascii) (bound : nat) (s : list nat)
    : Prop :=
  match s with
  | [] => True
  | top :: below =>
      top < bound /\ code !! top = Some "["%char /\
      balanced (segment code (top + 1) bound) /\
      loops_matched code top below
  end.

(** The bounds the engine keeps: the tape has [memory_size] cells, the
    pointer is on the tape and the loop stack fits its array. *)
Definition tape_ok (config : BrainfuckConfig) (st : state) : Prop :=
  length (memory st) = memory_size config /\
  ptr st < memory_size config /\
  length (loop_stack st) <= MAX_NESTED_LOOPS.

(** Bytes, and the state of the input buffer the engine maintains: the
    filled size never exceeds the length of the buffered string. *)
Definition is_byte (b : Z) : Prop := (0 <= b < 256)%Z.

Definition input_ok (st : state) : Prop :=
  Forall is_byte (stdin st) /\
  Forall is_byte (input_buffer st) /\
  input_size st <= strlen (input_buffer st).

(** ** Source filtering and start-up (lines 221-346) *)

(** The test of lines 233-234. *)
Definition is_command (c : ascii) : bool :=
  Ascii.eqb c ">" || Ascii.eqb c "<" || Ascii.eqb c "+" || Ascii.eqb c "-"
  || Ascii.eqb c "." || Ascii.eqb c "," || Ascii.eqb c "[" || Ascii.eqb c "]".

(** [clean_code] (lines 222-240) on the characters of its argument, a C
    string: the characters kept, in order. *)
Fixpoint clean_code (input : list ascii) : list ascii :=
  match input with
  | [] => []
  | c :: rest =>
      if is_command c then c :: clean_code rest else clean_code rest
  end.

(** The C string held by a buffer: its characters before the first NUL. *)
Fixpoint c_str (buf : list ascii) : list ascii :=
  match buf with
  | [] => []
  | c :: rest => if Ascii.eqb c zero then [] else c :: c_str rest
  end.

Definition MAX_PROGRAM_SIZE : nat := 1000000.

(** [argv[i][0]] and [argv[i][1]]: a character of a C string, the
    terminating NUL at its end. *)
Definition char_at (n : nat) (s : string) : ascii :=
  match String.get n s with
  | Some c => c
  | None => zero
  end.

(** The conversion of the [int] returned by [atoi] to [unsigned int]. *)
Definition to_unsigned_int (z : Z) : nat := Z.to_nat (z mod 2 ^ 32).

Definition set_wrap_memory (config : BrainfuckConfig) : BrainfuckConfig :=
  {| wrap_memory := true; debug_mode := debug_mode config;
     memory_size := memory_size config;
     eof_behavior := eof_behavior config |}.

Definition set_debug_mode (config : BrainfuckConfig) : BrainfuckConfig :=
  {| wrap_memory := wrap_memory config; debug_mode := true;
     memory_size := memory_size config;
     eof_behavior := eof_behavior config |}.

Definition set_eof_behavior (config : BrainfuckConfig) : BrainfuckConfig :=
  {| wrap_memory := wrap_memory config; debug_mode := debug_mode config;
     memory_size := memory_size config; eof_behavior := true |}.

(** Lines 281-284. *)
Definition set_memory_size (n : nat) (config : BrainfuckConfig)
    : BrainfuckConfig :=
  {| wrap_memory := wrap_memory config; debug_mode := debug_mode config;
     memory_size := if n =? 0 then DEFAULT_MEMORY_SIZE else n;
     eof_behavior := eof_behavior config |}.

(** The option loop of lines 269-303 from index [i] on, [args] being
    [argv[i .. argc)].  The result is [inl arg] when the unknown option
    [arg] ends [main], and otherwise the configuration and the value of
    [filename_arg] when the loop is left (which is [argc] when the
    arguments run out).  [atoi] is the C library's. *)
Fixpoint parse_options (atoi : string -> Z) (args : list string) (i : nat)
    (config : BrainfuckConfig) : string + BrainfuckConfig * nat :=
  match args with
  | [] => inr (config, i)
  | arg :: rest =>
      if Ascii.eqb (char_at 0 arg) "-" then
        if Ascii.eqb (char_at 1 arg) "w" then
          parse_options atoi rest (i + 1) (set_wrap_memory config)
        else if Ascii.eqb (char_at 1 arg) "d" then
          parse_options atoi rest (i + 1) (set_debug_mode config)
        else if Ascii.eqb (char_at 1 arg) "m" then
          match rest with
          | value :: rest' =>
              parse_options atoi rest' (i + 2)
                (set_memory_size (to_unsigned_int (atoi value)) config)
          | [] => inr (config, i + 1)
          end
        else if Ascii.eqb (char_at 1 arg) "z" then
          parse_options atoi rest (i + 1) (set_eof_behavior config)
        else inl arg
      else inr (config, i)
  end.

(** How [main] gets to the call of [execute_brainfuck], or why it returns 1
    before. *)
Inductive startup : Type :=
  | UsageShown
  | UnknownOption (arg : string)
  | NoFileSpecified
  | CannotOpen (name : string)
  | Ready (code : list ascii) (config : BrainfuckConfig).

(** Lines 254-343.  [argv] includes the program name; [fopen] gives the
    bytes of a file that can be opened for reading, of which [fread] takes
    at most [MAX_PROGRAM_SIZE - 1]. *)
Definition main_setup (atoi : string -> Z) (argv : list string)
    (fopen : string -> option (list ascii)) : startup :=
  if length argv <? 2 then UsageShown
  else
    match parse_options atoi (drop 1 argv) 1 default_config with
    | inl arg => UnknownOption arg
    | inr (config, filename_arg) =>
        match argv !! filename_arg with
        | None => NoFileSpecified
        | Some name =>
            match fopen name with
            | None => CannotOpen name
            | Some content =>
                Ready
                  (clean_code (c_str (take (MAX_PROGRAM_SIZE - 1) content)))
                  config
            end
        end
    end.

(** A model of [atoi] after the C standard, for results that fit an [int]:
    leading white space, an optional sign, then decimal digits. *)
Definition is_space (c : ascii) : bool :=
  Ascii.eqb c " " || ((9 <=? nat_of_ascii c) && (nat_of_ascii c <=? 13)).

Fixpoint skip_spaces (s : list ascii) : list ascii :=
  match s with
  | c :: rest => if is_space c then skip_spaces rest else s
  | [] => []
  end.

Fixpoint atoi_digits (s : list ascii) (acc : Z) : Z :=
  match s with
  | c :: rest =>
      if (48 <=? nat_of_ascii c) && (nat_of_ascii c <=? 57) then
        atoi_digits rest (10 * acc + Z.of_nat (nat_of_ascii c - 48))%Z
      else acc
  | [] => acc
  end.

Definition atoi_c (s : string) : Z :=
  match skip_spaces (list_ascii_of_string s) with
  | c :: rest =>
      if Ascii.eqb c "-" then (- atoi_digits rest 0)%Z
      else if Ascii.eqb c "+" then atoi_digits rest 0%Z
      else atoi_digits (c :: rest) 0%Z
  | [] => 0%Z
  end.

(** ** Notions used to state further properties *)

(** The state an iteration ends in. *)
Definition outcome_state (o : outcome) : state :=
  match o with
  | Continue st | Finished st | Abort _ st => st
  end.

(** The loop stack [s] under the counter [bound]: its entries are positions
    of [[] in the code, all before [bound], each deeper entry before the
    one above it. *)
Fixpoint loops_ok (code : list ascii) (bound : nat) (s : list nat) : Prop :=
  match s with
  | [] => True
  | top :: below =>
      top < bound /\ code !! top = Some "["%char /\ loops_ok code top below
  end.

(** The program [+[[[...] with [n] opening brackets. *)
Definition nested_opens (n : nat) : list ascii :=
  "+"%char :: replicate n "["%char.

(** The engine state without the debug dumps and prompts on the standard
    output, the configuration with the debug hook off, and a result seen
    through a change of state. *)
Definition quiet (st : state) : state :=
  {| memory := memory st; ptr := ptr st; pc := pc st;
     loop_stack := loop_stack st;
     input_buffer := input_buffer st; input_pos := input_pos st;
     input_size := input_size st; stdin := stdin st;
     stdout := map EvPut (output_bytes (stdout st)) |}.

Definition quiet_config (config : BrainfuckConfig) : BrainfuckConfig :=
  {| wrap_memory := wrap_memory config; debug_mode := false;
     memory_size := memory_size config;
     eof_behavior := eof_behavior config |}.

Definition result_map (f : state -> state) (r : result) : result :=
  match r with
  | Completed st => Completed (f st)
  | Aborted e st => Aborted e (f st)
  | OutOfFuel st => OutOfFuel (f st)
  end.

(** The bytes [,] has yet to deliver: the unread part of the buffer, then
    the input source. *)
Definition pending (st : state) : list Z :=
  drop (input_pos st) (take (input_size st) (input_buffer st)) ++ stdin st.

(** The program [,[.,]], which copies its input to its output, and the
    states in which it is about to write the byte [b] it has just read,
    having written [out] and with [rest] still to read. *)
Definition cat_program : list ascii := list_ascii_of_string ",[.,]".

Definition cat_loop (st : state) (out : list Z) (b : Z) (rest : list Z)
    : Prop :=
  pc st = 2 /\ loop_stack st = [1] /\ cell st = b /\ b <> 0%Z /\
  ptr st < length (memory st) /\
  input_ok st /\ Forall (fun b => b <> 0%Z) (stdin st) /\
  pending st = rest /\ output_bytes (stdout st) = out.

(** The index in [clean_code code] of the character at index [i] of
    [code]: the number of command characters before it.  An error, and a
    state or result of a run on [code], moved to these indices. *)
Definition clean_position (code : list ascii) (i : nat) : nat :=
  length (clean_code (take i code)).

Definition error_at (f : nat -> nat) (e : error) : error :=
  match e with
  | OutOfBounds p => OutOfBounds (f p)
  | UnmatchedOpen p => UnmatchedOpen (f p)
  | UnmatchedClose p => UnmatchedClose (f p)
  | LoopStackOverflow => LoopStackOverflow
  end.

Definition relocate (code : list ascii) (st : state) : state :=
  set_pc (clean_position code (pc st))
    (set_loop_stack (map (clean_position code) (loop_stack st)) st).

Definition result_relocate (code : list ascii) (r : result) : result :=
  match r with
  | Completed st => Completed (relocate code st)
  | Aborted e st =>
      Aborted (error_at (clean_position code) e) (relocate code st)
  | OutOfFuel st => OutOfFuel (relocate code st)
  end.

(** Whether a bounded run came to the end of [execute_brainfuck], by
    reaching the end of the program or by an error, rather than being cut
    off by the bound. *)
Definition has_returned (r : result) : bool :=
  match r with OutOfFuel _ => false | _ => true end.

(** * Properties *)

(** ** Basic facts about the state updates *)

Lemma output_bytes_app (l1 l2 : list event) :
  output_bytes (l1 ++ l2) = output_bytes l1 ++ output_bytes l2.
Proof.
  induction l1 as [|e l1 IH]; simpl; [reflexivity|].
  destruct e; simpl; rewrite IH; reflexivity.
Qed.

Section Hook.
Variables (config : BrainfuckConfig) (c : ascii) (st : state).

Lemma debug_hook_memory : memory (debug_hook config c st) = memory st.
Proof. unfold debug_hook; destruct (debug_mode config); reflexivity. Qed.

Lemma debug_hook_ptr : ptr (debug_hook config c st) = ptr st.
Proof. unfold debug_hook; destruct (debug_mode config); reflexivity. Qed.

Lemma debug_hook_pc : pc (debug_hook config c st) = pc st.
Proof. unfold debug_hook; destruct (debug_mode config); reflexivity. Qed.

Lemma debug_hook_loop_stack :
  loop_stack (debug_hook config c st) = loop_stack st.
Proof. unfold debug_hook; destruct (debug_mode config); reflexivity. Qed.

Lemma debug_hook_input_buffer :
  input_buffer (debug_hook config c st) = input_buffer st.
Proof. unfold debug_hook; destruct (debug_mode config); reflexivity. Qed.

Lemma debug_hook_input_pos :
  input_pos (debug_hook config c st) = input_pos st.
Proof. unfold debug_hook; destruct (debug_mode config); reflexivity. Qed.

Lemma debug_hook_input_size :
  input_size (debug_hook config c st) = input_size st.
Proof. unfold debug_hook; destruct (debug_mode config); reflexivity. Qed.

Lemma debug_hook_stdin : stdin (debug_hook config c st) = stdin st.
Proof. unfold debug_hook; destruct (debug_mode config); reflexivity. Qed.

Lemma debug_hook_cell : cell (debug_hook config c st) = cell st.
Proof. unfold cell. rewrite debug_hook_memory, debug_hook_ptr. reflexivity. Qed.

Lemma debug_hook_output :
  output_bytes (stdout (debug_hook config c st)) = output_bytes (stdout st).
Proof.
  unfold debug_hook; destruct (debug_mode config); [|reflexivity].
  simpl. rewrite output_bytes_app. simpl. apply app_nil_r.
Qed.

Lemma debug_hook_off : debug_mode config = false -> debug_hook config c st = st.
Proof. unfold debug_hook. intros ->. reflexivity. Qed.
End Hook.

Create Rewrite HintDb hook.
#[local] Hint Rewrite debug_hook_memory debug_hook_ptr debug_hook_pc
  debug_hook_loop_stack debug_hook_input_buffer debug_hook_input_pos
  debug_hook_input_size debug_hook_stdin debug_hook_cell debug_hook_output
  : hook.

(** Selects the [case] of the [switch] for the character just fetched. *)
Ltac dispatch :=
  unfold exec_instr;
  match goal with
  | |- context [decode ?c] =>
      let i := eval vm_compute in (decode c) in
      change (decode c) with i
  end;
  cbv beta iota.

(** The iteration that fetches [c] runs the hook, the [switch], and [pc++]. *)
Lemma step_fetch config tty code st c :
  code !! pc st = Some c ->
  step config tty code st =
    match exec_instr config tty code c (debug_hook config c st) with
    | Ok st' => Continue (set_pc (pc st' + 1) st')
    | Err e st' => Abort e st'
    end.
Proof. intros H. unfold step. rewrite H. reflexivity. Qed.

Lemma step_finished config tty code st :
  length code <= pc st -> step config tty code st = Finished st.
Proof.
  intros H. unfold step. rewrite (proj2 (lookup_ge_None code (pc st)) H).
  reflexivity.
Qed.

(** A run that has ended keeps its result under more fuel. *)
Lemma run_fuel_mono config tty code fuel extra st r :
  run fuel config tty code st = r ->
  (forall st', r <> OutOfFuel st') ->
  run (fuel + extra) config tty code st = r.
Proof.
  revert st. induction fuel as [|fuel IH]; intros st Hrun Hend.
  - simpl in Hrun. subst r. exfalso. apply (Hend st). reflexivity.
  - simpl in *. destruct (step config tty code st); auto.
Qed.

Lemma cell_lookup st v : memory st !! ptr st = Some v -> cell st = v.
Proof. unfold cell. intros ->. reflexivity. Qed.

Lemma completed_result r :
  is_completed r = true -> r = Completed (result_state r).
Proof. destruct r; simpl; intros H; [reflexivity|discriminate..]. Qed.

Lemma aborted_result r e :
  result_error r = Some e -> r = Aborted e (result_state r).
Proof.
  destruct r; simpl; intros H; [discriminate| |discriminate].
  injection H as ->. reflexivity.
Qed.

Lemma run_returns_completed config tty code st fuel :
  is_completed (run fuel config tty code st) = true ->
  run_returns config tty code st
    (Completed (result_state (run fuel config tty code st))).
Proof.
  intros H. exists fuel. intros extra. apply run_fuel_mono.
  - apply completed_result. exact H.
  - intros st'. discriminate.
Qed.

Lemma run_returns_aborted config tty code st fuel e :
  result_error (run fuel config tty code st) = Some e ->
  run_returns config tty code st
    (Aborted e (result_state (run fuel config tty code st))).
Proof.
  intros H. exists fuel. intros extra. apply run_fuel_mono.
  - apply aborted_result. exact H.
  - intros st'. discriminate.
Qed.

(** A run has at most one result. *)
Lemma run_returns_unique config tty code st r1 r2 :
  run_returns config tty code st r1 ->
  run_returns config tty code st r2 ->
  r1 = r2.
Proof.
  intros [f1 H1] [f2 H2]. rewrite <- (H1 f2), <- (H2 f1).
  f_equal. lia.
Qed.

(** ** C1 *)

(** C1.  Under the default configuration the program
    [++++++++[>++++++++<-]>.] runs to completion, with no error and no
    unclosed loop, and its output is the single byte 64; this holds whatever
    the input source holds and whether or not it is a terminal. *)
Theorem C1_multiply_outputs_64 :
  forall (tty : bool) (input : list Z),
  exists st,
    execute_brainfuck_returns "++++++++[>++++++++<-]>." default_config tty
      input (Completed st) /\
    stdout st = [EvPut 64%Z] /\
    output_bytes (stdout st) = [64%Z] /\
    unclosed_loops st = 0.
Proof.
  intros tty input.
  exists (result_state
            (execute_brainfuck 200 "++++++++[>++++++++<-]>." default_config
               tty input)).
  split; [apply run_returns_completed|split; [|split]];
    destruct tty; vm_compute; reflexivity.
Qed.

(** ** C7 *)

Lemma cell_inc_byte v : is_byte (cell_inc v).
Proof. unfold is_byte, cell_inc. apply Z.mod_pos_bound. lia. Qed.

Lemma cell_dec_byte v : is_byte (cell_dec v).
Proof. unfold is_byte, cell_dec. apply Z.mod_pos_bound. lia. Qed.

Lemma step_inc config tty code st :
  code !! pc st = Some "+"%char ->
  step config tty code st =
    Continue (set_pc (pc st + 1)
                (store (cell_inc (cell st)) (debug_hook config "+" st))).
Proof.
  intros H. rewrite (step_fetch _ _ _ _ _ H). simpl.
  autorewrite with hook. reflexivity.
Qed.

Lemma step_dec config tty code st :
  code !! pc st = Some "-"%char ->
  step config tty code st =
    Continue (set_pc (pc st + 1)
                (store (cell_dec (cell st)) (debug_hook config "-" st))).
Proof.
  intros H. rewrite (step_fetch _ _ _ _ _ H). simpl.
  autorewrite with hook. reflexivity.
Qed.

(** C7.  Whatever value [v] the current cell holds, [+] leaves
    [(v + 1) mod 256] and [-] leaves [(v - 1) mod 256] in it, the iteration
    continues (no error), and nothing else on the tape changes; so 255 wraps
    to 0 and 0 wraps to 255.  Under the default configuration 255 times [+]
    from the zeroed tape leave 255 in the cell, and 256 times [+] leave 0. *)
Theorem C7_cell_arithmetic_mod_256 :
  (forall config tty code st v,
     memory st !! ptr st = Some v ->
     (code !! pc st = Some "+"%char ->
      exists st',
        step config tty code st = Continue st' /\
        memory st' = <[ptr st := ((v + 1) mod 256)%Z]> (memory st) /\
        ptr st' = ptr st /\
        cell st' = ((v + 1) mod 256)%Z /\
        is_byte (cell st')) /\
     (code !! pc st = Some "-"%char ->
      exists st',
        step config tty code st = Continue st' /\
        memory st' = <[ptr st := ((v - 1) mod 256)%Z]> (memory st) /\
        ptr st' = ptr st /\
        cell st' = ((v - 1) mod 256)%Z /\
        is_byte (cell st'))) /\
  cell_inc 255 = 0%Z /\ cell_dec 0 = 255%Z /\
  (exists st,
     run_returns default_config false (replicate 255 "+"%char)
       (init default_config []) (Completed st) /\
     cell st = 255%Z) /\
  (exists st,
     run_returns default_config false (replicate 256 "+"%char)
       (init default_config []) (Completed st) /\
     cell st = 0%Z).
Proof.
  split; [|split; [reflexivity|split; [reflexivity|split]]].
  - intros config tty code st v Hv.
    pose proof (cell_lookup _ _ Hv) as Hc.
    pose proof (lookup_lt_Some _ _ _ Hv) as Hlt.
    split; intros Hfetch; eexists.
    + split; [apply step_inc; exact Hfetch|]. simpl.
      autorewrite with hook. rewrite Hc.
      split; [reflexivity|split; [reflexivity|]].
      unfold cell; simpl. autorewrite with hook.
      rewrite list_lookup_insert_eq by exact Hlt.
      split; [reflexivity|apply cell_inc_byte].
    + split; [apply step_dec; exact Hfetch|]. simpl.
      autorewrite with hook. rewrite Hc.
      split; [reflexivity|split; [reflexivity|]].
      unfold cell; simpl. autorewrite with hook.
      rewrite list_lookup_insert_eq by exact Hlt.
      split; [reflexivity|apply cell_dec_byte].
  - exists (result_state
              (run 300 default_config false (replicate 255 "+"%char)
                 (init default_config []))).
    split; [apply run_returns_completed|]; vm_compute; reflexivity.
  - exists (result_state
              (run 300 default_config false (replicate 256 "+"%char)
                 (init default_config []))).
    split; [apply run_returns_completed|]; vm_compute; reflexivity.
Qed.

Lemma C7_cell_arithmetic_witness :
  memory (state_at [0%Z; 255%Z; 0%Z] 1 0 [] [])
    !! ptr (state_at [0%Z; 255%Z; 0%Z] 1 0 [] []) = Some 255%Z /\
  list_ascii_of_string "+-" !! pc (state_at [0%Z; 255%Z; 0%Z] 1 0 [] [])
    = Some "+"%char /\
  (exists st',
     step (small_config false false) false (list_ascii_of_string "+-")
       (state_at [0%Z; 255%Z; 0%Z] 1 0 [] []) = Continue st' /\
     memory st' = <[1 := ((255 + 1) mod 256)%Z]> [0%Z; 255%Z; 0%Z] /\
     ptr st' = 1 /\
     cell st' = ((255 + 1) mod 256)%Z /\
     is_byte (cell st')) /\
  memory (state_at [0%Z; 0%Z; 0%Z] 1 1 [] [])
    !! ptr (state_at [0%Z; 0%Z; 0%Z] 1 1 [] []) = Some 0%Z /\
  list_ascii_of_string "+-" !! pc (state_at [0%Z; 0%Z; 0%Z] 1 1 [] [])
    = Some "-"%char /\
  (exists st',
     step (small_config false false) false (list_ascii_of_string "+-")
       (state_at [0%Z; 0%Z; 0%Z] 1 1 [] []) = Continue st' /\
     memory st' = <[1 := ((0 - 1) mod 256)%Z]> [0%Z; 0%Z; 0%Z] /\
     ptr st' = 1 /\
     cell st' = ((0 - 1) mod 256)%Z /\
     is_byte (cell st')).
Proof.
  split; [reflexivity|]. split; [reflexivity|]. split.
  { exact (proj1 (proj1 C7_cell_arithmetic_mod_256 (small_config false false)
                    false (list_ascii_of_string "+-")
                    (state_at [0%Z; 255%Z; 0%Z] 1 0 [] []) 255%Z eq_refl)
             eq_refl). }
  split; [reflexivity|]. split; [reflexivity|].
  exact (proj2 (proj1 C7_cell_arithmetic_mod_256 (small_config false false)
                  false (list_ascii_of_string "+-")
                  (state_at [0%Z; 0%Z; 0%Z] 1 1 [] []) 0%Z eq_refl)
           eq_refl).
Defined.

(** ** C4 *)

Lemma step_close_reenter config tty code st top below :
  code !! pc st = Some "]"%char ->
  loop_stack st = top :: below ->
  cell st <> 0%Z ->
  step config tty code st =
    Continue (set_pc (top + 1) (set_pc top (debug_hook config "]" st))).
Proof.
  intros Hfetch Hstack Hcell. rewrite (step_fetch _ _ _ _ _ Hfetch).
  dispatch; unfold exec_close.
  autorewrite with hook. rewrite Hstack.
  destruct (Z.eqb_spec (cell st) 0) as [E|_]; [contradiction|]. reflexivity.
Qed.

Lemma step_close_exit config tty code st top below :
  code !! pc st = Some "]"%char ->
  loop_stack st = top :: below ->
  cell st = 0%Z ->
  step config tty code st =
    Continue (set_pc (pc st + 1)
                (set_loop_stack below (debug_hook config "]" st))).
Proof.
  intros Hfetch Hstack Hcell. rewrite (step_fetch _ _ _ _ _ Hfetch).
  dispatch; unfold exec_close.
  autorewrite with hook. rewrite Hstack, Hcell. simpl.
  autorewrite with hook. reflexivity.
Qed.



(** ** C6 *)

Lemma move_right_edge config p :
  wrap_memory config = false ->
  p = memory_size config - 1 ->
  move_right config p = None.
Proof.
  intros Hwrap ->. unfold move_right. rewrite Hwrap.
  rewrite Nat.ltb_irrefl. reflexivity.
Qed.

Lemma move_left_edge config :
  wrap_memory config = false -> move_left config 0 = None.
Proof. intros Hwrap. unfold move_left. rewrite Hwrap. reflexivity. Qed.

(** C6.  Without wrapping, [>] with the pointer on the last cell and [<]
    with the pointer on cell 0 end the run with [OutOfBounds] at the current
    program counter: the iteration aborts, so does every run started there
    whatever fuel it has, and the state it stops in has the tape, the
    pointer, the counter, the loop stack and the output bytes of the state
    it started in. *)
Theorem C6_out_of_bounds_halts :
  forall config tty code st fuel,
    wrap_memory config = false ->
    (code !! pc st = Some ">"%char /\
     1 <= memory_size config /\ ptr st = memory_size config - 1) \/
    (code !! pc st = Some "<"%char /\ ptr st = 0) ->
    exists st',
      step config tty code st = Abort (OutOfBounds (pc st)) st' /\
      run (S fuel) config tty code st = Aborted (OutOfBounds (pc st)) st' /\
      memory st' = memory st /\
      ptr st' = ptr st /\
      pc st' = pc st /\
      loop_stack st' = loop_stack st /\
      output_bytes (stdout st') = output_bytes (stdout st).
Proof.
  intros config tty code st fuel Hwrap Hedge.
  assert (Hstep : exists c,
            step config tty code st =
              Abort (OutOfBounds (pc st)) (debug_hook config c st)).
  { destruct Hedge as [(Hfetch & _ & Hp)|(Hfetch & Hp)].
    - exists ">"%char. rewrite (step_fetch _ _ _ _ _ Hfetch).
      dispatch. autorewrite with hook.
      rewrite (move_right_edge _ _ Hwrap Hp). reflexivity.
    - exists "<"%char. rewrite (step_fetch _ _ _ _ _ Hfetch).
      dispatch. autorewrite with hook.
      rewrite Hp, (move_left_edge _ Hwrap). reflexivity. }
  destruct Hstep as [c Hstep]. exists (debug_hook config c st).
  split; [exact Hstep|]. split; [simpl; rewrite Hstep; reflexivity|].
  autorewrite with hook. repeat split.
Qed.

Lemma C6_out_of_bounds_witness :
  (wrap_memory (small_config false false) = false /\
   list_ascii_of_string ">+" !! pc (state_at [0%Z; 0%Z; 7%Z] 2 0 [] [])
     = Some ">"%char /\
   1 <= memory_size (small_config false false) /\
   ptr (state_at [0%Z; 0%Z; 7%Z] 2 0 [] [])
     = memory_size (small_config false false) - 1 /\
   exists st',
     step (small_config false false) false (list_ascii_of_string ">+")
       (state_at [0%Z; 0%Z; 7%Z] 2 0 [] []) = Abort (OutOfBounds 0) st' /\
     run 5 (small_config false false) false (list_ascii_of_string ">+")
       (state_at [0%Z; 0%Z; 7%Z] 2 0 [] []) = Aborted (OutOfBounds 0) st' /\
     memory st' = [0%Z; 0%Z; 7%Z] /\ ptr st' = 2 /\ pc st' = 0 /\
     loop_stack st' = [] /\ output_bytes (stdout st') = []) /\
  (list_ascii_of_string "+<+" !! pc (state_at [7%Z; 0%Z; 0%Z] 0 1 [] [])
     = Some "<"%char /\
   ptr (state_at [7%Z; 0%Z; 0%Z] 0 1 [] []) = 0 /\
   exists st',
     step (small_config false false) false (list_ascii_of_string "+<+")
       (state_at [7%Z; 0%Z; 0%Z] 0 1 [] []) = Abort (OutOfBounds 1) st' /\
     run 5 (small_config false false) false (list_ascii_of_string "+<+")
       (state_at [7%Z; 0%Z; 0%Z] 0 1 [] []) = Aborted (OutOfBounds 1) st' /\
     memory st' = [7%Z; 0%Z; 0%Z] /\ ptr st' = 0 /\ pc st' = 1 /\
     loop_stack st' = [] /\ output_bytes (stdout st') = []).
Proof.
  split.
  - split; [reflexivity|]. split; [reflexivity|]. split; [simpl; lia|].
    split; [reflexivity|].
    apply (C6_out_of_bounds_halts (small_config false false) false
             (list_ascii_of_string ">+")
             (state_at [0%Z; 0%Z; 7%Z] 2 0 [] []) 4 eq_refl).
    left. split; [reflexivity|]. split; [simpl; lia|reflexivity].
  - split; [reflexivity|]. split; [reflexivity|].
    apply (C6_out_of_bounds_halts (small_config false false) false
             (list_ascii_of_string "+<+")
             (state_at [7%Z; 0%Z; 0%Z] 0 1 [] []) 4 eq_refl).
    right. split; reflexivity.
Defined.

(** ** C5 *)

Section Wrap.
Variable config : BrainfuckConfig.
Hypothesis Hwrap : wrap_memory config = true.
Hypothesis Hsize : 1 <= memory_size config.

Lemma move_right_wrap p :
  p < memory_size config ->
  move_right config p = Some ((p + 1) mod memory_size config).
Proof.
  intros Hp. unfold move_right. rewrite Hwrap. f_equal.
  destruct (Nat.eqb_spec p (memory_size config - 1)) as [E|E].
  - replace (p + 1) with (memory_size config) by lia.
    symmetry. apply Nat.Div0.mod_same.
  - symmetry. apply Nat.mod_small. lia.
Qed.

Lemma move_left_wrap p :
  p < memory_size config ->
  move_left config p =
    Some ((p + (memory_size config - 1)) mod memory_size config).
Proof.
  intros Hp. unfold move_left. rewrite Hwrap. f_equal.
  destruct (Nat.eqb_spec p 0) as [E|E].
  - subst p. simpl. symmetry. apply Nat.mod_small. lia.
  - replace (p + (memory_size config - 1))
      with ((p - 1) + 1 * memory_size config) by lia.
    rewrite Nat.Div0.mod_add. symmetry. apply Nat.mod_small. lia.
Qed.

Lemma move_right_n n p :
  p < memory_size config ->
  move_n (move_right config) n p = Some ((p + n) mod memory_size config).
Proof.
  revert p. induction n as [|n IH]; intros p Hp; simpl.
  - rewrite Nat.add_0_r, Nat.mod_small by exact Hp. reflexivity.
  - rewrite (move_right_wrap p Hp).
    rewrite IH by (apply Nat.mod_upper_bound; lia).
    rewrite Nat.Div0.add_mod_idemp_l. do 2 f_equal. lia.
Qed.

Lemma move_left_n n p :
  p < memory_size config ->
  move_n (move_left config) n p =
    Some ((p + n * (memory_size config - 1)) mod memory_size config).
Proof.
  revert p. induction n as [|n IH]; intros p Hp; simpl.
  - rewrite Nat.add_0_r, Nat.mod_small by exact Hp. reflexivity.
  - rewrite (move_left_wrap p Hp).
    rewrite IH by (apply Nat.mod_upper_bound; lia).
    rewrite Nat.Div0.add_mod_idemp_l. do 2 f_equal. lia.
Qed.

End Wrap.

Lemma step_move config tty code st c p :
  code !! pc st = Some c ->
  (c = ">"%char /\ move_right config (ptr st) = Some p) \/
  (c = "<"%char /\ move_left config (ptr st) = Some p) ->
  step config tty code st =
    Continue (set_pc (pc st + 1) (set_ptr p (debug_hook config c st))).
Proof.
  intros Hfetch Hmove. rewrite (step_fetch _ _ _ _ _ Hfetch).
  destruct Hmove as [[-> Hm]|[-> Hm]];
    dispatch; autorewrite with hook; rewrite Hm;
    simpl; autorewrite with hook; reflexivity.
Qed.

(** A program made of [k] more moves in the same direction performs them
    one after the other. *)
Lemma steps_moves config tty c move total :
  (c = ">"%char /\ move = move_right config) \/
  (c = "<"%char /\ move = move_left config) ->
  wrap_memory config = true ->
  1 <= memory_size config ->
  forall k st,
    k + pc st = total ->
    ptr st < memory_size config ->
    exists st',
      steps k config tty (replicate total c) st = Some st' /\
      move_n move k (ptr st) = Some (ptr st') /\
      memory st' = memory st /\
      pc st' = total.
Proof.
  intros Hdir Hwrap Hsize. induction k as [|k IH]; intros st Hk Hp.
  - exists st. simpl in Hk. repeat split. exact Hk.
  - assert (Hfetch : replicate total c !! pc st = Some c)
      by (apply lookup_replicate_2; lia).
    assert (Hmove : exists q, move (ptr st) = Some q /\ q < memory_size config).
    { destruct Hdir as [[_ ->]|[_ ->]].
      - rewrite (move_right_wrap config Hwrap Hsize _ Hp).
        eexists. split; [reflexivity|apply Nat.mod_upper_bound; lia].
      - rewrite (move_left_wrap config Hwrap Hsize _ Hp).
        eexists. split; [reflexivity|apply Nat.mod_upper_bound; lia]. }
    destruct Hmove as (q & Hq & Hlt).
    assert (Hstep :
        step config tty (replicate total c) st =
          Continue (set_pc (pc st + 1) (set_ptr q (debug_hook config c st)))).
    { apply (step_move _ _ _ _ _ _ Hfetch).
      destruct Hdir as [[-> ->]|[-> ->]]; [left|right];
        (split; [reflexivity|exact Hq]). }
    destruct (IH (set_pc (pc st + 1) (set_ptr q (debug_hook config c st))))
      as (st' & Hsteps & Hn & Hmem & Hpc).
    + simpl. autorewrite with hook. lia.
    + exact Hlt.
    + exists st'. simpl. rewrite Hstep, Hq.
      split; [exact Hsteps|]. split; [exact Hn|].
      split; [|exact Hpc].
      rewrite Hmem. simpl. autorewrite with hook. reflexivity.
Qed.

(** C5.  With wrapping on and a tape of at least one cell, from every
    pointer index on the tape: [move_right] and [move_left] succeed and stay
    on the tape; right from the last index gives 0 and left from 0 gives the
    last index; [memory_size] moves to the right, or to the left, come back
    to the starting index.  The dispatcher's [>] and [<] are these moves:
    the iteration continues with the pointer moved and the tape as it was,
    and a program of [memory_size] times [>], or [<], runs through all of
    its instructions and ends with the pointer where it started. *)
Theorem C5_wrap_moves_cycle :
  forall config p,
    wrap_memory config = true ->
    1 <= memory_size config ->
    p < memory_size config ->
    (exists q, move_right config p = Some q /\ q < memory_size config) /\
    (exists q, move_left config p = Some q /\ q < memory_size config) /\
    move_right config (memory_size config - 1) = Some 0 /\
    move_left config 0 = Some (memory_size config - 1) /\
    move_n (move_right config) (memory_size config) p = Some p /\
    move_n (move_left config) (memory_size config) p = Some p /\
    (forall tty code st,
       ptr st = p ->
       (code !! pc st = Some ">"%char ->
        exists st',
          step config tty code st = Continue st' /\
          move_right config p = Some (ptr st') /\ memory st' = memory st) /\
       (code !! pc st = Some "<"%char ->
        exists st',
          step config tty code st = Continue st' /\
          move_left config p = Some (ptr st') /\ memory st' = memory st)) /\
    (forall tty c st,
       c = ">"%char \/ c = "<"%char ->
       ptr st = p -> pc st = 0 ->
       exists st',
         steps (memory_size config) config tty
           (replicate (memory_size config) c) st = Some st' /\
         ptr st' = p /\ memory st' = memory st /\
         step config tty (replicate (memory_size config) c) st'
           = Finished st').
Proof.
  intros config p Hwrap Hsize Hp.
  assert (Hr := move_right_wrap config Hwrap Hsize p Hp).
  assert (Hl := move_left_wrap config Hwrap Hsize p Hp).
  assert (Hrn : move_n (move_right config) (memory_size config) p = Some p).
  { rewrite (move_right_n config Hwrap Hsize) by exact Hp.
    replace (p + memory_size config) with (p + 1 * memory_size config) by lia.
    rewrite Nat.Div0.mod_add, Nat.mod_small by exact Hp. reflexivity. }
  assert (Hln : move_n (move_left config) (memory_size config) p = Some p).
  { rewrite (move_left_n config Hwrap Hsize) by exact Hp.
    rewrite (Nat.mul_comm (memory_size config)).
    rewrite Nat.Div0.mod_add, Nat.mod_small by exact Hp. reflexivity. }
  split; [eexists; split; [exact Hr|apply Nat.mod_upper_bound; lia]|].
  split; [eexists; split; [exact Hl|apply Nat.mod_upper_bound; lia]|].
  split; [unfold move_right; rewrite Hwrap, Nat.eqb_refl; reflexivity|].
  split; [unfold move_left; rewrite Hwrap; reflexivity|].
  split; [exact Hrn|]. split; [exact Hln|]. split.
  - intros tty code st Hptr. split; intros Hfetch; eexists.
    + split.
      * eapply step_move; [exact Hfetch|]. left. split; [reflexivity|].
        rewrite Hptr. exact Hr.
      * simpl. autorewrite with hook. rewrite Hr. split; reflexivity.
    + split.
      * eapply step_move; [exact Hfetch|]. right. split; [reflexivity|].
        rewrite Hptr. exact Hl.
      * simpl. autorewrite with hook. rewrite Hl. split; reflexivity.
  - intros tty c st Hc Hptr Hpc.
    assert (Hdir : exists move,
              ((c = ">"%char /\ move = move_right config) \/
               (c = "<"%char /\ move = move_left config)) /\
              move_n move (memory_size config) p = Some p).
    { destruct Hc as [->| ->].
      - exists (move_right config). split; [left; split; reflexivity|].
        exact Hrn.
      - exists (move_left config). split; [right; split; reflexivity|].
        exact Hln. }
    destruct Hdir as (move & Hdir & Hcycle).
    destruct (steps_moves config tty c move (memory_size config) Hdir Hwrap
                Hsize (memory_size config) st)
      as (st' & Hsteps & Hn & Hmem & Hend); [lia|lia|].
    exists st'. split; [exact Hsteps|].
    rewrite Hptr, Hcycle in Hn. injection Hn as Hn.
    split; [symmetry; exact Hn|]. split; [exact Hmem|].
    apply step_finished. rewrite length_replicate. lia.
Qed.

Lemma C5_wrap_moves_witness :
  wrap_memory (small_config true false) = true /\
  1 <= memory_size (small_config true false) /\
  2 < memory_size (small_config true false) /\
  move_right (small_config true false) 2 = Some 0 /\
  move_left (small_config true false) 0 = Some 2 /\
  move_n (move_right (small_config true false)) 3 2 = Some 2 /\
  move_n (move_left (small_config true false)) 3 2 = Some 2 /\
  ptr (state_at [1%Z; 2%Z; 3%Z] 2 0 [] []) = 2 /\
  pc (state_at [1%Z; 2%Z; 3%Z] 2 0 [] []) = 0 /\
  exists st',
    steps 3 (small_config true false) false (replicate 3 "<"%char)
      (state_at [1%Z; 2%Z; 3%Z] 2 0 [] []) = Some st' /\
    ptr st' = 2 /\ memory st' = [1%Z; 2%Z; 3%Z].
Proof.
  assert (H1 : 1 <= memory_size (small_config true false)) by (simpl; lia).
  assert (H2 : 2 < memory_size (small_config true false)) by (simpl; lia).
  destruct (C5_wrap_moves_cycle (small_config true false) 2 eq_refl H1 H2)
    as (_ & _ & Hr & Hl & Hrn & Hln & _ & Hrun).
  split; [reflexivity|]. split; [exact H1|]. split; [exact H2|].
  split; [exact Hr|]. split; [exact Hl|]. split; [exact Hrn|].
  split; [exact Hln|]. split; [reflexivity|]. split; [reflexivity|].
  destruct (Hrun false "<"%char (state_at [1%Z; 2%Z; 3%Z] 2 0 [] [])
              (or_intror eq_refl) eq_refl eq_refl)
    as (st' & Hsteps & Hptr & Hmem & _).
  exists st'. split; [exact Hsteps|]. split; [exact Hptr|exact Hmem].
Defined.

(** ** The forward scan finds the matching bracket *)

Lemma delta_sum_nil : delta_sum [] = 0%Z.
Proof. reflexivity. Qed.

Lemma delta_sum_cons c l :
  delta_sum (c :: l) = (bracket_delta c + delta_sum l)%Z.
Proof. reflexivity. Qed.

#[local] Arguments bracket_delta : simpl never.
#[local] Arguments delta_sum : simpl never.

(** Case analysis on the character under the scan, recording what it adds
    to the nest level. *)
Ltac scan_char c :=
  let Eopen := fresh "Eopen" in
  let Eclose := fresh "Eclose" in
  let Hdelta := fresh "Hdelta" in
  destruct (Ascii.eqb c "[") eqn:Eopen;
  [ assert (Hdelta : bracket_delta c = 1%Z)
      by (unfold bracket_delta; rewrite Eopen; reflexivity)
  | destruct (Ascii.eqb c "]") eqn:Eclose;
    [ assert (Hdelta : bracket_delta c = (-1)%Z)
        by (unfold bracket_delta; rewrite Eopen, Eclose; reflexivity)
    | assert (Hdelta : bracket_delta c = 0%Z)
        by (unfold bracket_delta; rewrite Eopen, Eclose; reflexivity) ] ].

(** Normal form of the level sums over prefixes of a non-empty list. *)
Ltac level_norm :=
  repeat first
    [ rewrite firstn_cons in * | rewrite take_0 in *
    | rewrite delta_sum_cons in * | rewrite delta_sum_nil in * ].

Lemma skip_scan_zero rest pc : skip_scan rest pc 0 = inl pc.
Proof. destruct rest; reflexivity. Qed.

Lemma skip_scan_found rest :
  forall pc n j,
    0 < n -> j < length rest ->
    (Z.of_nat n + delta_sum (take (S j) rest) = 0)%Z ->
    (forall j', j' <= j -> (0 < Z.of_nat n + delta_sum (take j' rest))%Z) ->
    skip_scan rest pc n = inl (pc + 1 + j).
Proof.
  induction rest as [|c rest IH]; intros pc n j Hn Hj Hzero Hpos;
    simpl in Hj; [lia|].
  destruct n as [|b]; [lia|].
  assert (Hnext : forall j', S j' <= j ->
            (0 < Z.of_nat (S b) + (bracket_delta c + delta_sum (take j' rest)))%Z).
  { intros j' Hj'. rewrite <- delta_sum_cons, <- firstn_cons.
    apply (Hpos (S j') Hj'). }
  clear Hpos. rewrite firstn_cons, delta_sum_cons in Hzero.
  cbn [skip_scan]. scan_char c.
  - destruct j as [|j]; [level_norm; lia|].
    replace (pc + 1 + S j) with (pc + 1 + 1 + j) by lia.
    apply IH; [lia|lia|lia|].
    intros j' Hj'. specialize (Hnext j'). lia.
  - destruct j as [|j].
    + level_norm. assert (b = 0) by lia. subst b.
      rewrite skip_scan_zero. f_equal. lia.
    + specialize (Hnext 0) as H0. level_norm.
      replace (pc + 1 + S j) with (pc + 1 + 1 + j) by lia.
      apply IH; [lia|lia|lia|].
      intros j' Hj'. specialize (Hnext j'). lia.
  - destruct j as [|j]; [level_norm; lia|].
    replace (pc + 1 + S j) with (pc + 1 + 1 + j) by lia.
    apply IH; [lia|lia|lia|].
    intros j' Hj'. specialize (Hnext j'). lia.
Qed.

Lemma skip_scan_inl rest :
  forall pc n m,
    0 < n -> skip_scan rest pc n = inl m ->
    exists j,
      m = pc + 1 + j /\ j < length rest /\
      rest !! j = Some "]"%char /\
      (Z.of_nat n + delta_sum (take (S j) rest) = 0)%Z /\
      (forall j', j' <= j ->
         (0 < Z.of_nat n + delta_sum (take j' rest))%Z).
Proof.
  induction rest as [|c rest IH]; intros pc n m Hn Hscan;
    (destruct n as [|b]; [lia|]); cbn [skip_scan] in Hscan; [discriminate|].
  assert (Hlift : forall n',
            (Z.of_nat n' = Z.of_nat (S b) + bracket_delta c)%Z ->
            (exists j,
               m = pc + 1 + 1 + j /\ j < length rest /\
               rest !! j = Some "]"%char /\
               (Z.of_nat n' + delta_sum (take (S j) rest) = 0)%Z /\
               (forall j', j' <= j ->
                  (0 < Z.of_nat n' + delta_sum (take j' rest))%Z)) ->
            exists j,
              m = pc + 1 + j /\ j < length (c :: rest) /\
              (c :: rest) !! j = Some "]"%char /\
              (Z.of_nat (S b) + delta_sum (take (S j) (c :: rest)) = 0)%Z /\
              (forall j', j' <= j ->
                 (0 < Z.of_nat (S b) + delta_sum (take j' (c :: rest)))%Z)).
  { intros n' Hn' (j & -> & Hj & Hget & Hzero & Hpos). exists (S j).
    split; [lia|]. split; [simpl; lia|]. split; [exact Hget|].
    split; [level_norm; lia|].
    intros [|j'] Hj'; [level_norm; lia|].
    specialize (Hpos j'). level_norm. lia. }
  scan_char c.
  - apply (Hlift (S b + 1)); [lia|]. apply IH; [lia|exact Hscan].
  - destruct b as [|b].
    + rewrite skip_scan_zero in Hscan. injection Hscan as <-. exists 0.
      split; [lia|]. split; [simpl; lia|]. split.
      { simpl. f_equal. symmetry. apply Ascii.eqb_eq. assumption. }
      split; [level_norm; lia|]. intros j' Hj'.
      replace j' with 0 by lia. level_norm. lia.
    + apply (Hlift (S b)); [lia|]. apply IH; [lia|exact Hscan].
  - apply (Hlift (S b)); [lia|]. apply IH; [lia|exact Hscan].
Qed.

Lemma skip_scan_inr rest :
  forall pc n e,
    0 < n -> skip_scan rest pc n = inr e ->
    e = pc + 1 + length rest /\
    (forall j', j' <= length rest ->
       (0 < Z.of_nat n + delta_sum (take j' rest))%Z).
Proof.
  induction rest as [|c rest IH]; intros pc n e Hn Hscan;
    (destruct n as [|b]; [lia|]); cbn [skip_scan] in Hscan.
  - injection Hscan as <-. split; [simpl; lia|].
    intros j' Hj'. rewrite take_nil, delta_sum_nil. lia.
  - assert (Hlift : forall n',
              (Z.of_nat n' = Z.of_nat (S b) + bracket_delta c)%Z ->
              0 < n' ->
              skip_scan rest (pc + 1) n' = inr e ->
              e = pc + 1 + length (c :: rest) /\
              (forall j', j' <= length (c :: rest) ->
                 (0 < Z.of_nat (S b) + delta_sum (take j' (c :: rest)))%Z)).
    { intros n' Hn' Hpos' Hscan'.
      destruct (IH _ _ _ Hpos' Hscan') as [-> Hpos]. split; [simpl; lia|].
      intros [|j'] Hj'; [level_norm; lia|].
      simpl in Hj'. specialize (Hpos j'). level_norm. lia. }
    scan_char c.
    + apply (Hlift (S b + 1)); [lia|lia|exact Hscan].
    + destruct b as [|b]; [rewrite skip_scan_zero in Hscan; discriminate|].
      apply (Hlift (S b)); [lia|lia|exact Hscan].
    + apply (Hlift (S b)); [lia|lia|exact Hscan].
Qed.

(** The scan started on the [[] at index [i] stops with the counter on
    [m] exactly when [m] is the matching bracket. *)
Lemma skip_scan_matching code i m :
  skip_scan (drop (i + 1) code) i 1 = inl m <-> matching_close code i m.
Proof.
  split.
  - intros Hscan.
    destruct (skip_scan_inl _ _ _ _ Nat.lt_0_1 Hscan)
      as (j & -> & Hj & _ & Hzero & Hpos).
    rewrite length_drop in Hj. split; [lia|]. unfold nest_level_at. split.
    + replace (i + 1 + j - i) with (S j) by lia. exact Hzero.
    + intros k Hk. apply (Hpos (k - i)). lia.
  - intros (Hm & Hzero & Hpos). unfold nest_level_at in *.
    replace m with (i + 1 + (m - i - 1)) by lia.
    apply skip_scan_found.
    + lia.
    + rewrite length_drop. lia.
    + replace (S (m - i - 1)) with (m - i) by lia. exact Hzero.
    + intros j' Hj'. specialize (Hpos (i + j')).
      replace (i + j' - i) with j' in Hpos by lia. apply Hpos. lia.
Qed.

Lemma matching_close_bracket code i m :
  matching_close code i m -> code !! m = Some "]"%char.
Proof.
  intros Hmatch. apply skip_scan_matching in Hmatch.
  destruct (skip_scan_inl _ _ _ _ Nat.lt_0_1 Hmatch)
    as (j & -> & _ & Hget & _).
  rewrite lookup_drop in Hget. exact Hget.
Qed.

(** The scan runs off the end exactly when no bracket matches. *)
Lemma skip_scan_unmatched code i :
  (forall m, ~ matching_close code i m) <->
  exists e, skip_scan (drop (i + 1) code) i 1 = inr e.
Proof.
  split.
  - intros Hnone.
    destruct (skip_scan (drop (i + 1) code) i 1) as [m|e] eqn:Hscan.
    + exfalso. apply (Hnone m). apply skip_scan_matching. exact Hscan.
    + exists e. reflexivity.
  - intros [e Hscan] m Hmatch. apply skip_scan_matching in Hmatch.
    rewrite Hscan in Hmatch. discriminate.
Qed.

Lemma skip_scan_end code i e :
  i < length code ->
  skip_scan (drop (i + 1) code) i 1 = inr e -> e = length code.
Proof.
  intros Hi Hscan.
  destruct (skip_scan_inr _ _ _ _ Nat.lt_0_1 Hscan) as [-> _].
  rewrite length_drop. lia.
Qed.

(** ** The three outcomes of [[] *)

Section Open.
Variables (config : BrainfuckConfig) (tty : bool) (code : list ascii).
Variable st : state.
Hypothesis Hfetch : code !! pc st = Some "["%char.

Lemma step_open_skip m :
  cell st = 0%Z ->
  skip_scan (drop (pc st + 1) code) (pc st) 1 = inl m ->
  step config tty code st =
    Continue (set_pc (m + 1) (set_pc m (debug_hook config "[" st))).
Proof.
  intros Hcell Hscan. rewrite (step_fetch _ _ _ _ _ Hfetch).
  dispatch; unfold exec_open.
  autorewrite with hook. rewrite Hcell, Hscan. reflexivity.
Qed.

Lemma step_open_unmatched e :
  cell st = 0%Z ->
  skip_scan (drop (pc st + 1) code) (pc st) 1 = inr e ->
  step config tty code st =
    Abort (UnmatchedOpen
             match loop_stack st with top :: _ => top | [] => e end)
          (set_pc e (debug_hook config "[" st)).
Proof.
  intros Hcell Hscan. rewrite (step_fetch _ _ _ _ _ Hfetch).
  dispatch; unfold exec_open.
  autorewrite with hook. rewrite Hcell, Hscan. reflexivity.
Qed.

Lemma step_open_push :
  cell st <> 0%Z ->
  length (loop_stack st) < MAX_NESTED_LOOPS ->
  step config tty code st =
    Continue (set_pc (pc st + 1)
                (set_loop_stack (pc st :: loop_stack st)
                   (debug_hook config "[" st))).
Proof.
  intros Hcell Hroom. rewrite (step_fetch _ _ _ _ _ Hfetch).
  dispatch; unfold exec_open.
  autorewrite with hook.
  destruct (Z.eqb_spec (cell st) 0) as [E|_]; [contradiction|].
  destruct (Nat.leb_spec MAX_NESTED_LOOPS (length (loop_stack st)));
    [lia|].
  simpl. autorewrite with hook. reflexivity.
Qed.

End Open.

(** ** C3 *)

(** C3.  When [[] is executed with the current cell 0 and [m] is its
    matching bracket (first index past it where the nest level, counted
    from 1, is back to 0), index [m] holds []]] and the iteration continues
    with the counter just past [m] and with tape, pointer, loop stack, input
    buffer, input source and output bytes as they were: nothing between the
    brackets is executed (with the debug hook off the new state is the old
    one but for the counter).  In particular [[[-]]] on the zeroed tape of
    the default configuration completes after that single iteration, with
    the tape still zeroed, no output, no error and an empty loop stack. *)
Theorem C3_forward_skip_executes_nothing :
  (forall config tty code st m,
     code !! pc st = Some "["%char ->
     cell st = 0%Z ->
     matching_close code (pc st) m ->
     code !! m = Some "]"%char /\
     exists st',
       step config tty code st = Continue st' /\
       pc st' = m + 1 /\
       memory st' = memory st /\
       ptr st' = ptr st /\
       loop_stack st' = loop_stack st /\
       input_buffer st' = input_buffer st /\
       input_pos st' = input_pos st /\
       input_size st' = input_size st /\
       stdin st' = stdin st /\
       output_bytes (stdout st') = output_bytes (stdout st) /\
       (debug_mode config = false -> st' = set_pc (m + 1) st)) /\
  (forall tty input,
   exists st,
     execute_brainfuck 2 "[[-]]" default_config tty input = Completed st /\
     pc st = 5 /\
     memory st = replicate (memory_size default_config) 0%Z /\
     ptr st = 0 /\
     stdout st = [] /\
     loop_stack st = []).
Proof.
  split.
  - intros config tty code st m Hfetch Hcell Hmatch.
    split; [exact (matching_close_bracket _ _ _ Hmatch)|].
    apply skip_scan_matching in Hmatch. eexists.
    split; [apply (step_open_skip _ _ _ _ Hfetch _ Hcell Hmatch)|].
    simpl. autorewrite with hook.
    do 9 (split; [reflexivity|]).
    intros Hoff. rewrite (debug_hook_off _ _ _ Hoff). reflexivity.
  - intros tty input.
    exists (set_pc 5 (set_pc 4 (init default_config input))).
    split; [|repeat split].
    unfold execute_brainfuck.
    assert (Hfirst :
        step default_config tty (list_ascii_of_string "[[-]]")
          (init default_config input)
        = Continue (set_pc 5 (set_pc 4 (init default_config input)))).
    { apply (step_open_skip default_config tty
               (list_ascii_of_string "[[-]]") (init default_config input)
               eq_refl 4); [vm_compute|]; reflexivity. }
    change (run 2 default_config tty (list_ascii_of_string "[[-]]")
              (init default_config input))
      with (match step default_config tty (list_ascii_of_string "[[-]]")
                    (init default_config input) with
            | Continue st' =>
                run 1 default_config tty (list_ascii_of_string "[[-]]") st'
            | Finished st' => Completed st'
            | Abort e st' => Aborted e st'
            end).
    rewrite Hfirst. reflexivity.
Qed.

Lemma C3_forward_skip_witness :
  list_ascii_of_string "[[-]]+" !! pc (state_at [0%Z; 0%Z; 0%Z] 0 0 [] [])
    = Some "["%char /\
  cell (state_at [0%Z; 0%Z; 0%Z] 0 0 [] []) = 0%Z /\
  matching_close (list_ascii_of_string "[[-]]+") 0 4 /\
  list_ascii_of_string "[[-]]+" !! 4 = Some "]"%char /\
  exists st',
    step (small_config false false) false (list_ascii_of_string "[[-]]+")
      (state_at [0%Z; 0%Z; 0%Z] 0 0 [] []) = Continue st' /\
    pc st' = 4 + 1 /\
    memory st' = [0%Z; 0%Z; 0%Z] /\
    ptr st' = 0 /\
    loop_stack st' = [].
Proof.
  assert (Hmatch : matching_close (list_ascii_of_string "[[-]]+") 0 4)
    by (apply skip_scan_matching; reflexivity).
  split; [reflexivity|]. split; [reflexivity|]. split; [exact Hmatch|].
  destruct (proj1 C3_forward_skip_executes_nothing
              (small_config false false) false
              (list_ascii_of_string "[[-]]+")
              (state_at [0%Z; 0%Z; 0%Z] 0 0 [] []) 4
              eq_refl eq_refl Hmatch)
    as (Hclose & st' & Hstep & Hpc & Hmem & Hptr & Hstack & _).
  split; [exact Hclose|]. exists st'.
  split; [exact Hstep|]. split; [exact Hpc|]. split; [exact Hmem|].
  split; [exact Hptr|exact Hstack].
Defined.

(** ** C9 *)

Lemma step_close_unmatched config tty code st :
  code !! pc st = Some "]"%char ->
  loop_stack st = [] ->
  step config tty code st =
    Abort (UnmatchedClose (pc st)) (debug_hook config "]" st).
Proof.
  intros Hfetch Hstack. rewrite (step_fetch _ _ _ _ _ Hfetch).
  dispatch; unfold exec_close.
  autorewrite with hook. rewrite Hstack. reflexivity.
Qed.

Lemma run_abort config tty code st e st' fuel :
  step config tty code st = Abort e st' ->
  run (S fuel) config tty code st = Aborted e st'.
Proof. intros H. simpl. rewrite H. reflexivity. Qed.

(** C9.  When [[] is executed with the current cell 0 and no bracket
    matches it, the scan reaches the end of the code and the run ends with
    [UnmatchedOpen]; the position it reports is the top of the loop stack
    or, on an empty stack, the length of the code.  When []]] is executed on
    an empty loop stack the run ends with [UnmatchedClose] at the position
    of that []]].  In both cases the tape and the output bytes are as they
    were.  Under the default configuration [[+] ends with [UnmatchedOpen]
    and [+]] ends with [UnmatchedClose] at position 1. *)
Theorem C9_unmatched_brackets :
  (forall config tty code st fuel,
     code !! pc st = Some "["%char ->
     cell st = 0%Z ->
     (forall m, ~ matching_close code (pc st) m) ->
     exists st',
       step config tty code st
         = Abort (UnmatchedOpen (hd (length code) (loop_stack st))) st' /\
       run (S fuel) config tty code st
         = Aborted (UnmatchedOpen (hd (length code) (loop_stack st))) st' /\
       pc st' = length code /\
       memory st' = memory st /\
       output_bytes (stdout st') = output_bytes (stdout st)) /\
  (forall config tty code st fuel,
     code !! pc st = Some "]"%char ->
     loop_stack st = [] ->
     exists st',
       step config tty code st = Abort (UnmatchedClose (pc st)) st' /\
       run (S fuel) config tty code st
         = Aborted (UnmatchedClose (pc st)) st' /\
       pc st' = pc st /\
       memory st' = memory st /\
       output_bytes (stdout st') = output_bytes (stdout st)) /\
  (forall tty input,
   exists st,
     execute_brainfuck_returns "[+" default_config tty input
       (Aborted (UnmatchedOpen 2) st) /\
     output_bytes (stdout st) = []) /\
  (forall tty input,
   exists st,
     execute_brainfuck_returns "+]" default_config tty input
       (Aborted (UnmatchedClose 1) st) /\
     output_bytes (stdout st) = []).
Proof.
  split; [|split; [|split]].
  - intros config tty code st fuel Hfetch Hcell Hnone.
    apply skip_scan_unmatched in Hnone. destruct Hnone as [e Hscan].
    assert (He : e = length code).
    { apply (skip_scan_end code (pc st)); [|exact Hscan].
      apply (lookup_lt_Some _ _ _ Hfetch). }
    subst e.
    assert (Hstep := step_open_unmatched config tty code st Hfetch _
                       Hcell Hscan).
    replace (match loop_stack st with
             | top :: _ => top
             | [] => length code
             end) with (hd (length code) (loop_stack st)) in Hstep
      by (destruct (loop_stack st); reflexivity).
    eexists. split; [exact Hstep|].
    split; [apply run_abort; exact Hstep|].
    simpl. autorewrite with hook. repeat split.
  - intros config tty code st fuel Hfetch Hstack.
    assert (Hstep := step_close_unmatched config tty code st Hfetch Hstack).
    eexists. split; [exact Hstep|].
    split; [apply run_abort; exact Hstep|].
    autorewrite with hook. repeat split.
  - intros tty input.
    exists (result_state
              (execute_brainfuck 5 "[+" default_config tty input)).
    split; [apply run_returns_aborted|];
      destruct tty; vm_compute; reflexivity.
  - intros tty input.
    exists (result_state
              (execute_brainfuck 5 "+]" default_config tty input)).
    split; [apply run_returns_aborted|];
      destruct tty; vm_compute; reflexivity.
Qed.

Lemma C9_unmatched_brackets_witness :
  (list_ascii_of_string "+[[+]" !! pc (state_at [0%Z; 0%Z; 0%Z] 0 1 [] [])
     = Some "["%char /\
   cell (state_at [0%Z; 0%Z; 0%Z] 0 1 [] []) = 0%Z /\
   (forall m, ~ matching_close (list_ascii_of_string "+[[+]") 1 m) /\
   exists st',
     step (small_config false false) false (list_ascii_of_string "+[[+]")
       (state_at [0%Z; 0%Z; 0%Z] 0 1 [] []) = Abort (UnmatchedOpen 5) st' /\
     pc st' = 5) /\
  (list_ascii_of_string "-]+" !! pc (state_at [255%Z; 0%Z; 0%Z] 0 1 [] [])
     = Some "]"%char /\
   loop_stack (state_at [255%Z; 0%Z; 0%Z] 0 1 [] []) = [] /\
   exists st',
     step (small_config false false) false (list_ascii_of_string "-]+")
       (state_at [255%Z; 0%Z; 0%Z] 0 1 [] []) = Abort (UnmatchedClose 1) st' /\
     memory st' = [255%Z; 0%Z; 0%Z]).
Proof.
  assert (Hnone : forall m,
            ~ matching_close (list_ascii_of_string "+[[+]") 1 m).
  { apply skip_scan_unmatched. exists 5. reflexivity. }
  split.
  - split; [reflexivity|]. split; [reflexivity|]. split; [exact Hnone|].
    destruct (proj1 C9_unmatched_brackets (small_config false false) false
                (list_ascii_of_string "+[[+]")
                (state_at [0%Z; 0%Z; 0%Z] 0 1 [] []) 0
                eq_refl eq_refl Hnone)
      as (st' & Hstep & _ & Hpc & _).
    exists st'. split; [exact Hstep|exact Hpc].
  - split; [reflexivity|]. split; [reflexivity|].
    destruct (proj1 (proj2 C9_unmatched_brackets)
                (small_config false false) false
                (list_ascii_of_string "-]+")
                (state_at [255%Z; 0%Z; 0%Z] 0 1 [] []) 0
                eq_refl eq_refl)
      as (st' & Hstep & _ & _ & Hmem & _).
    exists st'. split; [exact Hstep|exact Hmem].
Defined.

(** ** The two loop jumps *)

Lemma decode_open c : decode c = IOpen <-> c = "["%char.
Proof.
  split; [|intros ->; reflexivity]. unfold decode.
  repeat match goal with
         | |- context [Ascii.eqb c ?k] =>
             destruct (Ascii.eqb_spec c k); [try discriminate|]
         end; [intros _; assumption|discriminate].
Qed.

Lemma decode_close c : decode c = IClose <-> c = "]"%char.
Proof.
  split; [|intros ->; reflexivity]. unfold decode.
  repeat match goal with
         | |- context [Ascii.eqb c ?k] =>
             destruct (Ascii.eqb_spec c k); [try discriminate|]
         end; [intros _; assumption|discriminate].
Qed.

(** The iterations [jump_target] singles out are the two loop jumps. *)
Lemma jump_target_cases code st target :
  jump_target code st = Some target <->
  (code !! pc st = Some "["%char /\ cell st = 0%Z /\
   matching_close code (pc st) target) \/
  (code !! pc st = Some "]"%char /\ cell st <> 0%Z /\
   exists below, loop_stack st = target :: below).
Proof.
  unfold jump_target. split.
  - destruct (code !! pc st) as [c|]; simpl; [|discriminate].
    destruct (decode c) eqn:Hc; try discriminate.
    + apply decode_open in Hc. subst c.
      destruct (Z.eqb_spec (cell st) 0) as [Hcell|_]; [|discriminate].
      destruct (skip_scan _ _ _) as [m|e] eqn:Hscan; [|discriminate].
      intros [= <-]. left. split; [reflexivity|]. split; [exact Hcell|].
      apply skip_scan_matching. exact Hscan.
    + apply decode_close in Hc. subst c.
      destruct (Z.eqb_spec (cell st) 0) as [|Hcell]; [discriminate|].
      destruct (loop_stack st) as [|top below]; [discriminate|].
      intros [= <-]. right. split; [reflexivity|]. split; [exact Hcell|].
      exists below. reflexivity.
  - intros [(-> & Hcell & Hmatch)|(-> & Hcell & below & Hstack)]; simpl.
    + apply skip_scan_matching in Hmatch. rewrite Hcell, Hmatch. reflexivity.
    + destruct (Z.eqb_spec (cell st) 0) as [|_]; [contradiction|].
      rewrite Hstack. reflexivity.
Qed.

(** ** The input protocol *)

Lemma strlen_le_length s : strlen s <= length s.
Proof.
  induction s as [|c s IH]; simpl; [lia|].
  destruct (c =? 0)%Z; lia.
Qed.

Lemma strlen_nth_nonzero s i : i < strlen s -> nth i s 0%Z <> 0%Z.
Proof.
  revert i. induction s as [|c s IH]; intros i Hi; simpl in Hi; [lia|].
  destruct (Z.eqb_spec c 0) as [|Hc]; [lia|].
  destruct i as [|i]; simpl; [exact Hc|]. apply IH. lia.
Qed.

Lemma strlen_app_nul chunk : strlen (chunk ++ [0%Z]) = strlen chunk.
Proof.
  induction chunk as [|c chunk IH]; simpl; [reflexivity|].
  destruct (c =? 0)%Z; [reflexivity|]. rewrite IH. reflexivity.
Qed.

Lemma strlen_nul s : strlen (0%Z :: s) = 0.
Proof. reflexivity. Qed.

(** [fgets] takes a non-empty prefix of the source, leaving the rest. *)
Lemma fgets_chars_split n :
  forall src chunk unread,
    fgets_chars n src = (chunk, unread) ->
    src = chunk ++ unread /\ length chunk <= n.
Proof.
  induction n as [|n IH]; intros src chunk unread H; simpl in H.
  - injection H as <- <-. split; [reflexivity|simpl; lia].
  - destruct src as [|c rest].
    + injection H as <- <-. split; [reflexivity|simpl; lia].
    + destruct (c =? 10)%Z.
      * injection H as <- <-. split; [reflexivity|simpl; lia].
      * destruct (fgets_chars n rest) as [chunk' unread'] eqn:Hrest.
        injection H as <- <-.
        destruct (IH _ _ _ Hrest) as [-> Hlen].
        split; [reflexivity|simpl; lia].
Qed.

Lemma fgets_some size src chunk unread :
  fgets size src = (Some chunk, unread) ->
  src = chunk ++ unread /\ chunk <> [] /\ length chunk <= size - 1.
Proof.
  unfold fgets. intros H.
  destruct (fgets_chars (size - 1) src) as [chunk' unread'] eqn:Hchars.
  destruct chunk' as [|c chunk']; [discriminate|].
  injection H as <- <-.
  destruct (fgets_chars_split _ _ _ _ Hchars) as [-> Hlen].
  split; [reflexivity|]. split; [discriminate|exact Hlen].
Qed.

Lemma fgets_none size src unread :
  fgets size src = (None, unread) -> unread = src.
Proof.
  unfold fgets. intros H.
  destruct (fgets_chars (size - 1) src) as [[|c chunk'] unread'];
    [|discriminate].
  injection H as <-. reflexivity.
Qed.

Lemma fgets_eof size : fgets size [] = (None, []).
Proof. unfold fgets. destruct (size - 1); reflexivity. Qed.

(** A source that starts with a NUL yields a chunk that starts with it. *)
Lemma fgets_nul_first rest :
  exists chunk unread,
    fgets INPUT_BUFFER_SIZE (0%Z :: rest) = (Some (0%Z :: chunk), unread).
Proof.
  unfold fgets.
  change (INPUT_BUFFER_SIZE - 1) with (S (INPUT_BUFFER_SIZE - 2)).
  cbn [fgets_chars Z.eqb].
  destruct (fgets_chars (INPUT_BUFFER_SIZE - 2) rest) as [chunk unread].
  exists chunk, unread. reflexivity.
Qed.

Lemma is_byte_mod b : is_byte b -> (b mod 256)%Z = b.
Proof. unfold is_byte. intros H. apply Z.mod_small. exact H. Qed.

Lemma is_byte_nth l i : Forall is_byte l -> is_byte (nth i l 0%Z).
Proof.
  intros H. revert i. induction H as [|b l Hb _ IH]; intros [|i]; simpl;
    try (unfold is_byte; lia); auto.
Qed.

Section Refill.
Variables (tty : bool) (st : state).

Lemma refill_memory : memory (refill tty st) = memory st.
Proof.
  unfold refill. destruct (input_size st <=? input_pos st); [|reflexivity].
  destruct tty; simpl; destruct (fgets _ _) as [[chunk|] unread];
    reflexivity.
Qed.

Lemma refill_ptr : ptr (refill tty st) = ptr st.
Proof.
  unfold refill. destruct (input_size st <=? input_pos st); [|reflexivity].
  destruct tty; simpl; destruct (fgets _ _) as [[chunk|] unread];
    reflexivity.
Qed.

Lemma refill_pc : pc (refill tty st) = pc st.
Proof.
  unfold refill. destruct (input_size st <=? input_pos st); [|reflexivity].
  destruct tty; simpl; destruct (fgets _ _) as [[chunk|] unread];
    reflexivity.
Qed.

Lemma refill_loop_stack : loop_stack (refill tty st) = loop_stack st.
Proof.
  unfold refill. destruct (input_size st <=? input_pos st); [|reflexivity].
  destruct tty; simpl; destruct (fgets _ _) as [[chunk|] unread];
    reflexivity.
Qed.

Lemma refill_output :
  output_bytes (stdout (refill tty st)) = output_bytes (stdout st).
Proof.
  unfold refill. destruct (input_size st <=? input_pos st); [|reflexivity].
  destruct tty; simpl; destruct (fgets _ _) as [[chunk|] unread]; simpl;
    rewrite ?output_bytes_app; simpl; rewrite ?app_nil_r; reflexivity.
Qed.

(** With bytes left in the buffer nothing is read. *)
Lemma refill_buffered : input_pos st < input_size st -> refill tty st = st.
Proof.
  intros H. unfold refill.
  destruct (Nat.leb_spec (input_size st) (input_pos st)); [lia|reflexivity].
Qed.

(** With the buffer used up, a chunk read replaces it; its filled size is
    the length of the chunk up to its first NUL. *)
Lemma refill_chunk chunk unread :
  input_size st <= input_pos st ->
  fgets INPUT_BUFFER_SIZE (stdin st) = (Some chunk, unread) ->
  input_buffer (refill tty st) = chunk ++ [0%Z] /\
  input_pos (refill tty st) = 0 /\
  input_size (refill tty st) = strlen chunk /\
  stdin (refill tty st) = unread.
Proof.
  intros Hused Hread. unfold refill.
  destruct (Nat.leb_spec (input_size st) (input_pos st)); [|lia].
  destruct tty; simpl; rewrite Hread; simpl; rewrite strlen_app_nul;
    repeat split.
Qed.

(** With the buffer used up and the source at end-of-file, it stays empty. *)
Lemma refill_eof :
  input_size st <= input_pos st ->
  stdin st = [] ->
  input_buffer (refill tty st) = input_buffer st /\
  input_pos (refill tty st) = 0 /\
  input_size (refill tty st) = 0 /\
  stdin (refill tty st) = [].
Proof.
  intros Hused Heof. unfold refill.
  destruct (Nat.leb_spec (input_size st) (input_pos st)); [|lia].
  destruct tty; simpl; rewrite Heof, fgets_eof; simpl; repeat split.
Qed.

Lemma refill_input_ok : input_ok st -> input_ok (refill tty st).
Proof.
  intros (Hsrc & Hbuf & Hsize).
  destruct (Nat.leb_spec (input_size st) (input_pos st)) as [Hused|Hleft].
  - destruct (fgets INPUT_BUFFER_SIZE (stdin st)) as [[chunk|] unread]
      eqn:Hread.
    + destruct (refill_chunk _ _ Hused Hread) as (Eb & _ & Es & Ei).
      destruct (fgets_some _ _ _ _ Hread) as (Hsplit & _).
      rewrite Hsplit in Hsrc. apply Forall_app in Hsrc as [Hc Hu].
      unfold input_ok. rewrite Eb, Es, Ei. split; [exact Hu|]. split.
      * apply Forall_app. split; [exact Hc|].
        constructor; [unfold is_byte; lia|constructor].
      * rewrite strlen_app_nul. lia.
    + apply fgets_none in Hread as Hrest.
      unfold input_ok, refill.
      destruct (Nat.leb_spec (input_size st) (input_pos st)); [|lia].
      destruct tty; simpl; rewrite Hread; simpl;
        (split; [exact Hsrc|split; [exact Hbuf|lia]]).
  - rewrite (refill_buffered Hleft). split; [exact Hsrc|]. split; assumption.
Qed.

End Refill.

Section Deliver.
Variables (config : BrainfuckConfig) (st : state).

Lemma eof_policy_memory :
  memory (eof_policy config st) =
    if eof_behavior config then <[ptr st := 0%Z]> (memory st)
    else memory st.
Proof. unfold eof_policy. destruct (eof_behavior config); reflexivity. Qed.

Lemma deliver_byte :
  input_pos st < input_size st ->
  deliver config st =
    store (nth (input_pos st) (input_buffer st) 0%Z mod 256)%Z
      (set_input (input_buffer st) (input_pos st + 1) (input_size st)
         (stdin st) st).
Proof.
  intros H. unfold deliver.
  destruct (Nat.ltb_spec (input_pos st) (input_size st)); [reflexivity|lia].
Qed.

Lemma deliver_eof :
  input_size st <= input_pos st -> deliver config st = eof_policy config st.
Proof.
  intros H. unfold deliver.
  destruct (Nat.ltb_spec (input_pos st) (input_size st)); [lia|reflexivity].
Qed.

Lemma deliver_ptr : ptr (deliver config st) = ptr st.
Proof.
  unfold deliver, eof_policy.
  destruct (input_pos st <? input_size st), (eof_behavior config);
    reflexivity.
Qed.

Lemma deliver_pc : pc (deliver config st) = pc st.
Proof.
  unfold deliver, eof_policy.
  destruct (input_pos st <? input_size st), (eof_behavior config);
    reflexivity.
Qed.

Lemma deliver_loop_stack : loop_stack (deliver config st) = loop_stack st.
Proof.
  unfold deliver, eof_policy.
  destruct (input_pos st <? input_size st), (eof_behavior config);
    reflexivity.
Qed.

Lemma deliver_stdout : stdout (deliver config st) = stdout st.
Proof.
  unfold deliver, eof_policy.
  destruct (input_pos st <? input_size st), (eof_behavior config);
    reflexivity.
Qed.

Lemma deliver_stdin : stdin (deliver config st) = stdin st.
Proof.
  unfold deliver, eof_policy.
  destruct (input_pos st <? input_size st), (eof_behavior config);
    reflexivity.
Qed.

Lemma deliver_input_ok : input_ok st -> input_ok (deliver config st).
Proof.
  unfold input_ok, deliver, eof_policy.
  destruct (input_pos st <? input_size st), (eof_behavior config);
    simpl; auto.
Qed.

End Deliver.

Lemma step_input config tty code st :
  code !! pc st = Some ","%char ->
  step config tty code st =
    Continue (set_pc (pc st + 1)
                (exec_input config tty (debug_hook config "," st))).
Proof.
  intros H. rewrite (step_fetch _ _ _ _ _ H).
  dispatch. unfold exec_input.
  rewrite deliver_pc, refill_pc. autorewrite with hook. reflexivity.
Qed.

(** ** C8 *)

(** C8.  When [,] is executed with the buffer used up and the input source
    at end-of-file, the iteration continues (no error) and the current cell
    is set to 0 if [eof_behavior] is set and is left alone otherwise; the
    pointer, the rest of the tape and the output bytes are as they were.
    Under the default configuration [,.,.] fed the byte 65 outputs 65
    twice; with [eof_behavior] set it outputs 65 and then 0. *)
Theorem C8_eof_policy :
  (forall config tty code st,
     code !! pc st = Some ","%char ->
     input_size st <= input_pos st ->
     stdin st = [] ->
     exists st',
       step config tty code st = Continue st' /\
       memory st' =
         (if eof_behavior config then <[ptr st := 0%Z]> (memory st)
          else memory st) /\
       ptr st' = ptr st /\
       pc st' = pc st + 1 /\
       stdin st' = [] /\
       output_bytes (stdout st') = output_bytes (stdout st)) /\
  (forall tty,
   exists st,
     execute_brainfuck_returns ",.,." default_config tty [65%Z]
       (Completed st) /\
     output_bytes (stdout st) = [65%Z; 65%Z]) /\
  (forall tty,
   exists st,
     execute_brainfuck_returns ",.,."
       {| wrap_memory := false; debug_mode := false;
          memory_size := DEFAULT_MEMORY_SIZE; eof_behavior := true |}
       tty [65%Z] (Completed st) /\
     output_bytes (stdout st) = [65%Z; 0%Z]).
Proof.
  split; [|split].
  - intros config tty code st Hfetch Hused Heof. eexists.
    split; [apply step_input; exact Hfetch|].
    assert (Hused' : input_size (debug_hook config "," st)
                     <= input_pos (debug_hook config "," st))
      by (autorewrite with hook; exact Hused).
    assert (Heof' : stdin (debug_hook config "," st) = [])
      by (autorewrite with hook; exact Heof).
    destruct (refill_eof tty _ Hused' Heof') as (_ & Hpos & Hsize & Hsrc).
    unfold exec_input. cbn [memory ptr pc stdin stdout set_pc].
    rewrite deliver_ptr, deliver_stdin, deliver_stdout.
    rewrite deliver_eof by lia.
    rewrite eof_policy_memory, refill_memory, refill_ptr, refill_output.
    rewrite Hsrc. autorewrite with hook. repeat split.
  - intros tty.
    exists (result_state
              (execute_brainfuck 10 ",.,." default_config tty [65%Z])).
    split; [apply run_returns_completed|];
      destruct tty; vm_compute; reflexivity.
  - intros tty.
    eexists (result_state (execute_brainfuck 10 ",.,." _ tty [65%Z])).
    split; [apply run_returns_completed|];
      destruct tty; vm_compute; reflexivity.
Qed.

Lemma C8_eof_policy_witness :
  list_ascii_of_string ",." !! pc (state_at [7%Z; 0%Z; 0%Z] 0 0 [] [])
    = Some ","%char /\
  input_size (state_at [7%Z; 0%Z; 0%Z] 0 0 [] [])
    <= input_pos (state_at [7%Z; 0%Z; 0%Z] 0 0 [] []) /\
  stdin (state_at [7%Z; 0%Z; 0%Z] 0 0 [] []) = [] /\
  (exists st',
     step (small_config false true) false (list_ascii_of_string ",.")
       (state_at [7%Z; 0%Z; 0%Z] 0 0 [] []) = Continue st' /\
     memory st' = [0%Z; 0%Z; 0%Z]) /\
  (exists st',
     step (small_config false false) false (list_ascii_of_string ",.")
       (state_at [7%Z; 0%Z; 0%Z] 0 0 [] []) = Continue st' /\
     memory st' = [7%Z; 0%Z; 0%Z]).
Proof.
  assert (Hused : input_size (state_at [7%Z; 0%Z; 0%Z] 0 0 [] [])
                  <= input_pos (state_at [7%Z; 0%Z; 0%Z] 0 0 [] []))
    by (simpl; lia).
  split; [reflexivity|]. split; [exact Hused|]. split; [reflexivity|].
  split.
  - destruct (proj1 C8_eof_policy (small_config false true) false
                (list_ascii_of_string ",.")
                (state_at [7%Z; 0%Z; 0%Z] 0 0 [] []) eq_refl Hused eq_refl)
      as (st' & Hstep & Hmem & _).
    exists st'. split; [exact Hstep|exact Hmem].
  - destruct (proj1 C8_eof_policy (small_config false false) false
                (list_ascii_of_string ",.")
                (state_at [7%Z; 0%Z; 0%Z] 0 0 [] []) eq_refl Hused eq_refl)
      as (st' & Hstep & Hmem & _).
    exists st'. split; [exact Hstep|exact Hmem].
Defined.

(** ** C10 *)

(** The input invariant holds initially and is kept by every iteration. *)
Lemma init_input_ok config input :
  Forall is_byte input -> input_ok (init config input).
Proof.
  intros H. split; [exact H|]. split; [constructor|simpl; lia].
Qed.

Lemma debug_hook_input_ok config c st :
  input_ok st -> input_ok (debug_hook config c st).
Proof. unfold input_ok. autorewrite with hook. auto. Qed.

Lemma exec_instr_input_ok config tty code c st st' :
  input_ok st -> exec_instr config tty code c st = Ok st' -> input_ok st'.
Proof.
  intros Hok. unfold exec_instr. destruct (decode c).
  - destruct (move_right config (ptr st)); intros [= <-]; exact Hok.
  - destruct (move_left config (ptr st)); intros [= <-]; exact Hok.
  - intros [= <-]; exact Hok.
  - intros [= <-]; exact Hok.
  - intros [= <-]; exact Hok.
  - intros [= <-]. apply deliver_input_ok, refill_input_ok, Hok.
  - unfold exec_open. destruct (cell st =? 0)%Z.
    + destruct (skip_scan _ _ _); intros [= <-]; exact Hok.
    + destruct (MAX_NESTED_LOOPS <=? _); intros [= <-]; exact Hok.
  - unfold exec_close. destruct (loop_stack st); [discriminate|].
    destruct (negb _); intros [= <-]; exact Hok.
  - intros [= <-]; exact Hok.
Qed.

Lemma step_input_ok config tty code st st' :
  input_ok st -> step config tty code st = Continue st' -> input_ok st'.
Proof.
  intros Hok. unfold step. destruct (code !! pc st) as [c|]; [|discriminate].
  destruct (exec_instr config tty code c (debug_hook config c st))
    as [s|e s] eqn:Hexec; [|discriminate].
  intros [= <-].
  apply (exec_instr_input_ok _ _ _ _ _ _
           (debug_hook_input_ok config c st Hok) Hexec).
Qed.

Lemma steps_input_ok config tty code n :
  forall st st',
    input_ok st -> steps n config tty code st = Some st' -> input_ok st'.
Proof.
  induction n as [|n IH]; intros st st' Hok Hsteps; simpl in Hsteps.
  - injection Hsteps as <-. exact Hok.
  - destruct (step config tty code st) as [s| |] eqn:Hstep;
      [|discriminate..].
    apply (IH s st'); [|exact Hsteps].
    apply (step_input_ok _ _ _ _ _ Hok Hstep).
Qed.

(** Every state reached from the initial one, on an input made of bytes,
    satisfies the input invariant. *)
Lemma reachable_input_ok config tty code input n st :
  Forall is_byte input ->
  steps n config tty code (init config input) = Some st ->
  input_ok st.
Proof.
  intros Hin. apply steps_input_ok. apply init_input_ok. exact Hin.
Qed.

(** What [,] leaves on the tape: a byte of the buffer, which is not NUL,
    or the outcome of the end-of-file policy. *)
Lemma exec_input_cases config tty st :
  input_ok st ->
  (exists b,
     b <> 0%Z /\ is_byte b /\
     memory (exec_input config tty st) = <[ptr st := b]> (memory st)) \/
  memory (exec_input config tty st) =
    (if eof_behavior config then <[ptr st := 0%Z]> (memory st)
     else memory st).
Proof.
  intros Hok. apply (refill_input_ok tty) in Hok.
  destruct Hok as (_ & Hbuf & Hsize). unfold exec_input.
  destruct (Nat.ltb_spec (input_pos (refill tty st))
              (input_size (refill tty st))) as [Hlt|Hge].
  - left. exists (nth (input_pos (refill tty st))
                    (input_buffer (refill tty st)) 0%Z).
    split; [apply strlen_nth_nonzero; lia|].
    split; [apply is_byte_nth; exact Hbuf|].
    rewrite deliver_byte by exact Hlt.
    rewrite is_byte_mod by (apply is_byte_nth; exact Hbuf).
    unfold store; simpl. rewrite refill_memory, refill_ptr. reflexivity.
  - right. rewrite deliver_eof by exact Hge.
    rewrite eof_policy_memory, refill_memory, refill_ptr. reflexivity.
Qed.

Lemma deliver_input_size config st :
  input_size (deliver config st) = input_size st.
Proof.
  unfold deliver, eof_policy.
  destruct (input_pos st <? input_size st), (eof_behavior config);
    reflexivity.
Qed.

Lemma deliver_input_buffer config st :
  input_buffer (deliver config st) = input_buffer st.
Proof.
  unfold deliver, eof_policy.
  destruct (input_pos st <? input_size st), (eof_behavior config);
    reflexivity.
Qed.



(** ** Bounds kept by the engine *)

(** These justify reading the tape with a default and leaving out-of-range
    writes undefined in the embedding: no reachable state has the pointer
    off the tape or more than [MAX_NESTED_LOOPS] open loops. *)

Lemma move_right_in_range config p q :
  p < memory_size config ->
  move_right config p = Some q -> q < memory_size config.
Proof.
  unfold move_right. intros Hp.
  destruct (wrap_memory config).
  - destruct (Nat.eqb_spec p (memory_size config - 1));
      intros [= <-]; lia.
  - destruct (Nat.ltb_spec p (memory_size config - 1)); [|discriminate].
    intros [= <-]. lia.
Qed.

Lemma move_left_in_range config p q :
  p < memory_size config ->
  move_left config p = Some q -> q < memory_size config.
Proof.
  unfold move_left. intros Hp.
  destruct (wrap_memory config).
  - destruct (Nat.eqb_spec p 0); intros [= <-]; lia.
  - destruct (Nat.ltb_spec 0 p); [|discriminate].
    intros [= <-]. lia.
Qed.

Lemma exec_input_length config tty st :
  length (memory (exec_input config tty st)) = length (memory st).
Proof.
  unfold exec_input, deliver, eof_policy, store.
  destruct (input_pos _ <? input_size _); [|destruct (eof_behavior config)];
    simpl; rewrite ?length_insert; rewrite refill_memory; reflexivity.
Qed.

Lemma init_tape_ok config input :
  1 <= memory_size config -> tape_ok config (init config input).
Proof.
  intros H. unfold tape_ok, init. simpl. rewrite length_replicate.
  split; [reflexivity|]. split; [exact H|lia].
Qed.

Lemma exec_instr_tape_ok config tty code c st st' :
  tape_ok config st ->
  exec_instr config tty code c st = Ok st' ->
  tape_ok config st'.
Proof.
  intros (Hlen & Hptr & Hstack). unfold exec_instr, tape_ok.
  destruct (decode c).
  - destruct (move_right config (ptr st)) as [q|] eqn:Hq; intros [= <-].
    simpl. pose proof (move_right_in_range _ _ _ Hptr Hq). auto.
  - destruct (move_left config (ptr st)) as [q|] eqn:Hq; intros [= <-].
    simpl. pose proof (move_left_in_range _ _ _ Hptr Hq). auto.
  - intros [= <-]. simpl. rewrite length_insert. auto.
  - intros [= <-]. simpl. rewrite length_insert. auto.
  - intros [= <-]. simpl. auto.
  - intros [= <-]. unfold exec_input at 2 3.
    rewrite exec_input_length, deliver_ptr, deliver_loop_stack.
    rewrite refill_ptr, refill_loop_stack. auto.
  - unfold exec_open. destruct (cell st =? 0)%Z.
    + destruct (skip_scan _ _ _); intros [= <-]. simpl. auto.
    + destruct (Nat.leb_spec MAX_NESTED_LOOPS (length (loop_stack st)));
        intros [= <-]. simpl. split; [|split]; [assumption..|lia].
  - unfold exec_close.
    destruct (loop_stack st) as [|top below] eqn:Hopen; [discriminate|].
    simpl in Hstack.
    destruct (negb _); intros [= <-]; simpl; rewrite ?Hopen;
      (split; [exact Hlen|split; [exact Hptr|simpl; lia]]).
  - intros [= <-]. auto.
Qed.

Lemma step_tape_ok config tty code st st' :
  tape_ok config st ->
  step config tty code st = Continue st' ->
  tape_ok config st'.
Proof.
  intros Hok. unfold step. destruct (code !! pc st) as [c|]; [|discriminate].
  destruct (exec_instr config tty code c (debug_hook config c st))
    as [s|e s] eqn:Hexec; [|discriminate].
  intros [= <-].
  assert (Hhook : tape_ok config (debug_hook config c st))
    by (unfold tape_ok; autorewrite with hook; exact Hok).
  apply (exec_instr_tape_ok _ _ _ _ _ _ Hhook Hexec).
Qed.

Lemma reachable_tape_ok config tty code input n :
  1 <= memory_size config ->
  forall st,
    steps n config tty code (init config input) = Some st ->
    tape_ok config st.
Proof.
  intros Hsize.
  assert (Hgen : forall k s s',
            tape_ok config s -> steps k config tty code s = Some s' ->
            tape_ok config s').
  { induction k as [|k IH]; intros s s' Hok Hsteps; simpl in Hsteps.
    - injection Hsteps as <-. exact Hok.
    - destruct (step config tty code s) as [s1| |] eqn:Hstep;
        [|discriminate..].
      apply (IH s1 s'); [|exact Hsteps].
      apply (step_tape_ok _ _ _ _ _ Hok Hstep). }
  intros st. apply Hgen. apply init_tape_ok. exact Hsize.
Qed.

(** ** C2 *)

(** *** Segments of the text and balanced brackets *)

Lemma delta_sum_app l1 l2 :
  delta_sum (l1 ++ l2) = (delta_sum l1 + delta_sum l2)%Z.
Proof.
  induction l1 as [|c l1 IH]; [rewrite delta_sum_nil; reflexivity|].
  rewrite <- app_comm_cons, !delta_sum_cons, IH. lia.
Qed.

Lemma segment_empty code a : segment code a a = [].
Proof. unfold segment. rewrite Nat.sub_diag. apply take_0. Qed.

Lemma segment_snoc code a b c :
  a <= b -> code !! b = Some c ->
  segment code a (b + 1) = segment code a b ++ [c].
Proof.
  intros Hab Hget. unfold segment.
  replace (b + 1 - a) with (S (b - a)) by lia.
  apply take_S_r. rewrite lookup_drop.
  replace (a + (b - a)) with b by lia. exact Hget.
Qed.

Lemma segment_cons code a b c :
  a < b -> code !! a = Some c ->
  segment code a b = c :: segment code (a + 1) b.
Proof.
  intros Hab Hget. unfold segment.
  rewrite (drop_S _ _ _ Hget).
  replace (b - a) with (S (b - (a + 1))) by lia.
  rewrite firstn_cons. rewrite Nat.add_1_r. reflexivity.
Qed.

Lemma segment_app code a b c :
  a <= b -> b <= c ->
  segment code a c = segment code a b ++ segment code b c.
Proof.
  intros Hab Hbc. unfold segment.
  replace (drop b code) with (drop (b - a) (drop a code))
    by (rewrite drop_drop; f_equal; lia).
  rewrite take_take_drop. f_equal. lia.
Qed.

Lemma nest_level_segment code i k :
  nest_level_at code i k
  = (1 + delta_sum (segment code (i + 1) (k + 1)))%Z.
Proof.
  unfold nest_level_at, segment.
  replace (k + 1 - (i + 1)) with (k - i) by lia. reflexivity.
Qed.

Lemma balanced_nil : balanced [].
Proof.
  split; [apply delta_sum_nil|]. intros k. rewrite take_nil, delta_sum_nil.
  lia.
Qed.

Lemma balanced_app l1 l2 : balanced l1 -> balanced l2 -> balanced (l1 ++ l2).
Proof.
  intros [Hsum1 Hpre1] [Hsum2 Hpre2]. split.
  - rewrite delta_sum_app. lia.
  - intros k. rewrite take_app, delta_sum_app.
    specialize (Hpre1 k). specialize (Hpre2 (k - length l1)). lia.
Qed.

Lemma balanced_plain c : bracket_delta c = 0%Z -> balanced [c].
Proof.
  intros Hc. split.
  - rewrite delta_sum_cons, delta_sum_nil. lia.
  - intros [|k]; level_norm; [lia|]. rewrite take_nil, delta_sum_nil. lia.
Qed.

(** A loop, from its [[] to the matching []]], is balanced. *)
Lemma balanced_wrap l : balanced l -> balanced ("["%char :: l ++ ["]"%char]).
Proof.
  intros [Hsum Hpre].
  assert (Hopen : bracket_delta "[" = 1%Z) by reflexivity.
  assert (Hclose : bracket_delta "]" = (-1)%Z) by reflexivity.
  split.
  - rewrite delta_sum_cons, delta_sum_app, delta_sum_cons, delta_sum_nil.
    lia.
  - intros [|k]; [rewrite take_0, delta_sum_nil; lia|].
    rewrite firstn_cons, delta_sum_cons, take_app, delta_sum_app.
    specialize (Hpre k).
    destruct (k - length l) as [|j].
    + rewrite take_0, delta_sum_nil. lia.
    + rewrite firstn_cons, take_nil, delta_sum_cons, delta_sum_nil.
      destruct (Nat.le_gt_cases (length l) k) as [Hall|Hin].
      * rewrite take_ge in Hpre |- * by exact Hall. lia.
      * lia.
Qed.

Lemma balanced_skip code p m :
  code !! p = Some "["%char ->
  matching_close code p m ->
  balanced (segment code p (m + 1)).
Proof.
  intros Hopen (Hm & Hzero & Hpos).
  assert (Hdelta : bracket_delta "[" = 1%Z) by reflexivity.
  rewrite (segment_cons code p (m + 1) _ ltac:(lia) Hopen).
  rewrite nest_level_segment in Hzero.
  split.
  - rewrite delta_sum_cons. lia.
  - intros [|k]; [rewrite take_0, delta_sum_nil; lia|].
    rewrite firstn_cons, delta_sum_cons.
    destruct (Nat.le_gt_cases (m - p) k) as [Hall|Hin].
    + rewrite take_ge by (unfold segment; rewrite length_take; lia). lia.
    + specialize (Hpos (p + k) ltac:(lia)).
      unfold nest_level_at in Hpos. unfold segment.
      rewrite take_take.
      replace (p + k - p) with k in Hpos by lia.
      replace (k `min` (m + 1 - (p + 1))) with k by lia.
      lia.
Qed.

(** *** The loop stack matches the brackets of the text *)

Lemma loops_matched_extend code p q s :
  p <= q ->
  balanced (segment code p q) ->
  loops_matched code p s -> loops_matched code q s.
Proof.
  destruct s as [|top below]; [intros; exact I|].
  intros Hpq Hseg (Htop & Hopen & Hbody & Hbelow).
  split; [lia|]. split; [exact Hopen|]. split; [|exact Hbelow].
  rewrite (segment_app code (top + 1) p q) by lia.
  apply balanced_app; assumption.
Qed.

Lemma loops_matched_next code p c s :
  code !! p = Some c ->
  bracket_delta c = 0%Z ->
  loops_matched code p s -> loops_matched code (p + 1) s.
Proof.
  intros Hget Hc. apply loops_matched_extend; [lia|].
  rewrite (segment_snoc code p p c (Nat.le_refl p) Hget), segment_empty.
  apply balanced_plain. exact Hc.
Qed.

Lemma loops_matched_skip code p m s :
  code !! p = Some "["%char ->
  matching_close code p m ->
  loops_matched code p s -> loops_matched code (m + 1) s.
Proof.
  intros Hopen Hmatch. pose proof Hmatch as (Hm & _).
  apply loops_matched_extend; [lia|].
  apply balanced_skip; assumption.
Qed.

Lemma loops_matched_push code p s :
  code !! p = Some "["%char ->
  loops_matched code p s -> loops_matched code (p + 1) (p :: s).
Proof.
  intros Hopen Hs. split; [lia|]. split; [exact Hopen|].
  split; [|exact Hs]. rewrite segment_empty. apply balanced_nil.
Qed.

Lemma loops_matched_reenter code p top below :
  loops_matched code p (top :: below) ->
  loops_matched code (top + 1) (top :: below).
Proof.
  intros (_ & Hopen & _ & Hbelow). split; [lia|]. split; [exact Hopen|].
  split; [|exact Hbelow]. rewrite segment_empty. apply balanced_nil.
Qed.

Lemma loops_matched_pop code p top below :
  code !! p = Some "]"%char ->
  loops_matched code p (top :: below) ->
  loops_matched code (p + 1) below.
Proof.
  intros Hclose (Htop & Hopen & Hbody & Hbelow).
  apply (loops_matched_extend code top); [lia| |exact Hbelow].
  rewrite (segment_cons code top (p + 1) _ ltac:(lia) Hopen).
  rewrite (segment_snoc code (top + 1) p _ ltac:(lia) Hclose).
  apply balanced_wrap. exact Hbody.
Qed.

(** With the counter on a []]], the top of the stack is the [[] this []]]
    matches. *)
Lemma loops_matched_close code p top below :
  code !! p = Some "]"%char ->
  loops_matched code p (top :: below) ->
  code !! top = Some "["%char /\ matching_close code top p.
Proof.
  intros Hclose (Htop & Hopen & [Hsum Hpre] & _).
  assert (Hdelta : bracket_delta "]" = (-1)%Z) by reflexivity.
  split; [exact Hopen|].
  pose proof (lookup_lt_Some _ _ _ Hclose) as Hp.
  split; [lia|]. split.
  - rewrite nest_level_segment.
    rewrite (segment_snoc code (top + 1) p _ ltac:(lia) Hclose).
    rewrite delta_sum_app, delta_sum_cons, delta_sum_nil. lia.
  - intros k Hk. specialize (Hpre (k - top)).
    unfold segment in Hpre. rewrite take_take in Hpre.
    replace ((k - top) `min` (p - (top + 1))) with (k - top) in Hpre by lia.
    unfold nest_level_at. lia.
Qed.

Lemma bracket_delta_plain c :
  decode c <> IOpen -> decode c <> IClose -> bracket_delta c = 0%Z.
Proof.
  intros Hopen Hclose. unfold bracket_delta.
  destruct (Ascii.eqb_spec c "[") as [->|_]; [exfalso; apply Hopen; reflexivity|].
  destruct (Ascii.eqb_spec c "]") as [->|_]; [exfalso; apply Hclose; reflexivity|].
  reflexivity.
Qed.

Lemma exec_instr_loops_matched config tty code c st st' :
  code !! pc st = Some c ->
  loops_matched code (pc st) (loop_stack st) ->
  exec_instr config tty code c st = Ok st' ->
  loops_matched code (pc st' + 1) (loop_stack st').
Proof.
  intros Hfetch Hok.
  assert (Hsame : decode c <> IOpen -> decode c <> IClose ->
                  loops_matched code (pc st + 1) (loop_stack st)).
  { intros Hopen Hclose.
    apply (loops_matched_next code (pc st) c); [exact Hfetch| |exact Hok].
    apply bracket_delta_plain; assumption. }
  unfold exec_instr. destruct (decode c) eqn:Hc.
  - destruct (move_right config (ptr st)); intros [= <-];
      apply Hsame; discriminate.
  - destruct (move_left config (ptr st)); intros [= <-];
      apply Hsame; discriminate.
  - intros [= <-]; apply Hsame; discriminate.
  - intros [= <-]; apply Hsame; discriminate.
  - intros [= <-]; apply Hsame; discriminate.
  - intros [= <-]. unfold exec_input.
    rewrite deliver_pc, deliver_loop_stack, refill_pc, refill_loop_stack.
    apply Hsame; discriminate.
  - apply decode_open in Hc. subst c. unfold exec_open.
    destruct (cell st =? 0)%Z.
    + destruct (skip_scan _ _ _) as [m|e] eqn:Hscan; intros [= <-].
      apply skip_scan_matching in Hscan. cbn [pc loop_stack set_pc].
      apply (loops_matched_skip code (pc st)); assumption.
    + destruct (MAX_NESTED_LOOPS <=? _); intros [= <-].
      cbn [pc loop_stack set_loop_stack].
      apply loops_matched_push; assumption.
  - apply decode_close in Hc. subst c. unfold exec_close.
    destruct (loop_stack st) as [|top below] eqn:Hstack; [discriminate|].
    destruct (negb _); intros [= <-];
      cbn [pc loop_stack set_pc set_loop_stack]; rewrite ?Hstack.
    + apply (loops_matched_reenter code (pc st)). exact Hok.
    + apply (loops_matched_pop code (pc st) top); assumption.
  - intros [= <-]; apply Hsame; discriminate.
Qed.

Lemma step_loops_matched config tty code st st' :
  loops_matched code (pc st) (loop_stack st) ->
  step config tty code st = Continue st' ->
  loops_matched code (pc st') (loop_stack st').
Proof.
  intros Hok. unfold step. destruct (code !! pc st) as [c|] eqn:Hfetch;
    [|discriminate].
  destruct (exec_instr config tty code c (debug_hook config c st))
    as [s|e s] eqn:Hexec; [|discriminate].
  intros [= <-]. cbn [pc loop_stack set_pc].
  apply (exec_instr_loops_matched config tty code c
           (debug_hook config c st) s);
    [autorewrite with hook; assumption..|exact Hexec].
Qed.

(** In every state of a run the loop stack matches the brackets passed. *)
Lemma reachable_loops_matched config tty code input n :
  forall st,
    steps n config tty code (init config input) = Some st ->
    loops_matched code (pc st) (loop_stack st).
Proof.
  assert (Hgen : forall k s s',
            loops_matched code (pc s) (loop_stack s) ->
            steps k config tty code s = Some s' ->
            loops_matched code (pc s') (loop_stack s')).
  { induction k as [|k IH]; intros s s' Hok Hsteps; simpl in Hsteps.
    - injection Hsteps as <-. exact Hok.
    - destruct (step config tty code s) as [s1| |] eqn:Hstep;
        [|discriminate..].
      apply (IH s1 s'); [|exact Hsteps].
      apply (step_loops_matched _ _ _ _ _ Hok Hstep). }
  intros st. apply Hgen. exact I.
Qed.

(** C2, as amended.  In every iteration of a run that performs a loop jump
    -- a forward skip on [[] with the current cell 0, whose target is the
    matching []]], or a backward jump on []]] with the current cell not 0,
    whose target is the matching [[], the position on top of the loop
    stack -- the counter at the start of the next iteration is the jump
    target plus one: the [pc++] that ends every iteration is applied after
    a jump as well, so execution resumes just past the matching []]],
    respectively just past the matching [[], on the first instruction of
    the loop body. *)
Theorem C2_jump_resumes_past_target :
  forall config tty code input n st target,
    steps n config tty code (init config input) = Some st ->
    jump_target code st = Some target ->
    ((code !! pc st = Some "["%char /\ cell st = 0%Z /\
      code !! target = Some "]"%char /\
      matching_close code (pc st) target) \/
     (code !! pc st = Some "]"%char /\ cell st <> 0%Z /\
      head (loop_stack st) = Some target /\
      code !! target = Some "["%char /\
      matching_close code target (pc st))) /\
    exists st',
      step config tty code st = Continue st' /\
      pc st' = target + 1.
Proof.
  intros config tty code input n st target Hreach Hjump.
  pose proof (reachable_loops_matched config tty code input n st Hreach)
    as Hstack.
  apply jump_target_cases in Hjump.
  destruct Hjump as [(Hfetch & Hcell & Hmatch)
                    |(Hfetch & Hcell & below & Htop)].
  - split.
    + left. split; [exact Hfetch|]. split; [exact Hcell|].
      split; [apply (matching_close_bracket code (pc st)); exact Hmatch|].
      exact Hmatch.
    + pose proof Hmatch as Hscan. apply skip_scan_matching in Hscan.
      eexists.
      split; [apply (step_open_skip _ _ _ _ Hfetch _ Hcell Hscan)|].
      reflexivity.
  - rewrite Htop in Hstack.
    destruct (loops_matched_close code (pc st) target below Hfetch Hstack)
      as [Hopen Hmatch].
    split.
    + right. rewrite Htop. split; [exact Hfetch|]. split; [exact Hcell|].
      split; [reflexivity|]. split; [exact Hopen|exact Hmatch].
    + eexists.
      split; [apply (step_close_reenter _ _ _ _ _ _ Hfetch Htop Hcell)|].
      reflexivity.
Qed.

Lemma C2_jump_resumes_witness :
  (steps 0 (small_config false false) false (list_ascii_of_string "[-]+")
     (init (small_config false false) [])
   = Some (state_at [0%Z; 0%Z; 0%Z] 0 0 [] []) /\
   jump_target (list_ascii_of_string "[-]+")
     (state_at [0%Z; 0%Z; 0%Z] 0 0 [] []) = Some 2 /\
   matching_close (list_ascii_of_string "[-]+") 0 2 /\
   exists st',
     step (small_config false false) false (list_ascii_of_string "[-]+")
       (state_at [0%Z; 0%Z; 0%Z] 0 0 [] []) = Continue st' /\
     pc st' = 2 + 1) /\
  (steps 7 (small_config false false) false
     (list_ascii_of_string "++[>+<-]")
     (init (small_config false false) [])
   = Some (state_at [1%Z; 1%Z; 0%Z] 0 7 [2] []) /\
   jump_target (list_ascii_of_string "++[>+<-]")
     (state_at [1%Z; 1%Z; 0%Z] 0 7 [2] []) = Some 2 /\
   matching_close (list_ascii_of_string "++[>+<-]") 2 7 /\
   exists st',
     step (small_config false false) false
       (list_ascii_of_string "++[>+<-]")
       (state_at [1%Z; 1%Z; 0%Z] 0 7 [2] []) = Continue st' /\
     pc st' = 2 + 1).
Proof.
  split.
  - split; [reflexivity|]. split; [reflexivity|].
    destruct (C2_jump_resumes_past_target (small_config false false) false
                (list_ascii_of_string "[-]+") [] 0
                (state_at [0%Z; 0%Z; 0%Z] 0 0 [] []) 2 eq_refl eq_refl)
      as [[(_ & _ & _ & Hmatch)|(Hfetch & _)] Hnext].
    + split; [exact Hmatch|exact Hnext].
    + discriminate Hfetch.
  - split; [reflexivity|]. split; [reflexivity|].
    destruct (C2_jump_resumes_past_target (small_config false false) false
                (list_ascii_of_string "++[>+<-]") [] 7
                (state_at [1%Z; 1%Z; 0%Z] 0 7 [2] []) 2 eq_refl eq_refl)
      as [[(Hfetch & _)|(_ & _ & _ & _ & Hmatch)] Hnext].
    + discriminate Hfetch.
    + split; [exact Hmatch|exact Hnext].
Defined.

(** C2 as stated fails, in runs from the initial state.  On [[-]+] the
    first iteration skips to the []]] at index 2 and the next iteration
    starts at 3; on [++[>+<-]] the eighth iteration, on the []]] at index
    7 with the cell at 1, jumps to the [[] at index 2 and the next
    iteration starts at 3. *)
Lemma C2_counterexample :
  ~ (forall n st,
       steps n (small_config false false) false
         (list_ascii_of_string "[-]+") (init (small_config false false) [])
       = Some st ->
       next_pc_is_target (small_config false false) false
         (list_ascii_of_string "[-]+") st) /\
  ~ (forall n st,
       steps n (small_config false false) false
         (list_ascii_of_string "++[>+<-]")
         (init (small_config false false) [])
       = Some st ->
       next_pc_is_target (small_config false false) false
         (list_ascii_of_string "++[>+<-]") st).
Proof.
  split; intros Hclaim.
  - assert (Hstep : step (small_config false false) false
                      (list_ascii_of_string "[-]+")
                      (init (small_config false false) [])
                    = Continue (state_at [0%Z; 0%Z; 0%Z] 0 3 [] []))
      by (vm_compute; reflexivity).
    specialize (Hclaim 0 _ eq_refl 2 _ eq_refl Hstep).
    discriminate Hclaim.
  - assert (Hreach : steps 7 (small_config false false) false
                       (list_ascii_of_string "++[>+<-]")
                       (init (small_config false false) [])
                     = Some (state_at [1%Z; 1%Z; 0%Z] 0 7 [2] []))
      by (vm_compute; reflexivity).
    assert (Hstep : step (small_config false false) false
                      (list_ascii_of_string "++[>+<-]")
                      (state_at [1%Z; 1%Z; 0%Z] 0 7 [2] [])
                    = Continue (state_at [1%Z; 1%Z; 0%Z] 0 3 [2] []))
      by (vm_compute; reflexivity).
    specialize (Hclaim 7 _ Hreach 2 _ eq_refl Hstep).
    discriminate Hclaim.
Qed.

(** * Further properties of the program *)

(** ** Source filtering: [clean_code] *)

(** The characters [clean_code] keeps are those the dispatcher has a
    [case] for. *)
Lemma is_command_decode c : is_command c = true <-> decode c <> IOther.
Proof.
  unfold is_command, decode.
  repeat match goal with
         | |- context [Ascii.eqb c ?k] => destruct (Ascii.eqb c k)
         end; simpl; split; intros H; try reflexivity; try discriminate;
    try (exfalso; apply H; reflexivity).
Qed.

Lemma is_command_not_nul c : is_command c = true -> c <> zero.
Proof. intros H ->. discriminate H. Qed.

Lemma clean_code_app a b :
  clean_code (a ++ b) = clean_code a ++ clean_code b.
Proof.
  induction a as [|c a IH]; simpl; [reflexivity|].
  destruct (is_command c); simpl; rewrite IH; reflexivity.
Qed.

Lemma clean_code_commands s :
  Forall (fun c => is_command c = true) (clean_code s).
Proof.
  induction s as [|c s IH]; simpl; [constructor|].
  destruct (is_command c) eqn:Hc; [constructor; assumption|exact IH].
Qed.

Lemma clean_code_fixed s :
  Forall (fun c => is_command c = true) s -> clean_code s = s.
Proof.
  induction 1 as [|c s Hc _ IH]; simpl; [reflexivity|].
  rewrite Hc, IH. reflexivity.
Qed.

Lemma clean_code_junk s :
  Forall (fun c => is_command c = false) s -> clean_code s = [].
Proof.
  induction 1 as [|c s Hc _ IH]; simpl; [reflexivity|].
  rewrite Hc, IH. reflexivity.
Qed.

Lemma c_str_no_nul s : Forall (fun c => c <> zero) s -> c_str s = s.
Proof.
  induction 1 as [|c s Hc _ IH]; simpl; [reflexivity|].
  destruct (Ascii.eqb_spec c zero); [contradiction|]. rewrite IH. reflexivity.
Qed.

Lemma clean_code_length s : length (clean_code s) <= length s.
Proof.
  induction s as [|c s IH]; simpl; [lia|].
  destruct (is_command c); simpl; lia.
Qed.

(** [clean_code] returns a subsequence of its argument that is made of the
    eight command characters only -- each of them has a [case] in the
    dispatcher -- and holds no NUL, so that it is the C string
    [execute_brainfuck] takes the length of. *)
Theorem clean_code_only_commands :
  forall s,
    sublist (clean_code s) s /\
    length (clean_code s) <= length s /\
    Forall (fun c => is_command c = true /\ decode c <> IOther /\ c <> zero)
      (clean_code s) /\
    c_str (clean_code s) = clean_code s.
Proof.
  intros s.
  assert (Hsub : sublist (clean_code s) s).
  { induction s as [|c s IH]; simpl; [constructor|].
    destruct (is_command c); [apply sublist_skip|apply sublist_cons];
      exact IH. }
  assert (Hall : Forall (fun c => is_command c = true /\
                                  decode c <> IOther /\ c <> zero)
                   (clean_code s)).
  { eapply Forall_impl; [apply clean_code_commands|].
    intros c Hc. split; [exact Hc|].
    split; [apply is_command_decode; exact Hc|].
    apply is_command_not_nul; exact Hc. }
  split; [exact Hsub|]. split; [apply sublist_length; exact Hsub|].
  split; [exact Hall|].
  apply c_str_no_nul. eapply Forall_impl; [exact Hall|].
  intros c (_ & _ & Hc). exact Hc.
Qed.

(** [clean_code] drops nothing else: it keeps every command character, in
    order.  It is the identity on a text made of command characters, it
    distributes over concatenation, a second pass changes nothing, and a
    run of other characters anywhere in the text does not change the
    result. *)
Theorem clean_code_keeps_commands :
  forall a junk b,
    Forall (fun c => is_command c = true) a ->
    Forall (fun c => is_command c = false) junk ->
    clean_code a = a /\
    clean_code junk = [] /\
    clean_code (a ++ junk ++ b) = a ++ clean_code b /\
    clean_code (b ++ junk ++ a) = clean_code b ++ a /\
    clean_code (clean_code b) = clean_code b.
Proof.
  intros a junk b Ha Hjunk.
  rewrite !clean_code_app, (clean_code_fixed a Ha),
    (clean_code_junk junk Hjunk).
  repeat split. apply clean_code_fixed, clean_code_commands.
Qed.

Lemma clean_code_keeps_commands_witness :
  Forall (fun c => is_command c = true) (list_ascii_of_string "+[-]") /\
  Forall (fun c => is_command c = false) (list_ascii_of_string " loop! ") /\
  clean_code
    (list_ascii_of_string "+[-]" ++ list_ascii_of_string " loop! " ++
     list_ascii_of_string "a,b.")
  = list_ascii_of_string "+[-]" ++ clean_code (list_ascii_of_string "a,b.").
Proof.
  assert (Ha : Forall (fun c => is_command c = true)
                 (list_ascii_of_string "+[-]"))
    by (repeat constructor).
  assert (Hj : Forall (fun c => is_command c = false)
                 (list_ascii_of_string " loop! "))
    by (repeat constructor).
  split; [exact Ha|]. split; [exact Hj|].
  exact (proj1 (proj2 (proj2
           (clean_code_keeps_commands _ _ (list_ascii_of_string "a,b.")
              Ha Hj)))).
Defined.

(** ** Start-up: the option loop and [main] *)

(** Case analysis on the argument the option loop looks at. *)
Ltac option_cases arg :=
  destruct (Ascii.eqb (char_at 0 arg) "-") eqn:?;
  [ destruct (Ascii.eqb (char_at 1 arg) "w") eqn:?;
    [ | destruct (Ascii.eqb (char_at 1 arg) "d") eqn:?;
        [ | destruct (Ascii.eqb (char_at 1 arg) "m") eqn:?;
            [ | destruct (Ascii.eqb (char_at 1 arg) "z") eqn:? ] ] ]
  | ].

Lemma default_memory_size_positive : 1 <= DEFAULT_MEMORY_SIZE.
Proof. apply Nat.leb_le. vm_compute. reflexivity. Qed.

Lemma set_memory_size_positive n config :
  1 <= memory_size (set_memory_size n config).
Proof.
  unfold set_memory_size; simpl.
  destruct (Nat.eqb_spec n 0); [apply default_memory_size_positive|lia].
Qed.

(** The option loop never leaves a tape size of 0, whatever [atoi]
    returns, and it only ever turns the three flags on. *)
Lemma parse_options_config atoi args :
  forall i config config' k,
    parse_options atoi args i config = inr (config', k) ->
    (1 <= memory_size config -> 1 <= memory_size config') /\
    (wrap_memory config = true -> wrap_memory config' = true) /\
    (debug_mode config = true -> debug_mode config' = true) /\
    (eof_behavior config = true -> eof_behavior config' = true).
Proof.
  induction args as [args IH] using (induction_ltof1 _ (@length string)).
  unfold ltof in IH.
  intros i config config' k H. destruct args as [|arg rest]; simpl in H.
  - injection H as <- <-. auto.
  - option_cases arg.
    + apply IH in H; [|simpl; lia]. simpl in H. tauto.
    + apply IH in H; [|simpl; lia]. simpl in H. tauto.
    + destruct rest as [|value rest'].
      * injection H as <- <-. auto.
      * apply IH in H; [|simpl; lia].
        pose proof (set_memory_size_positive
                      (to_unsigned_int (atoi value)) config).
        simpl in H. tauto.
    + apply IH in H; [|simpl; lia]. simpl in H. tauto.
    + discriminate.
    + injection H as <- <-. auto.
Qed.

(** Where the option loop stops: either the arguments ran out, or on an
    argument that does not start with [-], which later arguments cannot
    change. *)
Lemma parse_options_stop atoi args :
  forall i config config' k,
    parse_options atoi args i config = inr (config', k) ->
    i <= k <= i + length args /\
    (k < i + length args ->
     (exists name,
        args !! (k - i) = Some name /\ Ascii.eqb (char_at 0 name) "-" = false)
     /\
     forall more,
       parse_options atoi (args ++ more) i config = inr (config', k)).
Proof.
  induction args as [args IH] using (induction_ltof1 _ (@length string)).
  unfold ltof in IH.
  assert (Hshift : forall rest j i config config' k,
            length rest < length args -> i < j ->
            j + length rest = i + length args ->
            parse_options atoi rest j config = inr (config', k) ->
            (forall name, rest !! (k - j) = Some name ->
                          args !! (k - i) = Some name) ->
            i <= k <= i + length args /\
            (k < i + length args ->
             (exists name,
                args !! (k - i) = Some name /\
                Ascii.eqb (char_at 0 name) "-" = false) /\
             forall more,
               parse_options atoi (rest ++ more) j config = inr (config', k))).
  { intros rest j i config config' k Hlen Hij Hfit H Hget.
    destruct (IH rest Hlen _ _ _ _ H) as [Hk Hstop].
    split; [lia|]. intros Hin.
    destruct Hstop as [(name & Hname & Hdash) Hmore]; [lia|].
    split; [|exact Hmore]. exists name. split; [apply Hget|]; assumption. }
  intros i config config' k H. destruct args as [|arg rest].
  - simpl in H. injection H as <- <-. simpl. split; [lia|]. intros; lia.
  - simpl in H. simpl length.
    assert (Hrest : forall config1,
              parse_options atoi rest (i + 1) config1 = inr (config', k) ->
              i <= k <= i + S (length rest) /\
              (k < i + S (length rest) ->
               (exists name,
                  (arg :: rest) !! (k - i) = Some name /\
                  Ascii.eqb (char_at 0 name) "-" = false) /\
               forall more,
                 parse_options atoi (rest ++ more) (i + 1) config1
                   = inr (config', k))).
    { intros config1 H1.
      apply (Hshift rest (i + 1) i config1 config' k); simpl; try lia;
        [exact H1|].
      intros name Hname.
      destruct (IH rest (Nat.lt_succ_diag_r _) _ _ _ _ H1) as [Hk _].
      replace (k - i) with (S (k - (i + 1))) by lia. exact Hname. }
    option_cases arg.
    + destruct (Hrest _ H) as [Hk Hstop]. split; [exact Hk|].
      intros Hin. destruct (Hstop Hin) as [Hname Hmore].
      split; [exact Hname|]. intros more. simpl.
      rewrite Heqb, Heqb0. apply Hmore.
    + destruct (Hrest _ H) as [Hk Hstop]. split; [exact Hk|].
      intros Hin. destruct (Hstop Hin) as [Hname Hmore].
      split; [exact Hname|]. intros more. simpl.
      rewrite Heqb, Heqb0, Heqb1. apply Hmore.
    + destruct rest as [|value rest'].
      * injection H as <- <-. simpl. split; [lia|]. intros; lia.
      * destruct (Hshift rest' (i + 2) i _ config' k
                    ltac:(simpl; lia) ltac:(lia) ltac:(simpl; lia) H)
          as [Hk Hstop].
        { intros name Hname.
          destruct (IH rest' ltac:(simpl; lia) _ _ _ _ H) as [Hk _].
          replace (k - i) with (S (S (k - (i + 2)))) by lia. exact Hname. }
        split; [exact Hk|].
        intros Hin. destruct (Hstop Hin) as [Hname Hmore].
        split; [exact Hname|]. intros more. simpl.
        rewrite Heqb, Heqb0, Heqb1, Heqb2. apply Hmore.
    + destruct (Hrest _ H) as [Hk Hstop]. split; [exact Hk|].
      intros Hin. destruct (Hstop Hin) as [Hname Hmore].
      split; [exact Hname|]. intros more. simpl.
      rewrite Heqb, Heqb0, Heqb1, Heqb2, Heqb3. apply Hmore.
    + discriminate.
    + injection H as <- <-. split; [lia|]. intros _.
      split.
      * exists arg. rewrite Nat.sub_diag. split; [reflexivity|assumption].
      * intros more. simpl. rewrite Heqb. reflexivity.
Qed.

Lemma c_str_length s : length (c_str s) <= length s.
Proof.
  induction s as [|c s IH]; simpl; [lia|].
  destruct (Ascii.eqb c zero); simpl; lia.
Qed.

(** What [main_setup] did when it got as far as the engine. *)
Lemma main_setup_ready atoi argv fopen code config :
  main_setup atoi argv fopen = Ready code config ->
  exists k name content,
    2 <= length argv /\
    parse_options atoi (drop 1 argv) 1 default_config = inr (config, k) /\
    argv !! k = Some name /\
    fopen name = Some content /\
    code = clean_code (c_str (take (MAX_PROGRAM_SIZE - 1) content)).
Proof.
  unfold main_setup. destruct (Nat.ltb_spec (length argv) 2); [discriminate|].
  destruct (parse_options atoi (drop 1 argv) 1 default_config)
    as [arg|[config' k]] eqn:Hparse; [discriminate|].
  destruct (argv !! k) as [name|] eqn:Hname; [|discriminate].
  destruct (fopen name) as [content|] eqn:Hopen; [|discriminate].
  remember (clean_code (c_str (take (MAX_PROGRAM_SIZE - 1) content)))
    as cleaned eqn:Hcleaned.
  intros [= <- <-]. exists k, name, content.
  split; [assumption|].
  do 3 (split; [first [reflexivity|assumption]|]). exact Hcleaned.
Qed.

(** Bounds are kept by every way an iteration can end. *)
Lemma step_result_tape_ok config tty code st :
  tape_ok config st ->
  match step config tty code st with
  | Continue st' | Finished st' | Abort _ st' => tape_ok config st'
  end.
Proof.
  intros Hok. destruct (step config tty code st) as [st'|st'|e st'] eqn:Hstep.
  - apply (step_tape_ok _ _ _ _ _ Hok Hstep).
  - unfold step in Hstep. destruct (code !! pc st); [|congruence].
    destruct (exec_instr _ _ _ _ _); discriminate.
  - unfold step in Hstep. destruct (code !! pc st) as [c|]; [|discriminate].
    assert (Hhook : tape_ok config (debug_hook config c st))
      by (unfold tape_ok; autorewrite with hook; exact Hok).
    revert Hstep. generalize dependent (debug_hook config c st).
    intros s Hs. unfold exec_instr.
    destruct (decode c); try discriminate.
    + destruct (move_right config (ptr s)); [discriminate|].
      intros [= <- <-]. exact Hs.
    + destruct (move_left config (ptr s)); [discriminate|].
      intros [= <- <-]. exact Hs.
    + unfold exec_open. destruct (cell s =? 0)%Z.
      * destruct (skip_scan _ _ _); [discriminate|].
        intros [= <- <-]. exact Hs.
      * destruct (MAX_NESTED_LOOPS <=? _); [|discriminate].
        intros [= <- <-]. exact Hs.
    + unfold exec_close. destruct (loop_stack s).
      * intros [= <- <-]. exact Hs.
      * destruct (negb _); discriminate.
Qed.

Lemma run_tape_ok config tty code fuel :
  forall st,
    tape_ok config st ->
    tape_ok config (result_state (run fuel config tty code st)).
Proof.
  induction fuel as [|fuel IH]; intros st Hok; simpl; [exact Hok|].
  pose proof (step_result_tape_ok config tty code st Hok) as Hstep.
  destruct (step config tty code st); simpl; auto.
Qed.

(** The engine is memory safe: on a tape of at least one cell, in every
    state a run goes through and in the state it stops in -- completed,
    aborted or out of fuel -- the tape has its [memory_size] cells, the data
    pointer is on the tape and the loop stack holds at most
    [MAX_NESTED_LOOPS] entries. *)
Theorem engine_keeps_bounds :
  forall config tty code input,
    1 <= memory_size config ->
    (forall n st,
       steps n config tty code (init config input) = Some st ->
       tape_ok config st /\ is_Some (memory st !! ptr st)) /\
    (forall fuel,
       tape_ok config
         (result_state (run fuel config tty code (init config input)))).
Proof.
  intros config tty code input Hsize. split.
  - intros n st Hsteps.
    pose proof (reachable_tape_ok config tty code input n Hsize st Hsteps)
      as Hok.
    split; [exact Hok|]. destruct Hok as (Hlen & Hptr & _).
    apply lookup_lt_is_Some. lia.
  - intros fuel. apply run_tape_ok, init_tape_ok, Hsize.
Qed.

Lemma engine_keeps_bounds_witness :
  1 <= memory_size (small_config true false) /\
  tape_ok (small_config true false)
    (result_state
       (run 50 (small_config true false) false
          (list_ascii_of_string "+[>+]") (init (small_config true false) []))).
Proof.
  assert (H : 1 <= memory_size (small_config true false)) by (simpl; lia).
  split; [exact H|].
  exact (proj2 (engine_keeps_bounds (small_config true false) false
                  (list_ascii_of_string "+[>+]") [] H) 50).
Defined.

(** [main] never starts the engine on an empty tape or on anything but
    command characters: when [main_setup] reaches the engine, whatever
    [atoi] returned for [-m], the tape has at least one cell, the code is
    made of command characters only and is shorter than
    [MAX_PROGRAM_SIZE], and every run of the engine on them keeps the
    bounds. *)
Theorem main_starts_engine_safely :
  forall atoi argv fopen code config,
    main_setup atoi argv fopen = Ready code config ->
    1 <= memory_size config /\
    Forall (fun c => decode c <> IOther) code /\
    length code <= MAX_PROGRAM_SIZE - 1 /\
    forall tty input fuel,
      tape_ok config
        (result_state (run fuel config tty code (init config input))).
Proof.
  intros atoi argv fopen code config Hready.
  destruct (main_setup_ready _ _ _ _ _ Hready)
    as (k & name & content & _ & Hparse & _ & _ & ->).
  assert (Hsize : 1 <= memory_size config).
  { apply (parse_options_config _ _ _ _ _ _ Hparse).
    apply default_memory_size_positive. }
  split; [exact Hsize|]. split; [|split].
  - eapply Forall_impl; [apply clean_code_commands|].
    intros c Hc. apply is_command_decode. exact Hc.
  - pose proof (clean_code_length
                  (c_str (take (MAX_PROGRAM_SIZE - 1) content))) as Hlen.
    pose proof (c_str_length (take (MAX_PROGRAM_SIZE - 1) content)).
    rewrite length_take in *. lia.
  - intros tty input fuel. apply run_tape_ok, init_tape_ok, Hsize.
Qed.

Lemma main_starts_engine_safely_witness :
  main_setup atoi_c ["bf"; "-w"; "-m"; "5"; "prog.bf"; "ignored"]%string
    (fun name =>
       if String.eqb name "prog.bf"
       then Some (list_ascii_of_string "+ [ - ] done")
       else None)
  = Ready (list_ascii_of_string "+[-]")
      {| wrap_memory := true; debug_mode := false; memory_size := 5;
         eof_behavior := false |} /\
  1 <= 5 /\
  Forall (fun c => decode c <> IOther) (list_ascii_of_string "+[-]").
Proof.
  assert (H : main_setup atoi_c
                ["bf"; "-w"; "-m"; "5"; "prog.bf"; "ignored"]%string
                (fun name =>
                   if String.eqb name "prog.bf"
                   then Some (list_ascii_of_string "+ [ - ] done")
                   else None)
              = Ready (list_ascii_of_string "+[-]")
                  {| wrap_memory := true; debug_mode := false;
                     memory_size := 5; eof_behavior := false |})
    by (vm_compute; reflexivity).
  split; [exact H|].
  destruct (main_starts_engine_safely _ _ _ _ _ H) as (Hsize & Hcode & _).
  split; [exact Hsize|exact Hcode].
Defined.



(** ** Output *)

Lemma decode_out c : decode c = IOut <-> c = "."%char.
Proof.
  split; [|intros ->; reflexivity]. unfold decode.
  repeat match goal with
         | |- context [Ascii.eqb c ?k] =>
             destruct (Ascii.eqb_spec c k); [try discriminate|]
         end; [intros _; assumption|discriminate].
Qed.

Lemma exec_input_output config tty st :
  output_bytes (stdout (exec_input config tty st)) = output_bytes (stdout st).
Proof. unfold exec_input. rewrite deliver_stdout. apply refill_output. Qed.

(** What the [switch] adds to the output: the current cell on [.], and
    nothing otherwise. *)
Lemma exec_instr_output config tty code c st :
  output_bytes (stdout
    match exec_instr config tty code c st with Ok s | Err _ s => s end)
  = output_bytes (stdout st) ++
    (if Ascii.eqb c "." then [cell st] else []).
Proof.
  unfold exec_instr. destruct (decode c) eqn:Hc.
  all: try (apply decode_out in Hc; subst c; simpl;
            rewrite output_bytes_app; reflexivity).
  all: assert (Hdot : Ascii.eqb c "." = false)
         by (destruct (Ascii.eqb_spec c "."); [subst c; discriminate|
             reflexivity]);
       rewrite Hdot, app_nil_r.
  - destruct (move_right config (ptr st)); reflexivity.
  - destruct (move_left config (ptr st)); reflexivity.
  - reflexivity.
  - reflexivity.
  - apply exec_input_output.
  - unfold exec_open. destruct (cell st =? 0)%Z.
    + destruct (skip_scan _ _ _); reflexivity.
    + destruct (MAX_NESTED_LOOPS <=? _); reflexivity.
  - unfold exec_close. destruct (loop_stack st); [reflexivity|].
    destruct (negb _); reflexivity.
  - reflexivity.
Qed.

Lemma step_output config tty code st :
  output_bytes (stdout (outcome_state (step config tty code st)))
  = output_bytes (stdout st) ++
    match code !! pc st with
    | Some c => if Ascii.eqb c "." then [cell st] else []
    | None => []
    end.
Proof.
  unfold step. destruct (code !! pc st) as [c|];
    [|simpl; rewrite app_nil_r; reflexivity].
  pose proof (exec_instr_output config tty code c (debug_hook config c st))
    as H.
  autorewrite with hook in H.
  destruct (exec_instr config tty code c (debug_hook config c st));
    exact H.
Qed.

(** The output is written once and for all, by [.] alone: an iteration
    appends the current cell to the output bytes when it executes [.] and
    leaves them as they are otherwise, also when it ends the run; so the
    output bytes of any state are a prefix of those of every later state. *)
Theorem output_only_grows :
  forall config tty code st,
    output_bytes (stdout (outcome_state (step config tty code st)))
    = output_bytes (stdout st) ++
      match code !! pc st with
      | Some c => if Ascii.eqb c "." then [cell st] else []
      | None => []
      end /\
    forall fuel,
      output_bytes (stdout st) `prefix_of`
      output_bytes (stdout (result_state (run fuel config tty code st))).
Proof.
  intros config tty code st. split; [apply step_output|].
  intros fuel. revert st. induction fuel as [|fuel IH]; intros st; simpl.
  - reflexivity.
  - pose proof (step_output config tty code st) as Hstep.
    destruct (step config tty code st) as [st'|st'|e st']; simpl in *.
    + etransitivity; [|apply IH]. rewrite Hstep. apply prefix_app_r.
      reflexivity.
    + rewrite Hstep. apply prefix_app_r. reflexivity.
    + rewrite Hstep. apply prefix_app_r. reflexivity.
Qed.

(** ** The loop stack holds positions of opening brackets *)

Lemma loops_ok_weaken code bound bound' s :
  bound <= bound' -> loops_ok code bound s -> loops_ok code bound' s.
Proof.
  destruct s as [|top below]; simpl; [auto|].
  intros Hle (Htop & Hopen & Hbelow). split; [lia|]. split; assumption.
Qed.

Lemma exec_instr_loops_ok config tty code c st st' :
  code !! pc st = Some c ->
  loops_ok code (pc st) (loop_stack st) ->
  exec_instr config tty code c st = Ok st' ->
  pc st' < length code /\ loops_ok code (pc st' + 1) (loop_stack st').
Proof.
  intros Hfetch Hok. pose proof (lookup_lt_Some _ _ _ Hfetch) as Hpc.
  assert (Hsame : pc st < length code /\
                  loops_ok code (pc st + 1) (loop_stack st))
    by (split; [exact Hpc|apply (loops_ok_weaken _ (pc st)); [lia|exact Hok]]).
  unfold exec_instr. destruct (decode c) eqn:Hc.
  - destruct (move_right config (ptr st)); intros [= <-]; exact Hsame.
  - destruct (move_left config (ptr st)); intros [= <-]; exact Hsame.
  - intros [= <-]; exact Hsame.
  - intros [= <-]; exact Hsame.
  - intros [= <-]; exact Hsame.
  - intros [= <-]. unfold exec_input.
    rewrite deliver_pc, deliver_loop_stack, refill_pc, refill_loop_stack.
    exact Hsame.
  - apply decode_open in Hc. subst c. unfold exec_open.
    destruct (cell st =? 0)%Z.
    + destruct (skip_scan _ _ _) as [m|e] eqn:Hscan; intros [= <-].
      destruct (skip_scan_inl _ _ _ _ Nat.lt_0_1 Hscan)
        as (j & -> & Hj & _).
      rewrite length_drop in Hj. simpl. split; [lia|].
      apply (loops_ok_weaken _ (pc st)); [lia|exact Hok].
    + destruct (MAX_NESTED_LOOPS <=? _); intros [= <-]. simpl.
      split; [exact Hpc|]. split; [lia|]. split; [exact Hfetch|exact Hok].
  - unfold exec_close. destruct (loop_stack st) as [|top below] eqn:Hstack;
      [discriminate|].
    destruct Hok as (Htop & Hopen & Hbelow).
    destruct (negb _); intros [= <-]; simpl; rewrite ?Hstack.
    + split; [apply (lookup_lt_Some _ _ _ Hopen)|].
      simpl. split; [lia|]. split; assumption.
    + split; [exact Hpc|].
      apply (loops_ok_weaken _ top); [lia|exact Hbelow].
  - intros [= <-]; exact Hsame.
Qed.

Lemma step_loops_ok config tty code st st' :
  loops_ok code (pc st) (loop_stack st) ->
  step config tty code st = Continue st' ->
  pc st' <= length code /\ loops_ok code (pc st') (loop_stack st').
Proof.
  intros Hok. unfold step. destruct (code !! pc st) as [c|] eqn:Hfetch;
    [|discriminate].
  destruct (exec_instr config tty code c (debug_hook config c st))
    as [s|e s] eqn:Hexec; [|discriminate].
  intros [= <-]. simpl.
  destruct (exec_instr_loops_ok config tty code c (debug_hook config c st) s)
    as [Hpc Hloops]; [autorewrite with hook; assumption..|exact Hexec|].
  split; [lia|exact Hloops].
Qed.

(** In every state a run goes through, the counter is at most the length of
    the code and the loop stack holds positions of [[] that lie before the
    counter, each deeper entry before the one above it.  So the jump of a
    []]] goes backwards, to the instruction that follows a [[]. *)
Theorem loop_stack_holds_open_brackets :
  forall config tty code input n st,
    steps n config tty code (init config input) = Some st ->
    pc st <= length code /\
    loops_ok code (pc st) (loop_stack st) /\
    (forall top below,
       loop_stack st = top :: below ->
       top < pc st /\ code !! top = Some "["%char /\
       Forall (fun p => p < top /\ code !! p = Some "["%char) below).
Proof.
  intros config tty code input n st Hsteps.
  assert (Hgen : forall k s s',
            pc s <= length code /\ loops_ok code (pc s) (loop_stack s) ->
            steps k config tty code s = Some s' ->
            pc s' <= length code /\ loops_ok code (pc s') (loop_stack s')).
  { induction k as [|k IH]; intros s s' Hs Hk; simpl in Hk.
    - injection Hk as <-. exact Hs.
    - destruct (step config tty code s) as [s1| |] eqn:Hstep;
        [|discriminate..].
      apply (IH s1 s'); [|exact Hk].
      apply (step_loops_ok _ _ _ _ _ (proj2 Hs) Hstep). }
  destruct (Hgen n (init config input) st) as [Hpc Hloops];
    [split; [simpl; lia|exact I]|exact Hsteps|].
  split; [exact Hpc|]. split; [exact Hloops|].
  intros top below Hstack. rewrite Hstack in Hloops.
  destruct Hloops as (Htop & Hopen & Hbelow).
  split; [exact Htop|]. split; [exact Hopen|].
  clear Hstack Htop Hopen. revert top Hbelow.
  induction below as [|p below IH]; intros top Hbelow; [constructor|].
  destruct Hbelow as (Hp & Hopen & Hbelow). constructor; [auto|].
  eapply Forall_impl; [apply (IH p Hbelow)|].
  intros q [Hq Hq']. split; [lia|exact Hq'].
Qed.

Lemma loop_stack_holds_open_brackets_witness :
  steps 6 (small_config false false) false (list_ascii_of_string "+[[-]+]")
    (init (small_config false false) [])
  = Some (state_at [1%Z; 0%Z; 0%Z] 0 6 [1] []) /\
  6 <= length (list_ascii_of_string "+[[-]+]") /\
  1 < 6 /\
  list_ascii_of_string "+[[-]+]" !! 1 = Some "["%char.
Proof.
  assert (H : steps 6 (small_config false false) false
                (list_ascii_of_string "+[[-]+]")
                (init (small_config false false) [])
              = Some (state_at [1%Z; 0%Z; 0%Z] 0 6 [1] []))
    by (vm_compute; reflexivity).
  split; [exact H|].
  destruct (loop_stack_holds_open_brackets _ _ _ _ _ _ H)
    as (Hpc & _ & Htop).
  split; [exact Hpc|].
  destruct (Htop 1 [] eq_refl) as (Hlt & Hopen & _).
  split; [exact Hlt|exact Hopen].
Defined.

(** ** Nesting depth *)

Lemma run_steps config tty code k :
  forall st st' fuel,
    steps k config tty code st = Some st' ->
    run (k + fuel) config tty code st = run fuel config tty code st'.
Proof.
  induction k as [|k IH]; intros st st' fuel H; simpl in H.
  - injection H as <-. reflexivity.
  - simpl. destruct (step config tty code st); [|discriminate..].
    apply IH. exact H.
Qed.

Lemma steps_app config tty code k1 k2 st st1 st2 :
  steps k1 config tty code st = Some st1 ->
  steps k2 config tty code st1 = Some st2 ->
  steps (k1 + k2) config tty code st = Some st2.
Proof.
  revert st. induction k1 as [|k1 IH]; intros st H1 H2; simpl in H1.
  - injection H1 as <-. exact H2.
  - simpl. destruct (step config tty code st); [|discriminate..].
    apply IH; assumption.
Qed.

Lemma cell_after_store st v :
  ptr st < length (memory st) -> cell (store v st) = v.
Proof.
  intros H. unfold cell, store. simpl.
  rewrite list_lookup_insert_eq by exact H. reflexivity.
Qed.

Lemma loop_start_pushes_or_overflows_aux config tty code st :
  code !! pc st = Some "["%char ->
  cell st <> 0%Z ->
  (length (loop_stack st) < MAX_NESTED_LOOPS ->
   step config tty code st =
     Continue (set_pc (pc st + 1)
                 (set_loop_stack (pc st :: loop_stack st)
                    (debug_hook config "[" st)))) /\
  (MAX_NESTED_LOOPS <= length (loop_stack st) ->
   exists st',
     step config tty code st = Abort LoopStackOverflow st' /\
     st' = debug_hook config "[" st /\
     loop_stack st' = loop_stack st /\
     pc st' = pc st /\
     output_bytes (stdout st') = output_bytes (stdout st)).
Proof.
  intros Hfetch Hcell. split; intros Hroom.
  - apply step_open_push; assumption.
  - exists (debug_hook config "[" st). split.
    + rewrite (step_fetch _ _ _ _ _ Hfetch). dispatch. unfold exec_open.
      autorewrite with hook.
      destruct (Z.eqb_spec (cell st) 0) as [|_]; [contradiction|].
      destruct (Nat.leb_spec MAX_NESTED_LOOPS (length (loop_stack st)));
        [reflexivity|lia].
    + autorewrite with hook. repeat split.
Qed.

(** [[] on a non-zero cell records its own position on the loop stack and
    goes on, as long as the stack holds fewer than [MAX_NESTED_LOOPS]
    entries; on a full stack it ends the run with [LoopStackOverflow],
    leaving tape, stack and counter as they were. *)
Theorem loop_start_pushes_or_overflows :
  forall config tty code st,
    code !! pc st = Some "["%char ->
    cell st <> 0%Z ->
    (length (loop_stack st) < MAX_NESTED_LOOPS ->
     exists st',
       step config tty code st = Continue st' /\
       loop_stack st' = pc st :: loop_stack st /\
       pc st' = pc st + 1 /\
       memory st' = memory st /\ ptr st' = ptr st) /\
    (MAX_NESTED_LOOPS <= length (loop_stack st) ->
     exists st',
       step config tty code st = Abort LoopStackOverflow st' /\
       (forall fuel,
          run (S fuel) config tty code st = Aborted LoopStackOverflow st') /\
       loop_stack st' = loop_stack st /\
       pc st' = pc st /\
       memory st' = memory st /\ ptr st' = ptr st).
Proof.
  intros config tty code st Hfetch Hcell. split; intros Hroom.
  - eexists. split; [apply step_open_push; assumption|].
    simpl. autorewrite with hook. repeat split.
  - destruct (proj2 (loop_start_pushes_or_overflows_aux config tty code st
                       Hfetch Hcell) Hroom)
      as (st0 & Hstep & -> & _).
    eexists. split; [exact Hstep|].
    split; [intros fuel; apply run_abort; exact Hstep|].
    autorewrite with hook. repeat split.
Qed.

Lemma loop_start_pushes_or_overflows_witness :
  list_ascii_of_string "+[" !! pc (state_at [1%Z; 0%Z; 0%Z] 0 1 [] [])
    = Some "["%char /\
  cell (state_at [1%Z; 0%Z; 0%Z] 0 1 [] []) <> 0%Z /\
  length (loop_stack (state_at [1%Z; 0%Z; 0%Z] 0 1 [] []))
    < MAX_NESTED_LOOPS /\
  (exists st',
     step (small_config false false) false (list_ascii_of_string "+[")
       (state_at [1%Z; 0%Z; 0%Z] 0 1 [] []) = Continue st' /\
     loop_stack st' = [1]) /\
  MAX_NESTED_LOOPS
    <= length (loop_stack
                 (state_at [1%Z; 0%Z; 0%Z] 0 1 (replicate MAX_NESTED_LOOPS 0)
                    [])) /\
  (exists st',
     step (small_config false false) false (list_ascii_of_string "+[")
       (state_at [1%Z; 0%Z; 0%Z] 0 1 (replicate MAX_NESTED_LOOPS 0) [])
     = Abort LoopStackOverflow st' /\
     pc st' = 1).
Proof.
  assert (Hcell : cell (state_at [1%Z; 0%Z; 0%Z] 0 1 [] []) <> 0%Z)
    by (vm_compute; discriminate).
  assert (Hroom : length (loop_stack (state_at [1%Z; 0%Z; 0%Z] 0 1 [] []))
                  < MAX_NESTED_LOOPS)
    by (apply Nat.ltb_lt; vm_compute; reflexivity).
  assert (Hfull : MAX_NESTED_LOOPS
                  <= length (loop_stack
                               (state_at [1%Z; 0%Z; 0%Z] 0 1
                                  (replicate MAX_NESTED_LOOPS 0) [])))
    by (unfold state_at; cbn [loop_stack]; rewrite length_replicate;
        reflexivity).
  split; [reflexivity|]. split; [exact Hcell|]. split; [exact Hroom|].
  split.
  - destruct (proj1 (loop_start_pushes_or_overflows
                       (small_config false false) false
                       (list_ascii_of_string "+[")
                       (state_at [1%Z; 0%Z; 0%Z] 0 1 [] []) eq_refl Hcell)
                Hroom)
      as (st' & Hstep & Hstack & _).
    exists st'. split; [exact Hstep|exact Hstack].
  - split; [exact Hfull|].
    destruct (proj2 (loop_start_pushes_or_overflows
                       (small_config false false) false
                       (list_ascii_of_string "+[")
                       (state_at [1%Z; 0%Z; 0%Z] 0 1
                          (replicate MAX_NESTED_LOOPS 0) [])
                       eq_refl Hcell) Hfull)
      as (st' & Hstep & _ & _ & Hpc & _).
    exists st'. split; [exact Hstep|exact Hpc].
Defined.

Lemma nested_opens_lookup n j :
  j < n -> nested_opens n !! (1 + j) = Some "["%char.
Proof. intros H. simpl. apply lookup_replicate_2. exact H. Qed.

Lemma nested_opens_pushes config tty n k :
  forall j st,
    pc st = 1 + j ->
    length (loop_stack st) = j ->
    cell st <> 0%Z ->
    j + k <= n ->
    j + k <= MAX_NESTED_LOOPS ->
    exists st',
      steps k config tty (nested_opens n) st = Some st' /\
      pc st' = 1 + j + k /\
      length (loop_stack st') = j + k /\
      cell st' = cell st /\
      output_bytes (stdout st') = output_bytes (stdout st).
Proof.
  induction k as [|k IH]; intros j st Hpc Hlen Hcell Hn Hmax.
  - exists st. repeat split; simpl; lia.
  - assert (Hfetch : nested_opens n !! pc st = Some "["%char)
      by (rewrite Hpc; apply nested_opens_lookup; lia).
    pose proof (step_open_push config tty (nested_opens n) st Hfetch Hcell
                  ltac:(lia)) as Hstep.
    destruct (IH (S j) (set_pc (pc st + 1)
                          (set_loop_stack (pc st :: loop_stack st)
                             (debug_hook config "[" st))))
      as (st' & Hsteps & Hpc' & Hlen' & Hcell' & Hout');
      [simpl; lia|simpl; autorewrite with hook; lia
      |unfold cell; simpl; autorewrite with hook; exact Hcell|lia|lia|].
    exists st'. simpl. rewrite Hstep.
    split; [exact Hsteps|]. split; [lia|]. split; [lia|].
    split.
    + rewrite Hcell'. unfold cell. simpl. autorewrite with hook. reflexivity.
    + rewrite Hout'. simpl. autorewrite with hook. reflexivity.
Qed.

Lemma nested_opens_first config tty n input :
  1 <= memory_size config ->
  exists st,
    steps 1 config tty (nested_opens n) (init config input) = Some st /\
    pc st = 1 /\ loop_stack st = [] /\ cell st = 1%Z /\
    output_bytes (stdout st) = [].
Proof.
  intros Hsize.
  pose proof (step_inc config tty (nested_opens n) (init config input)
                eq_refl) as Hstep.
  eexists. split; [unfold steps; rewrite Hstep; reflexivity|].
  split; [reflexivity|]. split.
  { simpl. autorewrite with hook. reflexivity. }
  split.
  - change (cell (store (cell_inc (cell (init config input)))
                    (debug_hook config "+" (init config input))) = 1%Z).
    rewrite cell_after_store.
    + unfold cell, init. simpl.
      rewrite lookup_replicate_2 by lia. reflexivity.
    + autorewrite with hook. simpl. rewrite length_replicate. lia.
  - simpl. autorewrite with hook. reflexivity.
Qed.

(** Loops left open are counted, not fatal, up to the capacity of the loop
    stack.  On a tape of at least one cell the program [+] followed by [n]
    opening brackets runs to completion with [n] unclosed loops and no
    output when [n] is at most [MAX_NESTED_LOOPS]; when [n] is larger the
    run ends with [LoopStackOverflow] on the bracket at index
    [MAX_NESTED_LOOPS + 1], the stack being full. *)
Theorem nested_opens_run :
  forall config tty input n,
    1 <= memory_size config ->
    (n <= MAX_NESTED_LOOPS ->
     exists st,
       run_returns config tty (nested_opens n) (init config input)
         (Completed st) /\
       unclosed_loops st = n /\
       output_bytes (stdout st) = []) /\
    (MAX_NESTED_LOOPS < n ->
     exists st,
       run_returns config tty (nested_opens n) (init config input)
         (Aborted LoopStackOverflow st) /\
       pc st = MAX_NESTED_LOOPS + 1 /\
       length (loop_stack st) = MAX_NESTED_LOOPS /\
       output_bytes (stdout st) = []).
Proof.
  intros config tty input n Hsize.
  destruct (nested_opens_first config tty n input Hsize)
    as (st1 & Hfirst & Hpc1 & Hstack1 & Hcell1 & Hout1).
  assert (Hnz : cell st1 <> 0%Z) by (rewrite Hcell1; discriminate).
  split; intros Hn.
  - destruct (nested_opens_pushes config tty n n 0 st1)
      as (st & Hsteps & Hpc & Hlen & _ & Hout);
      [exact Hpc1|rewrite Hstack1; reflexivity|exact Hnz|lia|lia|].
    exists st. split; [|split; [exact Hlen|congruence]].
    exists (1 + n + 1). intros extra.
    replace (1 + n + 1 + extra) with (1 + n + S extra) by lia.
    rewrite (run_steps _ _ _ _ _ _ _
               (steps_app _ _ _ _ _ _ _ _ Hfirst Hsteps)).
    simpl. rewrite step_finished; [reflexivity|].
    unfold nested_opens. simpl. rewrite length_replicate. lia.
  - destruct (nested_opens_pushes config tty n MAX_NESTED_LOOPS 0 st1)
      as (st & Hsteps & Hpc & Hlen & Hcell & Hout);
      [exact Hpc1|rewrite Hstack1; reflexivity|exact Hnz|lia|lia|].
    assert (Hfetch : nested_opens n !! pc st = Some "["%char)
      by (rewrite Hpc; apply nested_opens_lookup; lia).
    destruct (proj2 (loop_start_pushes_or_overflows_aux config tty
                       (nested_opens n) st Hfetch
                       ltac:(rewrite Hcell; exact Hnz)) ltac:(lia))
      as (st' & Hstep & _ & Hstack' & Hpc' & Hout').
    exists st'.
    split; [|split; [lia|split; [rewrite Hstack'; lia|congruence]]].
    exists (1 + MAX_NESTED_LOOPS + 1). intros extra.
    replace (1 + MAX_NESTED_LOOPS + 1 + extra)
      with (1 + MAX_NESTED_LOOPS + S extra) by lia.
    rewrite (run_steps _ _ _ _ _ _ _
               (steps_app _ _ _ _ _ _ _ _ Hfirst Hsteps)).
    apply run_abort. exact Hstep.
Qed.

Lemma nested_opens_run_witness :
  1 <= memory_size (small_config false false) /\
  2 <= MAX_NESTED_LOOPS /\
  (exists st,
     run_returns (small_config false false) false (nested_opens 2)
       (init (small_config false false) []) (Completed st) /\
     unclosed_loops st = 2) /\
  MAX_NESTED_LOOPS < 1001 /\
  (exists st,
     run_returns (small_config false false) false (nested_opens 1001)
       (init (small_config false false) [])
       (Aborted LoopStackOverflow st) /\
     pc st = MAX_NESTED_LOOPS + 1).
Proof.
  assert (Hsize : 1 <= memory_size (small_config false false))
    by (simpl; lia).
  assert (Hfew : 2 <= MAX_NESTED_LOOPS)
    by (apply Nat.leb_le; vm_compute; reflexivity).
  assert (Hmany : MAX_NESTED_LOOPS < 1001)
    by (apply Nat.ltb_lt; vm_compute; reflexivity).
  split; [exact Hsize|]. split; [exact Hfew|]. split.
  - destruct (proj1 (nested_opens_run (small_config false false) false []
                       2 Hsize) Hfew)
      as (st & Hrun & Hcount & _).
    exists st. split; [exact Hrun|exact Hcount].
  - split; [exact Hmany|].
    destruct (proj2 (nested_opens_run (small_config false false) false []
                       1001 Hsize) Hmany)
      as (st & Hrun & Hpc & _).
    exists st. split; [exact Hrun|exact Hpc].
Defined.

(** ** The debug dump *)

(** With the debug hook on, each iteration first writes one dump and
    changes nothing else.  The dump shows the counter, the instruction, the
    pointer index and the cells of the window of radius 10 around the
    pointer, cut at both ends of the tape: the window holds at most 21
    cells, all on the tape, and the cell under the pointer among them. *)
Theorem debug_dump_window :
  forall config c st,
    debug_mode config = true ->
    tape_ok config st ->
    exists first last cells,
      stdout (debug_hook config c st)
        = stdout st ++ [EvDebug (pc st) c first last (ptr st) cells] /\
      quiet (debug_hook config c st) = quiet st /\
      first = ptr st - 10 /\
      last = Nat.min (ptr st + 10) (memory_size config - 1) /\
      first <= ptr st <= last /\
      last < memory_size config /\
      length cells = last + 1 - first /\
      length cells <= 21 /\
      (forall i, first <= i <= last -> cells !! (i - first) = memory st !! i) /\
      cells !! (ptr st - first) = Some (cell st).
Proof.
  intros config c st Hdebug (Hlen & Hptr & _).
  unfold debug_hook, print_debug_state. rewrite Hdebug.
  set (first := if 10 <? ptr st then ptr st - 10 else 0).
  set (last := if ptr st + 10 <? memory_size config then ptr st + 10
               else memory_size config - 1).
  assert (Hfirst : first = ptr st - 10)
    by (unfold first; destruct (Nat.ltb_spec 10 (ptr st)); lia).
  assert (Hlast : last = Nat.min (ptr st + 10) (memory_size config - 1))
    by (unfold last;
        destruct (Nat.ltb_spec (ptr st + 10) (memory_size config)); lia).
  assert (Hget : forall i, first <= i <= last ->
            take (last + 1 - first) (drop first (memory st)) !! (i - first)
            = memory st !! i).
  { intros i Hi. rewrite lookup_take_lt by lia. rewrite lookup_drop.
    f_equal. lia. }
  exists first, last, (take (last + 1 - first) (drop first (memory st))).
  split; [reflexivity|]. split.
  { unfold quiet. simpl. rewrite output_bytes_app. simpl.
    rewrite app_nil_r. reflexivity. }
  split; [exact Hfirst|]. split; [exact Hlast|].
  split; [lia|]. split; [lia|].
  split; [rewrite length_take, length_drop; lia|].
  split; [rewrite length_take, length_drop; lia|].
  split; [exact Hget|].
  rewrite Hget by lia. unfold cell.
  destruct (lookup_lt_is_Some_2 (memory st) (ptr st) ltac:(lia)) as [v Hv].
  rewrite Hv. reflexivity.
Qed.

Lemma debug_dump_window_witness :
  debug_mode
    {| wrap_memory := false; debug_mode := true; memory_size := 3;
       eof_behavior := false |} = true /\
  tape_ok
    {| wrap_memory := false; debug_mode := true; memory_size := 3;
       eof_behavior := false |}
    (state_at [4%Z; 5%Z; 6%Z] 2 0 [] []) /\
  exists first last cells,
    stdout
      (debug_hook
         {| wrap_memory := false; debug_mode := true; memory_size := 3;
            eof_behavior := false |}
         "+" (state_at [4%Z; 5%Z; 6%Z] 2 0 [] []))
      = [] ++ [EvDebug 0 "+" first last 2 cells] /\
    first = 2 - 10 /\ last = Nat.min (2 + 10) (3 - 1) /\
    cells !! (2 - first) = Some 6%Z.
Proof.
  assert (Hok : tape_ok
                  {| wrap_memory := false; debug_mode := true;
                     memory_size := 3; eof_behavior := false |}
                  (state_at [4%Z; 5%Z; 6%Z] 2 0 [] []))
    by (unfold tape_ok, MAX_NESTED_LOOPS; simpl; lia).
  split; [reflexivity|]. split; [exact Hok|].
  destruct (debug_dump_window
              {| wrap_memory := false; debug_mode := true; memory_size := 3;
                 eof_behavior := false |}
              "+"%char _ eq_refl Hok)
    as (first & last & cells & Hout & _ & Hfirst & Hlast & _ & _ & _ & _ & _
        & Hcell).
  exists first, last, cells.
  split; [exact Hout|]. split; [exact Hfirst|]. split; [exact Hlast|].
  exact Hcell.
Defined.

(** ** Debug mode and prompts do not influence the run *)

Lemma output_bytes_puts l : output_bytes (map EvPut l) = l.
Proof. induction l as [|b l IH]; simpl; [|rewrite IH]; reflexivity. Qed.

Lemma quiet_emit_put b st :
  quiet (emit (EvPut b) st) = emit (EvPut b) (quiet st).
Proof.
  unfold quiet, emit. simpl. rewrite output_bytes_app, map_app. reflexivity.
Qed.

Lemma quiet_emit_prompt st : quiet (emit EvPrompt st) = quiet st.
Proof.
  unfold quiet, emit. simpl. rewrite output_bytes_app. simpl.
  rewrite app_nil_r. reflexivity.
Qed.

Lemma quiet_debug_hook config c st : quiet (debug_hook config c st) = quiet st.
Proof.
  unfold debug_hook, print_debug_state. destruct (debug_mode config);
    [|reflexivity].
  unfold quiet, emit. simpl. rewrite output_bytes_app. simpl.
  rewrite app_nil_r. reflexivity.
Qed.

Lemma quiet_refill tty st : refill false (quiet st) = quiet (refill tty st).
Proof.
  unfold refill. cbn [input_size input_pos quiet].
  destruct (input_size st <=? input_pos st); [|reflexivity].
  destruct tty; cbn [stdin set_input emit quiet input_buffer];
    destruct (fgets INPUT_BUFFER_SIZE (stdin st)) as [[chunk|] unread];
    unfold quiet, set_input, emit; simpl;
    rewrite ?output_bytes_app; simpl; rewrite ?app_nil_r; reflexivity.
Qed.

Lemma quiet_deliver config st :
  deliver (quiet_config config) (quiet st) = quiet (deliver config st).
Proof.
  unfold deliver, eof_policy. cbn [input_size input_pos quiet quiet_config
                                    eof_behavior].
  destruct (input_pos st <? input_size st); [reflexivity|].
  destruct (eof_behavior config); reflexivity.
Qed.

Lemma quiet_exec_instr config tty code c st :
  exec_instr (quiet_config config) false code c (quiet st) =
    match exec_instr config tty code c st with
    | Ok s => Ok (quiet s)
    | Err e s => Err e (quiet s)
    end.
Proof.
  unfold exec_instr. destruct (decode c).
  - change (move_right (quiet_config config)) with (move_right config).
    cbn [ptr quiet]. destruct (move_right config (ptr st)); reflexivity.
  - change (move_left (quiet_config config)) with (move_left config).
    cbn [ptr quiet]. destruct (move_left config (ptr st)); reflexivity.
  - reflexivity.
  - reflexivity.
  - change (cell (quiet st)) with (cell st). rewrite quiet_emit_put.
    reflexivity.
  - unfold exec_input. rewrite quiet_refill with (tty := tty).
    rewrite quiet_deliver. reflexivity.
  - unfold exec_open. change (cell (quiet st)) with (cell st).
    cbn [pc loop_stack quiet].
    destruct (cell st =? 0)%Z.
    + destruct (skip_scan _ _ _); destruct (loop_stack st); reflexivity.
    + destruct (MAX_NESTED_LOOPS <=? _); reflexivity.
  - unfold exec_close. change (cell (quiet st)) with (cell st).
    cbn [pc loop_stack quiet].
    destruct (loop_stack st); [reflexivity|].
    destruct (negb _); reflexivity.
  - reflexivity.
Qed.

Lemma quiet_step config tty code st :
  step (quiet_config config) false code (quiet st) =
    match step config tty code st with
    | Continue s => Continue (quiet s)
    | Finished s => Finished (quiet s)
    | Abort e s => Abort e (quiet s)
    end.
Proof.
  unfold step. cbn [pc quiet]. destruct (code !! pc st) as [c|];
    [|reflexivity].
  change (debug_hook (quiet_config config) c (quiet st)) with (quiet st).
  rewrite <- (quiet_debug_hook config c st).
  rewrite (quiet_exec_instr config tty code c (debug_hook config c st)).
  destruct (exec_instr config tty code c (debug_hook config c st));
    reflexivity.
Qed.

Lemma quiet_run config tty code fuel :
  forall st,
    run fuel (quiet_config config) false code (quiet st) =
      result_map quiet (run fuel config tty code st).
Proof.
  induction fuel as [|fuel IH]; intros st; simpl; [reflexivity|].
  rewrite (quiet_step config tty code st).
  destruct (step config tty code st); simpl; [apply IH|reflexivity..].
Qed.

(** Neither the debug hook nor the interactive prompt influences a run:
    with any amount of fuel, the run with debug mode on or off, at a
    terminal or not, ends the same way (completed, aborted with the same
    error, or out of fuel) as the run with the hook off and no terminal,
    in a state with the same tape, pointer, counter, loop stack, input
    buffer and input source, having written the same output bytes. *)
Theorem debug_and_prompt_do_not_interfere :
  forall config tty code input fuel,
    run fuel (quiet_config config) false code
      (init (quiet_config config) input)
    = result_map quiet (run fuel config tty code (init config input)) /\
    output_bytes
      (stdout (result_state
                 (run fuel (quiet_config config) false code
                    (init (quiet_config config) input))))
    = output_bytes
        (stdout (result_state (run fuel config tty code (init config input))))
    /\
    memory (result_state
              (run fuel (quiet_config config) false code
                 (init (quiet_config config) input)))
    = memory (result_state (run fuel config tty code (init config input))) /\
    result_error
      (run fuel (quiet_config config) false code
         (init (quiet_config config) input))
    = result_error (run fuel config tty code (init config input)).
Proof.
  intros config tty code input fuel.
  assert (H : run fuel (quiet_config config) false code
                (init (quiet_config config) input)
              = result_map quiet
                  (run fuel config tty code (init config input)))
    by (apply (quiet_run config tty code fuel (init config input))).
  split; [exact H|]. rewrite H.
  destruct (run fuel config tty code (init config input)); simpl;
    rewrite output_bytes_puts; repeat split.
Qed.

(** ** Input is delivered in order *)

Lemma strlen_no_nul s : Forall (fun b => b <> 0%Z) s -> strlen s = length s.
Proof.
  induction 1 as [|b s Hb _ IH]; simpl; [reflexivity|].
  destruct (Z.eqb_spec b 0); [contradiction|]. rewrite IH. reflexivity.
Qed.

(** From a source that is not at end-of-file [fgets] takes at least its
    first byte. *)
Lemma fgets_cons b rest :
  exists chunk unread,
    fgets INPUT_BUFFER_SIZE (b :: rest) = (Some (b :: chunk), unread).
Proof.
  unfold fgets.
  change (INPUT_BUFFER_SIZE - 1) with (S (INPUT_BUFFER_SIZE - 2)).
  cbn [fgets_chars]. destruct (b =? 10)%Z.
  - exists [], rest. reflexivity.
  - destruct (fgets_chars (INPUT_BUFFER_SIZE - 2) rest) as [chunk unread].
    exists chunk, unread. reflexivity.
Qed.

Lemma pending_eof_policy config st :
  pending (eof_policy config st) = pending st.
Proof. unfold eof_policy. destruct (eof_behavior config); reflexivity. Qed.

Lemma pending_debug_hook config c st :
  pending (debug_hook config c st) = pending st.
Proof. unfold pending. autorewrite with hook. reflexivity. Qed.

Lemma exec_input_pending config tty st :
  input_ok st ->
  Forall (fun b => b <> 0%Z) (stdin st) ->
  input_ok (exec_input config tty st) /\
  Forall (fun b => b <> 0%Z) (stdin (exec_input config tty st)) /\
  match pending st with
  | b :: rest =>
      memory (exec_input config tty st) = <[ptr st := b]> (memory st) /\
      pending (exec_input config tty st) = rest
  | [] =>
      memory (exec_input config tty st) = memory (eof_policy config st) /\
      pending (exec_input config tty st) = []
  end.
Proof.
  intros Hok Hnz.
  split; [apply deliver_input_ok, refill_input_ok, Hok|].
  destruct Hok as (Hsrc & Hbuf & Hsize). unfold exec_input.
  rewrite deliver_stdin.
  destruct (Nat.ltb_spec (input_pos st) (input_size st)) as [Hleft|Hused].
  - (* a byte is left in the buffer *)
    rewrite (refill_buffered tty st Hleft). split; [exact Hnz|].
    pose proof (strlen_le_length (input_buffer st)) as Hlen.
    destruct (lookup_lt_is_Some_2 (input_buffer st) (input_pos st)
                ltac:(lia)) as [x Hx].
    assert (Hnth : nth (input_pos st) (input_buffer st) 0%Z = x)
      by (apply nth_lookup_Some; exact Hx).
    assert (Hbyte : is_byte x)
      by (rewrite <- Hnth; apply is_byte_nth; exact Hbuf).
    unfold pending at 1.
    rewrite (drop_S _ x) by (rewrite lookup_take_lt by exact Hleft; exact Hx).
    simpl. rewrite deliver_byte by exact Hleft.
    rewrite Hnth, (is_byte_mod _ Hbyte). split; [reflexivity|].
    unfold pending, store. simpl. rewrite Nat.add_1_r. reflexivity.
  - (* the buffer is used up *)
    assert (Hnone : drop (input_pos st)
                      (take (input_size st) (input_buffer st)) = [])
      by (apply drop_ge; rewrite length_take; lia).
    unfold pending at 1. rewrite Hnone. simpl.
    destruct (stdin st) as [|b rest] eqn:Hin.
    + destruct (refill_eof tty st Hused Hin) as (Eb & Ep & Es & Ei).
      rewrite Ei. split; [constructor|].
      rewrite deliver_eof by lia. rewrite pending_eof_policy.
      rewrite !eof_policy_memory, refill_memory, refill_ptr.
      split; [reflexivity|].
      unfold pending. rewrite Ep, Es, Ei, take_0. reflexivity.
    + destruct (fgets_cons b rest) as (chunk & unread & Hread).
      rewrite <- Hin in Hread.
      destruct (refill_chunk tty st _ _ Hused Hread) as (Eb & Ep & Es & Ei).
      destruct (fgets_some _ _ _ _ Hread) as (Hsplit & _).
      rewrite Hin in Hsplit. injection Hsplit as Hrest.
      assert (Hparts : Forall (fun b => b <> 0%Z) (b :: chunk) /\
                       Forall (fun b => b <> 0%Z) unread).
      { apply Forall_app. simpl. rewrite <- Hrest. exact Hnz. }
      destruct Hparts as [Hchunk Hunread].
      rewrite (strlen_no_nul _ Hchunk) in Es. simpl length in Es.
      rewrite Ei. split; [exact Hunread|].
      rewrite deliver_byte by lia.
      assert (Hb : is_byte b) by (inversion Hsrc; assumption).
      rewrite Ep, Eb. simpl nth. rewrite (is_byte_mod _ Hb).
      unfold store, pending. simpl.
      rewrite refill_memory, refill_ptr, Es, Ei.
      split; [reflexivity|].
      rewrite firstn_cons.
      rewrite (take_app_length' chunk [0%Z] (length chunk) eq_refl).
      rewrite Hrest. reflexivity.
Qed.

(** On an input source without NUL bytes, [,] is a queue read: it stores
    the first byte not delivered yet -- whether it sits in the buffer or
    still in the source -- and leaves the rest pending, so that line ends
    and chunk boundaries are invisible to the program; when nothing is
    pending it applies the end-of-file policy.  The conditions are kept, so
    this holds for every [,] of a run. *)
Theorem input_delivered_in_order :
  forall config tty code st,
    code !! pc st = Some ","%char ->
    input_ok st ->
    Forall (fun b => b <> 0%Z) (stdin st) ->
    exists st',
      step config tty code st = Continue st' /\
      input_ok st' /\
      Forall (fun b => b <> 0%Z) (stdin st') /\
      ptr st' = ptr st /\
      match pending st with
      | b :: rest =>
          memory st' = <[ptr st := b]> (memory st) /\ pending st' = rest
      | [] =>
          memory st' =
            (if eof_behavior config then <[ptr st := 0%Z]> (memory st)
             else memory st) /\
          pending st' = []
      end.
Proof.
  intros config tty code st Hfetch Hok Hnz.
  exists (set_pc (pc st + 1)
            (exec_input config tty (debug_hook config "," st))).
  split; [apply step_input; exact Hfetch|].
  pose proof (debug_hook_input_ok config "," st Hok) as Hok'.
  pose proof (pending_debug_hook config "," st) as Hpending.
  remember (debug_hook config "," st) as s eqn:Hs.
  assert (Hmem : memory s = memory st) by (subst s; apply debug_hook_memory).
  assert (Hptr : ptr s = ptr st) by (subst s; apply debug_hook_ptr).
  assert (Hsrc : stdin s = stdin st) by (subst s; apply debug_hook_stdin).
  clear Hs. rewrite <- Hsrc in Hnz.
  destruct (exec_input_pending config tty s Hok' Hnz) as (Hok1 & Hnz1 & H).
  split; [exact Hok1|]. split; [exact Hnz1|].
  split; [cbn [ptr set_pc]; unfold exec_input;
          rewrite deliver_ptr, refill_ptr; exact Hptr|].
  rewrite <- Hpending, <- Hmem, <- Hptr.
  change (pending (set_pc (pc st + 1) (exec_input config tty s)))
    with (pending (exec_input config tty s)).
  cbn [memory set_pc].
  destruct (pending s) as [|b rest]; [|exact H].
  rewrite eof_policy_memory in H. exact H.
Qed.

Lemma input_delivered_in_order_witness :
  list_ascii_of_string ",," !! pc (state_at [0%Z; 0%Z; 0%Z] 1 0 [] [10%Z; 65%Z])
    = Some ","%char /\
  input_ok (state_at [0%Z; 0%Z; 0%Z] 1 0 [] [10%Z; 65%Z]) /\
  Forall (fun b => b <> 0%Z)
    (stdin (state_at [0%Z; 0%Z; 0%Z] 1 0 [] [10%Z; 65%Z])) /\
  exists st',
    step (small_config false false) false (list_ascii_of_string ",,")
      (state_at [0%Z; 0%Z; 0%Z] 1 0 [] [10%Z; 65%Z]) = Continue st' /\
    memory st' = [0%Z; 10%Z; 0%Z] /\
    pending st' = [65%Z].
Proof.
  assert (Hok : input_ok (state_at [0%Z; 0%Z; 0%Z] 1 0 [] [10%Z; 65%Z])).
  { split; [|split; [constructor|simpl; lia]].
    repeat constructor; unfold is_byte; lia. }
  assert (Hnz : Forall (fun b => b <> 0%Z)
                  (stdin (state_at [0%Z; 0%Z; 0%Z] 1 0 [] [10%Z; 65%Z])))
    by (repeat constructor; discriminate).
  split; [reflexivity|]. split; [exact Hok|]. split; [exact Hnz|].
  destruct (input_delivered_in_order (small_config false false) false
              (list_ascii_of_string ",,")
              (state_at [0%Z; 0%Z; 0%Z] 1 0 [] [10%Z; 65%Z])
              eq_refl Hok Hnz)
    as (st' & Hstep & _ & _ & _ & Hmem & Hpending).
  exists st'. split; [exact Hstep|]. split; [exact Hmem|exact Hpending].
Defined.

(** ** The copy program *)

Lemma step_out config tty code st :
  code !! pc st = Some "."%char ->
  step config tty code st =
    Continue (set_pc (pc st + 1)
                (emit (EvPut (cell st)) (debug_hook config "." st))).
Proof.
  intros H. rewrite (step_fetch _ _ _ _ _ H). dispatch.
  autorewrite with hook. cbn [pc emit]. autorewrite with hook. reflexivity.
Qed.

(** All that an iteration on [,] does, on an input source without NUL. *)
Lemma step_input_full config tty code st :
  code !! pc st = Some ","%char ->
  input_ok st ->
  Forall (fun b => b <> 0%Z) (stdin st) ->
  exists st',
    step config tty code st = Continue st' /\
    pc st' = pc st + 1 /\
    loop_stack st' = loop_stack st /\
    ptr st' = ptr st /\
    length (memory st') = length (memory st) /\
    output_bytes (stdout st') = output_bytes (stdout st) /\
    input_ok st' /\
    Forall (fun b => b <> 0%Z) (stdin st') /\
    match pending st with
    | b :: rest =>
        memory st' = <[ptr st := b]> (memory st) /\ pending st' = rest
    | [] =>
        memory st' =
          (if eof_behavior config then <[ptr st := 0%Z]> (memory st)
           else memory st) /\
        pending st' = []
    end.
Proof.
  intros Hfetch Hok Hnz.
  exists (set_pc (pc st + 1)
            (exec_input config tty (debug_hook config "," st))).
  split; [apply step_input; exact Hfetch|].
  pose proof (debug_hook_input_ok config "," st Hok) as Hok'.
  pose proof (pending_debug_hook config "," st) as Hpending.
  pose proof (exec_input_output config tty (debug_hook config "," st))
    as Hout.
  pose proof (exec_input_length config tty (debug_hook config "," st))
    as Hlen.
  autorewrite with hook in Hout, Hlen.
  remember (debug_hook config "," st) as s eqn:Hs.
  assert (Hmem : memory s = memory st) by (subst s; apply debug_hook_memory).
  assert (Hptr : ptr s = ptr st) by (subst s; apply debug_hook_ptr).
  assert (Hsrc : stdin s = stdin st) by (subst s; apply debug_hook_stdin).
  assert (Hstack : loop_stack s = loop_stack st)
    by (subst s; apply debug_hook_loop_stack).
  clear Hs. rewrite <- Hsrc in Hnz.
  destruct (exec_input_pending config tty s Hok' Hnz) as (Hok1 & Hnz1 & H).
  split; [reflexivity|].
  split; [cbn [loop_stack set_pc]; unfold exec_input;
          rewrite deliver_loop_stack, refill_loop_stack; exact Hstack|].
  split; [cbn [ptr set_pc]; unfold exec_input;
          rewrite deliver_ptr, refill_ptr; exact Hptr|].
  split; [exact Hlen|]. split; [exact Hout|].
  split; [exact Hok1|]. split; [exact Hnz1|].
  rewrite <- Hpending, <- Hmem, <- Hptr.
  change (pending (set_pc (pc st + 1) (exec_input config tty s)))
    with (pending (exec_input config tty s)).
  cbn [memory set_pc].
  destruct (pending s) as [|b rest]; [|exact H].
  rewrite eof_policy_memory in H. exact H.
Qed.

Lemma cell_of_memory st st' v :
  ptr st' = ptr st ->
  ptr st < length (memory st) ->
  memory st' = <[ptr st := v]> (memory st) ->
  cell st' = v.
Proof.
  intros Hptr Hin Hmem. unfold cell. rewrite Hmem, Hptr.
  rewrite list_lookup_insert_eq by exact Hin. reflexivity.
Qed.

(** One turn of the loop of the copy program: write, read, test. *)
Lemma cat_round config tty st out b rest :
  cat_loop st out b rest ->
  exists st3,
    steps 3 config tty cat_program st = Some st3 /\
    output_bytes (stdout st3) = out ++ [b] /\
    match rest with
    | b' :: rest' => cat_loop st3 (out ++ [b]) b' rest'
    | [] =>
        if eof_behavior config
        then step config tty cat_program st3 = Finished st3 /\
             loop_stack st3 = []
        else cat_loop st3 (out ++ [b]) b []
    end.
Proof.
  intros (Hpc & Hstack & Hcell & Hb & Hin & Hok & Hnz & Hpend & Hout).
  (* [.] *)
  assert (Hf1 : cat_program !! pc st = Some "."%char)
    by (rewrite Hpc; reflexivity).
  pose proof (step_out config tty cat_program st Hf1) as Hstep1.
  set (s1 := set_pc (pc st + 1)
               (emit (EvPut (cell st)) (debug_hook config "." st)))
    in Hstep1.
  assert (Hs1 : pc s1 = 3 /\ loop_stack s1 = [1] /\ cell s1 = b /\
                ptr s1 < length (memory s1) /\ input_ok s1 /\
                Forall (fun b => b <> 0%Z) (stdin s1) /\
                pending s1 = rest /\
                output_bytes (stdout s1) = out ++ [b]).
  { unfold s1, cell, pending, input_ok. cbn [pc loop_stack memory ptr
      stdin input_buffer input_pos input_size stdout set_pc emit].
    autorewrite with hook. rewrite output_bytes_app. autorewrite with hook.
    simpl. rewrite Hpc, Hstack, Hout. fold (cell st). rewrite Hcell.
    repeat split; try assumption; apply Hok. }
  destruct Hs1 as (Hpc1 & Hstack1 & Hcell1 & Hin1 & Hok1 & Hnz1 & Hpend1
                   & Hout1).
  (* [,] *)
  assert (Hf2 : cat_program !! pc s1 = Some ","%char)
    by (rewrite Hpc1; reflexivity).
  destruct (step_input_full config tty cat_program s1 Hf2 Hok1 Hnz1)
    as (s2 & Hstep2 & Hpc2 & Hstack2 & Hptr2 & Hlen2 & Hout2 & Hok2 & Hnz2
        & Hread).
  rewrite Hpend1 in Hread.
  assert (Hf3 : cat_program !! pc s2 = Some "]"%char)
    by (rewrite Hpc2, Hpc1; reflexivity).
  assert (Hstack2' : loop_stack s2 = [1]) by congruence.
  assert (Hin2 : ptr s2 < length (memory s2)) by lia.
  (* the state after a backward jump *)
  assert (Hjump : forall v rest',
            cell s2 = v -> v <> 0%Z -> pending s2 = rest' ->
            steps 3 config tty cat_program st
              = Some (set_pc (1 + 1) (set_pc 1 (debug_hook config "]" s2)))
            /\ output_bytes
                 (stdout (set_pc (1 + 1)
                            (set_pc 1 (debug_hook config "]" s2))))
               = out ++ [b]
            /\ cat_loop (set_pc (1 + 1) (set_pc 1 (debug_hook config "]" s2)))
                 (out ++ [b]) v rest').
  { intros v rest' Hv Hvnz Hrest'.
    assert (Hnz' : cell s2 <> 0%Z) by (rewrite Hv; exact Hvnz).
    pose proof (step_close_reenter config tty cat_program s2 1 []
                  Hf3 Hstack2' Hnz') as Hstep3.
    split; [simpl steps; rewrite Hstep1, Hstep2, Hstep3; reflexivity|].
    split; [simpl; autorewrite with hook; congruence|].
    unfold cat_loop, cell, pending, input_ok.
    cbn [pc loop_stack memory ptr stdin input_buffer input_pos input_size
         stdout set_pc].
    autorewrite with hook. fold (cell s2). fold (pending s2).
    repeat split; try assumption; try congruence; apply Hok2. }
  destruct rest as [|b' rest'].
  - destruct Hread as [Hmem2 Hpend2].
    destruct (eof_behavior config).
    + (* end of input, cell zeroed: the loop is left *)
      assert (Hzero : cell s2 = 0%Z)
        by (apply (cell_of_memory s1 s2 0%Z Hptr2 Hin1 Hmem2)).
      pose proof (step_close_exit config tty cat_program s2 1 []
                    Hf3 Hstack2' Hzero) as Hstep3.
      eexists. split; [simpl steps; rewrite Hstep1, Hstep2, Hstep3;
                       reflexivity|].
      split; [simpl; autorewrite with hook; congruence|].
      split; [|simpl; autorewrite with hook; reflexivity].
      apply step_finished. simpl. rewrite Hpc2, Hpc1.
      unfold cat_program. simpl. lia.
    + (* end of input, cell kept: the loop goes on *)
      assert (Hsame : cell s2 = b)
        by (unfold cell; rewrite Hmem2, Hptr2; exact Hcell1).
      destruct (Hjump b [] Hsame Hb Hpend2) as (Hsteps & Hout3 & Hloop).
      eexists. split; [exact Hsteps|]. split; [exact Hout3|exact Hloop].
  - destruct Hread as [Hmem2 Hpend2].
    assert (Hnew : cell s2 = b')
      by (apply (cell_of_memory s1 s2 b' Hptr2 Hin1 Hmem2)).
    assert (Hb' : b' <> 0%Z).
    { assert (Hall : Forall (fun b => b <> 0%Z) (pending s1)).
      { unfold pending. apply Forall_app. split; [|exact Hnz1].
        destruct Hok1 as (_ & _ & Hsize).
        apply Forall_forall. intros x Hx.
        apply list_elem_of_lookup in Hx as [i Hi].
        rewrite lookup_drop in Hi.
        pose proof (lookup_lt_Some _ _ _ Hi) as Hlt.
        rewrite length_take in Hlt.
        rewrite lookup_take_lt in Hi by lia.
        rewrite <- (nth_lookup_Some _ _ 0%Z _ Hi).
        apply strlen_nth_nonzero. lia. }
      rewrite Hpend1 in Hall. inversion Hall; assumption. }
    destruct (Hjump b' rest' Hnew Hb' Hpend2) as (Hsteps & Hout3 & Hloop).
    eexists. split; [exact Hsteps|]. split; [exact Hout3|exact Hloop].
Qed.

Lemma max_nested_loops_positive : 0 < MAX_NESTED_LOOPS.
Proof. apply Nat.ltb_lt. vm_compute. reflexivity. Qed.

Lemma bytes_of_text input :
  Forall (fun b => (0 < b < 256)%Z) input ->
  Forall is_byte input /\ Forall (fun b => b <> 0%Z) input.
Proof.
  intros H. split; (eapply Forall_impl; [exact H|]); intros b Hb;
    cbv beta in *; unfold is_byte; lia.
Qed.

(** The copy program started on a non-empty input reads its first byte and
    enters the loop. *)
Lemma cat_start config tty b rest :
  1 <= memory_size config ->
  Forall (fun b => (0 < b < 256)%Z) (b :: rest) ->
  exists st,
    steps 2 config tty cat_program (init config (b :: rest)) = Some st /\
    cat_loop st [] b rest.
Proof.
  intros Hsize Htext. destruct (bytes_of_text _ Htext) as [Hbytes Hnz].
  assert (Hb : b <> 0%Z) by (inversion Hnz; assumption).
  destruct (step_input_full config tty cat_program (init config (b :: rest))
              eq_refl (init_input_ok config _ Hbytes) Hnz)
    as (s1 & Hstep1 & Hpc1 & Hstack1 & Hptr1 & Hlen1 & Hout1 & Hok1 & Hnz1
        & Hread).
  change (pending (init config (b :: rest))) with (b :: rest) in Hread.
  destruct Hread as [Hmem1 Hpend1].
  assert (Hin0 : ptr (init config (b :: rest))
                 < length (memory (init config (b :: rest))))
    by (simpl; rewrite length_replicate; lia).
  assert (Hcell1 : cell s1 = b)
    by (apply (cell_of_memory _ s1 b Hptr1 Hin0 Hmem1)).
  assert (Hf2 : cat_program !! pc s1 = Some "["%char)
    by (rewrite Hpc1; reflexivity).
  pose proof (step_open_push config tty cat_program s1 Hf2
                ltac:(rewrite Hcell1; exact Hb)
                ltac:(rewrite Hstack1; apply max_nested_loops_positive))
    as Hstep2.
  eexists. split; [cbn [steps]; rewrite Hstep1, Hstep2; reflexivity|].
  unfold cat_loop, cell, pending, input_ok.
  cbn [pc loop_stack memory ptr stdin input_buffer input_pos input_size
       stdout set_pc set_loop_stack].
  autorewrite with hook. fold (cell s1). fold (pending s1).
  rewrite Hpc1, Hstack1, Hout1.
  repeat split; try assumption; try lia; apply Hok1.
Qed.

(** On an empty input the copy program skips its loop, under either
    end-of-file policy. *)
Lemma cat_empty config tty :
  1 <= memory_size config ->
  exists st,
    steps 2 config tty cat_program (init config []) = Some st /\
    step config tty cat_program st = Finished st /\
    loop_stack st = [] /\ output_bytes (stdout st) = [].
Proof.
  intros Hsize.
  destruct (step_input_full config tty cat_program (init config [])
              eq_refl (init_input_ok config [] (List.Forall_nil _))
              (List.Forall_nil _))
    as (s1 & Hstep1 & Hpc1 & Hstack1 & Hptr1 & Hlen1 & Hout1 & _ & _
        & Hread).
  change (pending (init config [])) with (@nil Z) in Hread.
  destruct Hread as [Hmem1 _].
  assert (Hcell1 : cell s1 = 0%Z).
  { unfold cell. rewrite Hmem1, Hptr1. simpl.
    destruct (eof_behavior config).
    - rewrite list_lookup_insert_eq by (rewrite length_replicate; lia).
      reflexivity.
    - rewrite lookup_replicate_2 by lia. reflexivity. }
  assert (Hf2 : cat_program !! pc s1 = Some "["%char)
    by (rewrite Hpc1; reflexivity).
  pose proof (step_open_skip config tty cat_program s1 Hf2 4 Hcell1
                ltac:(rewrite Hpc1; reflexivity)) as Hstep2.
  eexists. split; [cbn [steps]; rewrite Hstep1, Hstep2; reflexivity|].
  split; [apply step_finished; simpl; unfold cat_program; simpl; lia|].
  simpl. autorewrite with hook. split; assumption.
Qed.

Lemma cat_loop_completes config tty rest :
  eof_behavior config = true ->
  forall b out st,
    cat_loop st out b rest ->
    exists k st',
      steps k config tty cat_program st = Some st' /\
      step config tty cat_program st' = Finished st' /\
      loop_stack st' = [] /\
      output_bytes (stdout st') = out ++ b :: rest.
Proof.
  intros Heof. induction rest as [|b' rest IH]; intros b out st Hloop;
    destruct (cat_round config tty st out b _ Hloop)
      as (st3 & Hsteps & Hout & Hnext).
  - rewrite Heof in Hnext. destruct Hnext as [Hend Hstack].
    exists 3, st3. repeat split; assumption.
  - destruct (IH b' (out ++ [b]) st3 Hnext)
      as (k & st' & Hk & Hend & Hstack & Hout').
    exists (3 + k), st'.
    split; [apply (steps_app _ _ _ _ _ _ _ _ Hsteps Hk)|].
    split; [exact Hend|]. split; [exact Hstack|].
    rewrite Hout', <- app_assoc. reflexivity.
Qed.

(** With the end-of-file policy that zeroes the cell (option [-z]), the
    program [,[.,]] copies its input: on a tape of at least one cell and an
    input of non-zero bytes, whatever its length and its line ends, the run
    completes with no loop left open and the output is the input. *)
Theorem cat_copies_input :
  forall config tty input,
    eof_behavior config = true ->
    1 <= memory_size config ->
    Forall (fun b => (0 < b < 256)%Z) input ->
    exists st,
      run_returns config tty cat_program (init config input) (Completed st) /\
      output_bytes (stdout st) = input /\
      unclosed_loops st = 0.
Proof.
  intros config tty input Heof Hsize Htext.
  assert (Hdone : exists k st,
            steps k config tty cat_program (init config input) = Some st /\
            step config tty cat_program st = Finished st /\
            loop_stack st = [] /\ output_bytes (stdout st) = input).
  { destruct input as [|b rest].
    - destruct (cat_empty config tty Hsize) as (st & H). exists 2, st.
      exact H.
    - destruct (cat_start config tty b rest Hsize Htext)
        as (s2 & Hstart & Hloop).
      destruct (cat_loop_completes config tty rest Heof b [] s2 Hloop)
        as (k & st & Hk & Hend & Hstack & Hout).
      exists (2 + k), st.
      split; [apply (steps_app _ _ _ _ _ _ _ _ Hstart Hk)|].
      repeat split; assumption. }
  destruct Hdone as (k & st & Hsteps & Hend & Hstack & Hout).
  exists st. split; [|split; [exact Hout|]].
  - exists (k + 1). intros extra.
    replace (k + 1 + extra) with (k + S extra) by lia.
    rewrite (run_steps _ _ _ _ _ _ _ Hsteps). simpl. rewrite Hend.
    reflexivity.
  - unfold unclosed_loops. rewrite Hstack. reflexivity.
Qed.

Lemma cat_copies_input_witness :
  eof_behavior (small_config false true) = true /\
  1 <= memory_size (small_config false true) /\
  Forall (fun b => (0 < b < 256)%Z) [72%Z; 10%Z; 105%Z] /\
  exists st,
    run_returns (small_config false true) false cat_program
      (init (small_config false true) [72%Z; 10%Z; 105%Z]) (Completed st) /\
    output_bytes (stdout st) = [72%Z; 10%Z; 105%Z].
Proof.
  assert (Hsize : 1 <= memory_size (small_config false true))
    by (simpl; lia).
  assert (Htext : Forall (fun b => (0 < b < 256)%Z) [72%Z; 10%Z; 105%Z])
    by (repeat constructor; lia).
  split; [reflexivity|]. split; [exact Hsize|]. split; [exact Htext|].
  destruct (cat_copies_input (small_config false true) false
              [72%Z; 10%Z; 105%Z] eq_refl Hsize Htext)
    as (st & Hrun & Hout & _).
  exists st. split; [exact Hrun|exact Hout].
Defined.

Lemma steps_out_of_fuel config tty code k :
  forall st st' fuel,
    steps k config tty code st = Some st' ->
    fuel <= k ->
    exists s, run fuel config tty code st = OutOfFuel s.
Proof.
  induction k as [|k IH]; intros st st' fuel Hsteps Hfuel.
  - replace fuel with 0 by lia. exists st. reflexivity.
  - destruct fuel as [|fuel]; [exists st; reflexivity|].
    simpl in Hsteps |- *.
    destruct (step config tty code st) as [s1| |]; [|discriminate..].
    apply (IH s1 st'); [exact Hsteps|lia].
Qed.

Lemma cat_loop_forever config tty :
  eof_behavior config = false ->
  forall fuel st out b rest,
    cat_loop st out b rest ->
    exists s, run fuel config tty cat_program st = OutOfFuel s.
Proof.
  intros Heof fuel.
  induction fuel as [fuel IH] using lt_wf_ind.
  intros st out b rest Hloop.
  destruct (cat_round config tty st out b rest Hloop)
    as (st3 & Hsteps & _ & Hnext).
  destruct (Nat.le_gt_cases fuel 3) as [Hfew|Hmany].
  - apply (steps_out_of_fuel _ _ _ _ _ _ _ Hsteps Hfew).
  - replace fuel with (3 + (fuel - 3)) by lia.
    rewrite (run_steps _ _ _ _ _ _ _ Hsteps).
    destruct rest as [|b' rest'].
    + rewrite Heof in Hnext. apply (IH (fuel - 3) ltac:(lia) _ _ _ _ Hnext).
    + apply (IH (fuel - 3) ltac:(lia) _ _ _ _ Hnext).
Qed.

(** With the default end-of-file policy, which leaves the cell alone, the
    same program never returns on a non-empty input of non-zero bytes: the
    last byte read stays in the cell, so the loop is never left and every
    run is out of fuel, neither completed nor aborted, however much fuel it
    is given.  On the empty input it completes with no output. *)
Theorem cat_never_returns_without_eof_zero :
  forall config tty input,
    eof_behavior config = false ->
    1 <= memory_size config ->
    Forall (fun b => (0 < b < 256)%Z) input ->
    (input <> [] ->
     forall fuel,
       exists st,
         run fuel config tty cat_program (init config input) = OutOfFuel st)
    /\
    (input = [] ->
     exists st,
       run_returns config tty cat_program (init config input) (Completed st)
       /\ output_bytes (stdout st) = []).
Proof.
  intros config tty input Heof Hsize Htext. split.
  - intros Hnonempty fuel. destruct input as [|b rest]; [congruence|].
    destruct (cat_start config tty b rest Hsize Htext)
      as (s2 & Hstart & Hloop).
    destruct (Nat.le_gt_cases fuel 2) as [Hfew|Hmany].
    + apply (steps_out_of_fuel _ _ _ _ _ _ _ Hstart Hfew).
    + replace fuel with (2 + (fuel - 2)) by lia.
      rewrite (run_steps _ _ _ _ _ _ _ Hstart).
      apply (cat_loop_forever config tty Heof _ _ _ _ _ Hloop).
  - intros ->. destruct (cat_empty config tty Hsize)
      as (st & Hsteps & Hend & _ & Hout).
    exists st. split; [|exact Hout].
    exists 3. intros extra.
    replace (3 + extra) with (2 + S extra) by lia.
    rewrite (run_steps _ _ _ _ _ _ _ Hsteps). simpl. rewrite Hend.
    reflexivity.
Qed.

Lemma cat_never_returns_witness :
  eof_behavior (small_config false false) = false /\
  1 <= memory_size (small_config false false) /\
  Forall (fun b => (0 < b < 256)%Z) [72%Z; 105%Z] /\
  [72%Z; 105%Z] <> [] /\
  exists st,
    run 1000 (small_config false false) false cat_program
      (init (small_config false false) [72%Z; 105%Z]) = OutOfFuel st.
Proof.
  assert (Hsize : 1 <= memory_size (small_config false false))
    by (simpl; lia).
  assert (Htext : Forall (fun b => (0 < b < 256)%Z) [72%Z; 105%Z])
    by (repeat constructor; lia).
  assert (Hne : [72%Z; 105%Z] <> []) by discriminate.
  split; [reflexivity|]. split; [exact Hsize|]. split; [exact Htext|].
  split; [exact Hne|].
  exact (proj1 (cat_never_returns_without_eof_zero
                  (small_config false false) false [72%Z; 105%Z]
                  eq_refl Hsize Htext) Hne 1000).
Defined.

(** ** Tape cells are bytes *)

Lemma exec_instr_bytes config tty code c st :
  Forall is_byte (memory st) ->
  Forall is_byte
    (memory match exec_instr config tty code c st with Ok s | Err _ s => s end).
Proof.
  intros Hbytes. unfold exec_instr. destruct (decode c).
  - destruct (move_right config (ptr st)); exact Hbytes.
  - destruct (move_left config (ptr st)); exact Hbytes.
  - apply Forall_insert; [exact Hbytes|apply cell_inc_byte].
  - apply Forall_insert; [exact Hbytes|apply cell_dec_byte].
  - exact Hbytes.
  - unfold exec_input, deliver, eof_policy, store.
    destruct (input_pos _ <? input_size _); [|destruct (eof_behavior config)];
      cbn [memory set_memory set_input]; rewrite ?refill_memory;
      try exact Hbytes;
      (apply Forall_insert; [exact Hbytes|]).
    + apply Z.mod_pos_bound. lia.
    + unfold is_byte. lia.
  - unfold exec_open. destruct (cell st =? 0)%Z.
    + destruct (skip_scan _ _ _); exact Hbytes.
    + destruct (MAX_NESTED_LOOPS <=? _); exact Hbytes.
  - unfold exec_close. destruct (loop_stack st); [exact Hbytes|].
    destruct (negb _); exact Hbytes.
  - exact Hbytes.
Qed.

Lemma step_bytes config tty code st :
  Forall is_byte (memory st) ->
  Forall is_byte (memory (outcome_state (step config tty code st))).
Proof.
  intros Hbytes. unfold step. destruct (code !! pc st) as [c|];
    [|exact Hbytes].
  pose proof (exec_instr_bytes config tty code c (debug_hook config c st))
    as H.
  autorewrite with hook in H. specialize (H Hbytes).
  destruct (exec_instr config tty code c (debug_hook config c st));
    exact H.
Qed.

(** Every cell of the tape holds a byte at all times: whatever the program
    and the input, in every state a run goes through and in the state it
    stops in, all tape cells are in the range 0 to 255. *)
Theorem tape_holds_bytes :
  forall config tty code input,
    (forall n st,
       steps n config tty code (init config input) = Some st ->
       Forall is_byte (memory st)) /\
    (forall fuel,
       Forall is_byte
         (memory (result_state
                    (run fuel config tty code (init config input))))).
Proof.
  intros config tty code input.
  assert (Hinit : Forall is_byte (memory (init config input))).
  { simpl. apply Forall_replicate. unfold is_byte. lia. }
  split.
  - intros n. generalize (init config input), Hinit.
    induction n as [|n IH]; intros s Hs st Hsteps; simpl in Hsteps.
    + injection Hsteps as <-. exact Hs.
    + pose proof (step_bytes config tty code s Hs) as Hstep.
      destruct (step config tty code s) as [s1| |]; [|discriminate..].
      apply (IH s1 Hstep st Hsteps).
  - intros fuel. generalize (init config input), Hinit.
    induction fuel as [|fuel IH]; intros s Hs; simpl; [exact Hs|].
    pose proof (step_bytes config tty code s Hs) as Hstep.
    destruct (step config tty code s) as [s1|s1|e s1]; simpl in *; auto.
Qed.

(** ** Inverse instructions cancel *)

Lemma cell_dec_inc v : is_byte v -> cell_dec (cell_inc v) = v.
Proof.
  unfold is_byte, cell_dec, cell_inc. intros H.
  rewrite Zminus_mod_idemp_l. replace (v + 1 - 1)%Z with v by lia.
  apply Z.mod_small. exact H.
Qed.

Lemma cell_inc_dec v : is_byte v -> cell_inc (cell_dec v) = v.
Proof.
  unfold is_byte, cell_dec, cell_inc. intros H.
  rewrite Zplus_mod_idemp_l. replace (v - 1 + 1)%Z with v by lia.
  apply Z.mod_small. exact H.
Qed.

Lemma move_right_left config p q :
  p < memory_size config ->
  move_right config p = Some q -> move_left config q = Some p.
Proof.
  unfold move_right, move_left. intros Hp. destruct (wrap_memory config).
  - destruct (Nat.eqb_spec p (memory_size config - 1)); intros [= <-].
    + simpl. f_equal. lia.
    + destruct (Nat.eqb_spec (p + 1) 0); [lia|]. f_equal. lia.
  - destruct (Nat.ltb_spec p (memory_size config - 1)); [|discriminate].
    intros [= <-]. destruct (Nat.ltb_spec 0 (p + 1)); [|lia]. f_equal. lia.
Qed.

Lemma move_left_right config p q :
  p < memory_size config ->
  move_left config p = Some q -> move_right config q = Some p.
Proof.
  unfold move_right, move_left. intros Hp. destruct (wrap_memory config).
  - destruct (Nat.eqb_spec p 0); intros [= <-].
    + rewrite Nat.eqb_refl. f_equal. lia.
    + destruct (Nat.eqb_spec (p - 1) (memory_size config - 1)); [lia|].
      f_equal. lia.
  - destruct (Nat.ltb_spec 0 p); [|discriminate].
    intros [= <-].
    destruct (Nat.ltb_spec (p - 1) (memory_size config - 1)); [|lia].
    f_equal. lia.
Qed.

(** Two stores through the same pointer, the second restoring the value. *)
Lemma steps_store_restore config tty code st c1 c2 f g :
  (c1 = "+"%char /\ c2 = "-"%char /\ f = cell_inc /\ g = cell_dec) \/
  (c1 = "-"%char /\ c2 = "+"%char /\ f = cell_dec /\ g = cell_inc) ->
  code !! pc st = Some c1 ->
  code !! (pc st + 1) = Some c2 ->
  ptr st < length (memory st) ->
  g (f (cell st)) = cell st ->
  steps 2 config tty code st =
    Some (set_pc (pc st + 1 + 1)
            (store (g (f (cell st)))
               (debug_hook config c2
                  (set_pc (pc st + 1)
                     (store (f (cell st)) (debug_hook config c1 st)))))) /\
  memory (store (g (f (cell st)))
            (debug_hook config c2
               (set_pc (pc st + 1)
                  (store (f (cell st)) (debug_hook config c1 st)))))
  = memory st.
Proof.
  intros Hpair Hf1 Hf2 Hin Hinv.
  set (s1 := set_pc (pc st + 1) (store (f (cell st)) (debug_hook config c1 st))).
  assert (Hstep1 : step config tty code st = Continue s1).
  { destruct Hpair as [(-> & _ & -> & _)|(-> & _ & -> & _)];
      [apply step_inc|apply step_dec]; exact Hf1. }
  assert (Hcell1 : cell s1 = f (cell st)).
  { unfold s1. change (cell (set_pc (pc st + 1) ?s)) with (cell s).
    apply cell_after_store. autorewrite with hook. exact Hin. }
  assert (Hstep2 : step config tty code s1 =
                     Continue (set_pc (pc s1 + 1)
                                 (store (g (cell s1))
                                    (debug_hook config c2 s1)))).
  { destruct Hpair as [(_ & -> & _ & ->)|(_ & -> & _ & ->)];
      [apply step_dec|apply step_inc]; exact Hf2. }
  split.
  - cbn [steps]. rewrite Hstep1, Hstep2, Hcell1. reflexivity.
  - unfold store at 1. cbn [memory set_memory]. autorewrite with hook.
    unfold s1, store. cbn [memory ptr set_pc set_memory].
    autorewrite with hook.
    rewrite list_insert_insert_eq, Hinv. apply list_insert_id.
    unfold cell.
    destruct (lookup_lt_is_Some_2 (memory st) (ptr st) Hin) as [v Hv].
    rewrite Hv. reflexivity.
Qed.

Lemma steps_move_back config tty code st c1 c2 q :
  (c1 = ">"%char /\ c2 = "<"%char /\ move_right config (ptr st) = Some q) \/
  (c1 = "<"%char /\ c2 = ">"%char /\ move_left config (ptr st) = Some q) ->
  code !! pc st = Some c1 ->
  code !! (pc st + 1) = Some c2 ->
  ptr st < memory_size config ->
  steps 2 config tty code st =
    Some (set_pc (pc st + 1 + 1)
            (set_ptr (ptr st)
               (debug_hook config c2
                  (set_pc (pc st + 1)
                     (set_ptr q (debug_hook config c1 st)))))).
Proof.
  intros Hpair Hf1 Hf2 Hin.
  set (s1 := set_pc (pc st + 1) (set_ptr q (debug_hook config c1 st))).
  assert (Hstep1 : step config tty code st = Continue s1).
  { apply (step_move _ _ _ _ _ _ Hf1).
    destruct Hpair as [(-> & _ & H)|(-> & _ & H)]; [left|right];
      (split; [reflexivity|exact H]). }
  assert (Hstep2 : step config tty code s1 =
                     Continue (set_pc (pc s1 + 1)
                                 (set_ptr (ptr st)
                                    (debug_hook config c2 s1)))).
  { apply (step_move config tty code s1 c2 (ptr st) Hf2).
    change (ptr s1) with q.
    destruct Hpair as [(_ & -> & H)|(_ & -> & H)]; [right|left];
      (split; [reflexivity|]).
    - apply (move_right_left _ _ _ Hin H).
    - apply (move_left_right _ _ _ Hin H). }
  cbn [steps]. rewrite Hstep1, Hstep2. reflexivity.
Qed.

(** Inverse instructions cancel.  With the pointer on the tape, [+-] and
    [-+] leave the tape as it was, and so do [><] and [<>] leave the
    pointer whenever the first move is allowed (always, with wrapping):
    after the two iterations the tape, the pointer, the loop stack and the
    output bytes are those before, and the counter is two further. *)
Theorem inverse_instructions_cancel :
  forall config tty code st c1 c2,
    tape_ok config st ->
    Forall is_byte (memory st) ->
    code !! pc st = Some c1 ->
    code !! (pc st + 1) = Some c2 ->
    (c1 = "+"%char /\ c2 = "-"%char) \/
    (c1 = "-"%char /\ c2 = "+"%char) \/
    (c1 = ">"%char /\ c2 = "<"%char /\
     is_Some (move_right config (ptr st))) \/
    (c1 = "<"%char /\ c2 = ">"%char /\
     is_Some (move_left config (ptr st))) ->
    exists st',
      steps 2 config tty code st = Some st' /\
      memory st' = memory st /\
      ptr st' = ptr st /\
      pc st' = pc st + 2 /\
      loop_stack st' = loop_stack st /\
      output_bytes (stdout st') = output_bytes (stdout st).
Proof.
  intros config tty code st c1 c2 (Hlen & Hptr & _) Hbytes Hf1 Hf2 Hpair.
  assert (Hin : ptr st < length (memory st)) by lia.
  assert (Hbyte : is_byte (cell st)).
  { unfold cell.
    destruct (lookup_lt_is_Some_2 (memory st) (ptr st) Hin) as [v Hv].
    rewrite Hv. simpl.
    apply (proj1 (Forall_lookup _ _) Hbytes _ _ Hv). }
  assert (Hstore : forall f g,
            (c1 = "+"%char /\ c2 = "-"%char /\ f = cell_inc /\ g = cell_dec)
            \/ (c1 = "-"%char /\ c2 = "+"%char /\ f = cell_dec /\
                g = cell_inc) ->
            g (f (cell st)) = cell st ->
            exists st',
              steps 2 config tty code st = Some st' /\
              memory st' = memory st /\ ptr st' = ptr st /\
              pc st' = pc st + 2 /\ loop_stack st' = loop_stack st /\
              output_bytes (stdout st') = output_bytes (stdout st)).
  { intros f g Hfg Hinv.
    destruct (steps_store_restore config tty code st c1 c2 f g Hfg Hf1 Hf2
                Hin Hinv) as [Hsteps Hmem].
    eexists. split; [exact Hsteps|]. split; [exact Hmem|].
    unfold store. cbn [ptr pc loop_stack stdout set_pc set_memory].
    autorewrite with hook.
    cbn [ptr pc loop_stack stdout set_pc set_memory].
    autorewrite with hook. repeat split. lia. }
  destruct Hpair as [[-> ->]|[[-> ->]|[(-> & -> & [q Hq])|(-> & -> & [q Hq])]]].
  - apply (Hstore cell_inc cell_dec); [left; repeat split|].
    apply cell_dec_inc, Hbyte.
  - apply (Hstore cell_dec cell_inc); [right; repeat split|].
    apply cell_inc_dec, Hbyte.
  - eexists. split.
    + apply (steps_move_back config tty code st ">" "<" q);
        [|assumption..].
      left. repeat split. exact Hq.
    + cbn [memory ptr pc loop_stack stdout set_pc set_ptr].
      autorewrite with hook.
      cbn [memory ptr pc loop_stack stdout set_pc set_ptr].
      autorewrite with hook. repeat split. lia.
  - eexists. split.
    + apply (steps_move_back config tty code st "<" ">" q);
        [|assumption..].
      right. repeat split. exact Hq.
    + cbn [memory ptr pc loop_stack stdout set_pc set_ptr].
      autorewrite with hook.
      cbn [memory ptr pc loop_stack stdout set_pc set_ptr].
      autorewrite with hook. repeat split. lia.
Qed.

Lemma inverse_instructions_cancel_witness :
  tape_ok (small_config true false) (state_at [255%Z; 0%Z; 7%Z] 0 0 [] []) /\
  Forall is_byte (memory (state_at [255%Z; 0%Z; 7%Z] 0 0 [] [])) /\
  (exists st',
     steps 2 (small_config true false) false (list_ascii_of_string "+-")
       (state_at [255%Z; 0%Z; 7%Z] 0 0 [] []) = Some st' /\
     memory st' = [255%Z; 0%Z; 7%Z]) /\
  is_Some (move_left (small_config true false)
             (ptr (state_at [255%Z; 0%Z; 7%Z] 0 0 [] []))) /\
  (exists st',
     steps 2 (small_config true false) false (list_ascii_of_string "<>")
       (state_at [255%Z; 0%Z; 7%Z] 0 0 [] []) = Some st' /\
     ptr st' = 0).
Proof.
  assert (Hok : tape_ok (small_config true false)
                  (state_at [255%Z; 0%Z; 7%Z] 0 0 [] []))
    by (unfold tape_ok, MAX_NESTED_LOOPS; simpl; lia).
  assert (Hbytes : Forall is_byte
                     (memory (state_at [255%Z; 0%Z; 7%Z] 0 0 [] [])))
    by (repeat constructor; unfold is_byte; lia).
  assert (Hmove : is_Some (move_left (small_config true false)
                             (ptr (state_at [255%Z; 0%Z; 7%Z] 0 0 [] []))))
    by (exists 2; reflexivity).
  split; [exact Hok|]. split; [exact Hbytes|]. split.
  - destruct (inverse_instructions_cancel (small_config true false) false
                (list_ascii_of_string "+-")
                (state_at [255%Z; 0%Z; 7%Z] 0 0 [] []) "+"%char "-"%char
                Hok Hbytes eq_refl eq_refl
                (or_introl (conj eq_refl eq_refl)))
      as (st' & Hsteps & Hmem & _).
    exists st'. split; [exact Hsteps|exact Hmem].
  - split; [exact Hmove|].
    destruct (inverse_instructions_cancel (small_config true false) false
                (list_ascii_of_string "<>")
                (state_at [255%Z; 0%Z; 7%Z] 0 0 [] []) "<"%char ">"%char
                Hok Hbytes eq_refl eq_refl
                (or_intror (or_intror (or_intror
                   (conj eq_refl (conj eq_refl Hmove))))))
      as (st' & Hsteps & _ & Hptr & _).
    exists st'. split; [exact Hsteps|exact Hptr].
Defined.

(** ** Programs without loops terminate *)

Lemma exec_instr_straight config tty code c st :
  c <> "["%char -> c <> "]"%char ->
  match exec_instr config tty code c st with
  | Ok s => pc s = pc st
  | Err e _ => e = OutOfBounds (pc st) /\ wrap_memory config = false
  end.
Proof.
  intros Hopen Hclose. unfold exec_instr. destruct (decode c) eqn:Hc.
  - unfold move_right. destruct (wrap_memory config); [reflexivity|].
    destruct (ptr st <? memory_size config - 1); [reflexivity|]. auto.
  - unfold move_left. destruct (wrap_memory config); [reflexivity|].
    destruct (0 <? ptr st); [reflexivity|]. auto.
  - reflexivity.
  - reflexivity.
  - reflexivity.
  - unfold exec_input. rewrite deliver_pc, refill_pc. reflexivity.
  - apply decode_open in Hc. contradiction.
  - apply decode_close in Hc. contradiction.
  - reflexivity.
Qed.

Lemma straight_run config tty code :
  Forall (fun c => c <> "["%char /\ c <> "]"%char) code ->
  forall k st,
    length code <= pc st + k ->
    (exists st', run (S k) config tty code st = Completed st') \/
    (exists p st',
       run (S k) config tty code st = Aborted (OutOfBounds p) st' /\
       wrap_memory config = false).
Proof.
  intros Hstraight. induction k as [|k IH]; intros st Hk.
  - left. exists st. simpl. rewrite step_finished by lia. reflexivity.
  - destruct (Nat.le_gt_cases (length code) (pc st)) as [Hend|Hmore].
    { left. exists st. cbn [run]. rewrite step_finished by lia.
      reflexivity. }
    destruct (lookup_lt_is_Some_2 code (pc st) Hmore) as [c Hfetch].
    destruct (proj1 (Forall_lookup _ _) Hstraight _ _ Hfetch)
      as [Hopen Hclose].
    pose proof (exec_instr_straight config tty code c
                  (debug_hook config c st) Hopen Hclose) as Hexec.
    cbn [run]. rewrite (step_fetch _ _ _ _ _ Hfetch).
    destruct (exec_instr config tty code c (debug_hook config c st))
      as [s|e s].
    + apply IH. simpl. rewrite Hexec. autorewrite with hook. lia.
    + right. destruct Hexec as [-> Hwrap]. eauto.
Qed.

(** A program without [[] and []]] always terminates, within as many
    iterations as it has characters: the run either completes or, when
    wrapping is off, aborts with [OutOfBounds]; it does neither loop nor
    end on any other error.  With wrapping on it always completes. *)
Theorem bracket_free_programs_terminate :
  forall config tty code input,
    Forall (fun c => c <> "["%char /\ c <> "]"%char) code ->
    exists r,
      run (length code + 1) config tty code (init config input) = r /\
      run_returns config tty code (init config input) r /\
      ((exists st, r = Completed st) \/
       (exists p st,
          r = Aborted (OutOfBounds p) st /\ wrap_memory config = false)).
Proof.
  intros config tty code input Hstraight.
  exists (run (length code + 1) config tty code (init config input)).
  split; [reflexivity|].
  replace (length code + 1) with (S (length code)) by lia.
  destruct (straight_run config tty code Hstraight (length code)
              (init config input) ltac:(simpl; lia))
    as [[st Hrun]|(p & st & Hrun & Hwrap)]; rewrite Hrun.
  - split; [|left; exists st; reflexivity].
    exists (S (length code)). intros extra.
    apply run_fuel_mono; [exact Hrun|discriminate].
  - split; [|right; exists p, st; split; [reflexivity|exact Hwrap]].
    exists (S (length code)). intros extra.
    apply run_fuel_mono; [exact Hrun|discriminate].
Qed.

Lemma bracket_free_programs_terminate_witness :
  Forall (fun c => c <> "["%char /\ c <> "]"%char)
    (list_ascii_of_string "+>,.<") /\
  exists r,
    run (length (list_ascii_of_string "+>,.<") + 1)
      (small_config false false) false (list_ascii_of_string "+>,.<")
      (init (small_config false false) [7%Z]) = r /\
    ((exists st, r = Completed st) \/
     (exists p st,
        r = Aborted (OutOfBounds p) st /\
        wrap_memory (small_config false false) = false)).
Proof.
  assert (H : Forall (fun c => c <> "["%char /\ c <> "]"%char)
                (list_ascii_of_string "+>,.<"))
    by (repeat constructor; discriminate).
  split; [exact H|].
  destruct (bracket_free_programs_terminate (small_config false false)
              false (list_ascii_of_string "+>,.<") [7%Z] H)
    as (r & Hrun & _ & Hkind).
  exists r. split; [exact Hrun|exact Hkind].
Defined.

(** ** Filtering the source does not change what the program does *)

Lemma clean_position_next code i c :
  code !! i = Some c ->
  clean_position code (i + 1) =
    clean_position code i + (if is_command c then 1 else 0).
Proof.
  intros H. unfold clean_position.
  rewrite Nat.add_1_r, (take_S_r _ _ _ H), clean_code_app, length_app.
  simpl. destruct (is_command c); reflexivity.
Qed.

Lemma clean_position_end code i :
  length code <= i -> clean_position code i = length (clean_code code).
Proof. intros H. unfold clean_position. rewrite take_ge by exact H. reflexivity. Qed.

Lemma clean_code_drop code i :
  drop (clean_position code i) (clean_code code) = clean_code (drop i code).
Proof.
  unfold clean_position.
  rewrite <- (take_drop i code) at 2.
  rewrite clean_code_app, drop_app_length. reflexivity.
Qed.

Lemma clean_code_lookup code i c :
  code !! i = Some c ->
  is_command c = true ->
  clean_code code !! clean_position code i = Some c.
Proof.
  intros Hget Hc.
  rewrite <- (Nat.add_0_r (clean_position code i)), <- lookup_drop.
  rewrite clean_code_drop, (drop_S _ _ _ Hget). simpl. rewrite Hc.
  reflexivity.
Qed.

(** The scan of the filtered text stops where the scan of the text
    does. *)
Lemma skip_scan_clean rest :
  forall p p' n,
    match skip_scan rest p n with
    | inl m =>
        p <= m <= p + length rest /\
        skip_scan (clean_code rest) p' n
          = inl (p' + length (clean_code (take (m - p) rest)))
    | inr e =>
        e = p + 1 + length rest /\
        skip_scan (clean_code rest) p' n
          = inr (p' + 1 + length (clean_code rest))
    end.
Proof.
  induction rest as [|c rest IH]; intros p p' n.
  - destruct n as [|b]; simpl.
    + split; [lia|]. rewrite take_nil. simpl. f_equal. lia.
    + split; [lia|]. f_equal. lia.
  - destruct n as [|b].
    + rewrite !skip_scan_zero. split; [simpl; lia|].
      rewrite Nat.sub_diag, take_0. simpl. f_equal. lia.
    + assert (Hkept : forall n',
                is_command c = true ->
                match skip_scan rest (p + 1) n' with
                | inl m =>
                    p <= m <= p + length (c :: rest) /\
                    skip_scan (clean_code rest) (p' + 1) n'
                      = inl (p' +
                             length (clean_code (take (m - p) (c :: rest))))
                | inr e =>
                    e = p + 1 + length (c :: rest) /\
                    skip_scan (clean_code rest) (p' + 1) n'
                      = inr (p' + 1 + length (c :: clean_code rest))
                end).
      { intros n' Hc. specialize (IH (p + 1) (p' + 1) n').
        destruct (skip_scan rest (p + 1) n') as [m|e].
        - destruct IH as [Hm Hscan]. split; [simpl; lia|].
          rewrite Hscan. f_equal.
          replace (m - p) with (S (m - (p + 1))) by lia.
          rewrite firstn_cons. simpl. rewrite Hc. simpl. lia.
        - destruct IH as [-> Hscan]. split; [simpl; lia|].
          rewrite Hscan. simpl. f_equal. lia. }
      cbn [skip_scan clean_code].
      destruct (Ascii.eqb_spec c "[") as [->|Hopen].
      { cbn [is_command Ascii.eqb orb]. cbn [skip_scan].
        apply (Hkept (S b + 1) eq_refl). }
      destruct (Ascii.eqb_spec c "]") as [->|Hclose].
      { change (is_command "]") with true. cbn [skip_scan].
        change (Ascii.eqb "]" "[") with false.
        change (Ascii.eqb "]" "]") with true. cbv iota.
        apply (Hkept b eq_refl). }
      destruct (is_command c) eqn:Hc.
      * cbn [skip_scan].
        destruct (Ascii.eqb_spec c "["); [contradiction|].
        destruct (Ascii.eqb_spec c "]"); [contradiction|].
        apply (Hkept (S b) eq_refl).
      * specialize (IH (p + 1) p' (S b)).
        destruct (skip_scan rest (p + 1) (S b)) as [m|e].
        -- destruct IH as [Hm Hscan]. split; [simpl; lia|].
           rewrite Hscan. f_equal.
           replace (m - p) with (S (m - (p + 1))) by lia.
           rewrite firstn_cons. simpl. rewrite Hc. reflexivity.
        -- destruct IH as [-> Hscan]. split; [simpl; lia|]. exact Hscan.
Qed.

Lemma refill_relocate tty n l st :
  refill tty (set_pc n (set_loop_stack l st))
  = set_pc n (set_loop_stack l (refill tty st)).
Proof.
  unfold refill. cbn [input_size input_pos set_pc set_loop_stack].
  destruct (input_size st <=? input_pos st); [|reflexivity].
  destruct tty; cbn [stdin set_input set_pc set_loop_stack emit];
    destruct (fgets INPUT_BUFFER_SIZE (stdin st)) as [[chunk|] unread];
    reflexivity.
Qed.

Lemma deliver_relocate config n l st :
  deliver config (set_pc n (set_loop_stack l st))
  = set_pc n (set_loop_stack l (deliver config st)).
Proof.
  unfold deliver, eof_policy. cbn [input_size input_pos set_pc set_loop_stack].
  destruct (input_pos st <? input_size st); [reflexivity|].
  destruct (eof_behavior config); reflexivity.
Qed.

Lemma exec_input_relocate config tty n l st :
  exec_input config tty (set_pc n (set_loop_stack l st))
  = set_pc n (set_loop_stack l (exec_input config tty st)).
Proof. unfold exec_input. rewrite refill_relocate, deliver_relocate. reflexivity. Qed.

Lemma exec_input_pc config tty st : pc (exec_input config tty st) = pc st.
Proof. unfold exec_input. rewrite deliver_pc. apply refill_pc. Qed.

Lemma exec_input_loop_stack config tty st :
  loop_stack (exec_input config tty st) = loop_stack st.
Proof.
  unfold exec_input. rewrite deliver_loop_stack. apply refill_loop_stack.
Qed.

Lemma clean_code_length_split code i :
  length (clean_code code)
  = clean_position code i + length (clean_code (drop i code)).
Proof.
  unfold clean_position.
  rewrite <- (take_drop i code) at 1.
  rewrite clean_code_app, length_app. reflexivity.
Qed.

(** The [switch] on a command character, on the text and on the filtered
    text. *)
Lemma relocate_exec config tty code c q :
  code !! pc q = Some c ->
  is_command c = true ->
  loops_ok code (pc q) (loop_stack q) ->
  match exec_instr config tty code c q with
  | Ok t =>
      exists n,
        clean_position code (pc t + 1) = n + 1 /\
        exec_instr config tty (clean_code code) c (relocate code q)
        = Ok (set_pc n
                (set_loop_stack (map (clean_position code) (loop_stack t)) t))
  | Err e t =>
      exec_instr config tty (clean_code code) c (relocate code q)
      = Err (error_at (clean_position code) e) (relocate code t)
  end.
Proof.
  intros Hfetch Hc Hloops.
  pose proof (clean_position_next code (pc q) c Hfetch) as Hnext.
  rewrite Hc in Hnext.
  pose proof (lookup_lt_Some _ _ _ Hfetch) as Hpc.
  unfold exec_instr. destruct (decode c) eqn:Hd.
  - change (ptr (relocate code q)) with (ptr q).
    destruct (move_right config (ptr q)); [|reflexivity].
    exists (clean_position code (pc q)). split; [exact Hnext|reflexivity].
  - change (ptr (relocate code q)) with (ptr q).
    destruct (move_left config (ptr q)); [|reflexivity].
    exists (clean_position code (pc q)). split; [exact Hnext|reflexivity].
  - exists (clean_position code (pc q)). split; [exact Hnext|reflexivity].
  - exists (clean_position code (pc q)). split; [exact Hnext|reflexivity].
  - exists (clean_position code (pc q)). split; [exact Hnext|reflexivity].
  - exists (clean_position code (pc q)).
    rewrite exec_input_pc, exec_input_loop_stack.
    split; [exact Hnext|]. unfold relocate. rewrite exec_input_relocate.
    reflexivity.
  - apply decode_open in Hd. subst c. unfold exec_open.
    change (cell (relocate code q)) with (cell q).
    change (pc (relocate code q)) with (clean_position code (pc q)).
    change (loop_stack (relocate code q))
      with (map (clean_position code) (loop_stack q)).
    destruct (cell q =? 0)%Z.
    + rewrite <- Hnext, clean_code_drop.
      pose proof (skip_scan_clean (drop (pc q + 1) code) (pc q)
                    (clean_position code (pc q)) 1) as Hscan.
      destruct (skip_scan (drop (pc q + 1) code) (pc q) 1) as [m|e].
      * destruct Hscan as [Hm ->].
        exists (clean_position code (pc q) +
                length (clean_code (take (m - pc q) (drop (pc q + 1) code)))).
        split; [|reflexivity].
        cbn [pc set_pc]. unfold clean_position at 1.
        replace (m + 1) with (pc q + 1 + (m - pc q)) by lia.
        rewrite <- take_take_drop, clean_code_app, length_app.
        fold (clean_position code (pc q + 1)). rewrite Hnext. lia.
      * destruct Hscan as [-> ->]. rewrite length_drop.
        assert (Hend : clean_position code (pc q) + 1 +
                       length (clean_code (drop (pc q + 1) code))
                       = clean_position code
                           (pc q + 1 + (length code - (pc q + 1)))).
        { rewrite (clean_position_end code
                     (pc q + 1 + (length code - (pc q + 1)))) by lia.
          rewrite (clean_code_length_split code (pc q + 1)), Hnext. lia. }
        rewrite Hend. destruct (loop_stack q); reflexivity.
    + rewrite length_map.
      destruct (MAX_NESTED_LOOPS <=? length (loop_stack q)); [reflexivity|].
      exists (clean_position code (pc q)). split; [exact Hnext|reflexivity].
  - apply decode_close in Hd. subst c. unfold exec_close.
    change (cell (relocate code q)) with (cell q).
    change (pc (relocate code q)) with (clean_position code (pc q)).
    change (loop_stack (relocate code q))
      with (map (clean_position code) (loop_stack q)).
    destruct (loop_stack q) as [|top below] eqn:Hstack; [reflexivity|].
    destruct Hloops as (_ & Hopen & _). cbn [map].
    destruct (negb (cell q =? 0)%Z).
    + exists (clean_position code top). split.
      * cbn [pc set_pc]. rewrite (clean_position_next code top _ Hopen).
        reflexivity.
      * unfold relocate. cbn [loop_stack set_pc]. rewrite Hstack.
        reflexivity.
    + exists (clean_position code (pc q)). split; [exact Hnext|reflexivity].
  - apply is_command_decode in Hc. contradiction.
Qed.

(** One iteration on the text against the filtered text: an iteration on a
    character that is no command only moves the counter, which the
    filtered text does not see; any other iteration is an iteration of the
    filtered text. *)
Lemma relocate_step config tty code q :
  debug_mode config = false ->
  loops_ok code (pc q) (loop_stack q) ->
  match step config tty code q with
  | Continue t =>
      (pc t = pc q + 1 /\ relocate code t = relocate code q) \/
      step config tty (clean_code code) (relocate code q)
      = Continue (relocate code t)
  | Finished t =>
      step config tty (clean_code code) (relocate code q)
      = Finished (relocate code t)
  | Abort e t =>
      step config tty (clean_code code) (relocate code q)
      = Abort (error_at (clean_position code) e) (relocate code t)
  end.
Proof.
  intros Hdebug Hloops. unfold step at 1.
  destruct (code !! pc q) as [c|] eqn:Hfetch.
  - rewrite (debug_hook_off config c q Hdebug).
    destruct (is_command c) eqn:Hc.
    + pose proof (relocate_exec config tty code c q Hfetch Hc Hloops) as Hexec.
      rewrite (step_fetch config tty (clean_code code) (relocate code q) c)
        by (apply clean_code_lookup; assumption).
      rewrite (debug_hook_off config c (relocate code q) Hdebug).
      destruct (exec_instr config tty code c q) as [t|e t].
      * destruct Hexec as (n & Hn & ->). right. f_equal.
        unfold relocate. cbn [pc loop_stack set_pc set_loop_stack].
        rewrite Hn. reflexivity.
      * rewrite Hexec. reflexivity.
    + assert (Hd : decode c = IOther).
      { destruct (decode c) eqn:Hd; try reflexivity; exfalso;
          assert (Hne : decode c <> IOther) by (rewrite Hd; discriminate);
          apply is_command_decode in Hne; congruence. }
      unfold exec_instr. rewrite Hd. cbv beta iota. left.
      cbn [pc set_pc]. split; [reflexivity|].
      unfold relocate. cbn [pc loop_stack set_pc set_loop_stack].
      rewrite (clean_position_next code (pc q) c Hfetch), Hc, Nat.add_0_r.
      reflexivity.
  - apply lookup_ge_None in Hfetch.
    apply step_finished.
    change (pc (relocate code q)) with (clean_position code (pc q)).
    rewrite clean_position_end by exact Hfetch. lia.
Qed.

(** A run on the text against the run on the filtered text, with the
    number of iterations each takes: the filtered text takes no more, and
    the text takes at most [length code] iterations on characters that
    are no command between two commands. *)
Lemma relocate_run config tty code :
  debug_mode config = false ->
  forall fuel q,
    pc q <= length code ->
    loops_ok code (pc q) (loop_stack q) ->
    exists fuel',
      fuel' <= fuel /\
      run fuel' config tty (clean_code code) (relocate code q)
      = result_relocate code (run fuel config tty code q) /\
      (has_returned (run fuel config tty code q) = false ->
       fuel + pc q <= fuel' * (length code + 1) + length code).
Proof.
  intros Hdebug. induction fuel as [|fuel IH]; intros q Hpc Hloops.
  - exists 0. split; [lia|]. split; [reflexivity|]. intros _. lia.
  - pose proof (relocate_step config tty code q Hdebug Hloops) as Hstep.
    cbn [run].
    destruct (step config tty code q) as [t|t|e t] eqn:Hq.
    + destruct (step_loops_ok config tty code q t Hloops Hq) as [Hpct Hlt].
      destruct (IH t Hpct Hlt) as (fuel' & Hle & Hrun & Hbound).
      destruct Hstep as [[Hnext Hsame]|Hstep].
      * exists fuel'. split; [lia|]. rewrite <- Hsame. split; [exact Hrun|].
        intros Hcut. specialize (Hbound Hcut). lia.
      * exists (S fuel'). split; [lia|]. cbn [run]. rewrite Hstep.
        split; [exact Hrun|].
        intros Hcut. specialize (Hbound Hcut). nia.
    + exists 1. split; [lia|]. cbn [run]. rewrite Hstep.
      split; [reflexivity|]. discriminate.
    + exists 1. split; [lia|]. cbn [run]. rewrite Hstep.
      split; [reflexivity|]. discriminate.
Qed.

Lemma has_returned_spec r :
  has_returned r = true <-> forall st, r <> OutOfFuel st.
Proof.
  destruct r as [s|e s|s]; simpl; split; try discriminate; try reflexivity.
  intros H. exfalso. apply (H s). reflexivity.
Qed.

Lemma has_returned_quiet r : has_returned (result_map quiet r) = has_returned r.
Proof. destruct r; reflexivity. Qed.

Lemma has_returned_relocate code r :
  has_returned (result_relocate code r) = has_returned r.
Proof. destruct r; reflexivity. Qed.

(** A run from the start on the text against the filtered text, whatever
    the debug mode and the terminal: the filtered run is seen through
    [quiet], which drops the debug dumps and prompts. *)
Lemma relocate_run_init config tty code input fuel :
  exists fuel',
    fuel' <= fuel /\
    result_map quiet
      (run fuel' config tty (clean_code code) (init config input))
    = result_relocate code
        (result_map quiet (run fuel config tty code (init config input))) /\
    (has_returned (run fuel config tty code (init config input)) = false ->
     fuel <= fuel' * (length code + 1) + length code).
Proof.
  destruct (relocate_run (quiet_config config) false code eq_refl fuel
              (quiet (init config input)))
    as (fuel' & Hle & Hrun & Hbound).
  { simpl. lia. }
  { exact I. }
  exists fuel'. split; [exact Hle|].
  rewrite (quiet_run config tty code fuel (init config input)) in Hrun, Hbound.
  rewrite has_returned_quiet in Hbound.
  change (relocate code (quiet (init config input)))
    with (set_pc (clean_position code 0) (quiet (init config input)))
    in Hrun.
  unfold clean_position in Hrun. rewrite take_0 in Hrun.
  change (set_pc (length (clean_code [])) (quiet (init config input)))
    with (quiet (init config input)) in Hrun.
  rewrite (quiet_run config tty (clean_code code) fuel' (init config input))
    in Hrun.
  split; [exact Hrun|].
  intros Hcut. specialize (Hbound Hcut). simpl in Hbound. lia.
Qed.

Lemma relocate_returned config tty code input fuel :
  has_returned (run fuel config tty code (init config input)) = true ->
  result_map quiet (run fuel config tty (clean_code code) (init config input))
  = result_relocate code
      (result_map quiet (run fuel config tty code (init config input))).
Proof.
  intros Hret.
  destruct (relocate_run_init config tty code input fuel)
    as (fuel' & Hle & Hrun & _).
  replace fuel with (fuel' + (fuel - fuel')) at 1 by lia.
  rewrite (run_fuel_mono config tty (clean_code code) fuel' (fuel - fuel')
             (init config input)
             (run fuel' config tty (clean_code code) (init config input))
             eq_refl); [exact Hrun|].
  apply has_returned_spec.
  rewrite <- has_returned_quiet, Hrun, has_returned_relocate,
    has_returned_quiet.
  exact Hret.
Qed.

Lemma relocate_observed code r r' :
  result_map quiet r' = result_relocate code (result_map quiet r) ->
  output_bytes (stdout (result_state r'))
  = output_bytes (stdout (result_state r)) /\
  memory (result_state r') = memory (result_state r) /\
  ptr (result_state r') = ptr (result_state r) /\
  is_completed r' = is_completed r /\
  result_error r' = option_map (error_at (clean_position code)) (result_error r).
Proof.
  intros H.
  assert (Hst : quiet (result_state r') = relocate code (quiet (result_state r))).
  { apply (f_equal result_state) in H. destruct r, r'; exact H. }
  split.
  { apply (f_equal (fun s => output_bytes (stdout s))) in Hst.
    simpl in Hst. rewrite !output_bytes_puts in Hst. exact Hst. }
  split; [exact (f_equal memory Hst)|].
  split; [exact (f_equal ptr Hst)|].
  destruct r as [s|e s|s], r' as [s'|e' s'|s']; simpl in H;
    try discriminate; simpl; split; try reflexivity.
  congruence.
Qed.

(** Filtering the source text, as [main] does before it calls the engine,
    does not change what a program does.  When the run on the text as
    written ends, by reaching the end or by an error, the run on the
    filtered text ends too, within the same number of iterations and the
    same way: with the same output bytes, tape and pointer, and on an
    error, the same error, its position counted in the filtered text.  The
    two final states differ only in the debug dumps and prompts written
    and in where the counter and the loop stack point. *)
Theorem clean_code_keeps_behaviour :
  forall config tty code input fuel,
    has_returned (run fuel config tty code (init config input)) = true ->
    result_map quiet
      (run fuel config tty (clean_code code) (init config input))
    = result_relocate code
        (result_map quiet (run fuel config tty code (init config input))) /\
    output_bytes
      (stdout (result_state
                 (run fuel config tty (clean_code code) (init config input))))
    = output_bytes
        (stdout (result_state (run fuel config tty code (init config input))))
    /\
    memory (result_state
              (run fuel config tty (clean_code code) (init config input)))
    = memory (result_state (run fuel config tty code (init config input))) /\
    ptr (result_state
           (run fuel config tty (clean_code code) (init config input)))
    = ptr (result_state (run fuel config tty code (init config input))) /\
    is_completed (run fuel config tty (clean_code code) (init config input))
    = is_completed (run fuel config tty code (init config input)) /\
    result_error (run fuel config tty (clean_code code) (init config input))
    = option_map (error_at (clean_position code))
        (result_error (run fuel config tty code (init config input))).
Proof.
  intros config tty code input fuel Hret.
  pose proof (relocate_returned config tty code input fuel Hret) as Hrun.
  split; [exact Hrun|].
  exact (relocate_observed code _ _ Hrun).
Qed.

Lemma clean_code_keeps_behaviour_witness :
  has_returned
    (run 40 (small_config false false) false
       (list_ascii_of_string "++ two [- down] . <")
       (init (small_config false false) [])) = true /\
  result_error
    (run 40 (small_config false false) false
       (clean_code (list_ascii_of_string "++ two [- down] . <"))
       (init (small_config false false) []))
  = option_map
      (error_at (clean_position (list_ascii_of_string "++ two [- down] . <")))
      (result_error
         (run 40 (small_config false false) false
            (list_ascii_of_string "++ two [- down] . <")
            (init (small_config false false) []))).
Proof.
  split; [vm_compute; reflexivity|].
  apply (clean_code_keeps_behaviour (small_config false false) false
           (list_ascii_of_string "++ two [- down] . <") [] 40).
  vm_compute. reflexivity.
Defined.

(** Conversely, a run on the text as written ends whenever the run on the
    filtered text does: characters that are no command cost iterations
    but never keep a program running.  If the filtered text ends within
    [fuel] iterations, the text ends within
    [fuel * (length code + 1) + length code + 1], and the two results
    agree as before. *)
Theorem clean_code_reflects_termination :
  forall config tty code input fuel,
    has_returned
      (run fuel config tty (clean_code code) (init config input)) = true ->
    has_returned
      (run (fuel * (length code + 1) + length code + 1) config tty code
         (init config input)) = true /\
    result_map quiet
      (run fuel config tty (clean_code code) (init config input))
    = result_relocate code
        (result_map quiet
           (run (fuel * (length code + 1) + length code + 1) config tty code
              (init config input))).
Proof.
  intros config tty code input fuel Hret.
  set (bound := fuel * (length code + 1) + length code + 1).
  assert (Hends : has_returned
                    (run bound config tty code (init config input)) = true).
  { destruct (has_returned (run bound config tty code (init config input)))
      eqn:Hcut; [reflexivity|exfalso].
    destruct (relocate_run_init config tty code input bound)
      as (fuel' & _ & Hrun & Hbound).
    specialize (Hbound Hcut).
    assert (Hmore : fuel' = fuel + (fuel' - fuel)) by (subst bound; nia).
    rewrite Hmore in Hrun.
    rewrite (run_fuel_mono config tty (clean_code code) fuel (fuel' - fuel)
               (init config input)
               (run fuel config tty (clean_code code) (init config input))
               eq_refl) in Hrun
      by (apply has_returned_spec; exact Hret).
    apply (f_equal has_returned) in Hrun.
    rewrite has_returned_quiet, has_returned_relocate, has_returned_quiet,
      Hret, Hcut in Hrun.
    discriminate. }
  split; [exact Hends|].
  rewrite <- (relocate_returned config tty code input bound Hends).
  f_equal. symmetry.
  replace bound with (fuel + (bound - fuel)) by (subst bound; nia).
  apply run_fuel_mono; [reflexivity|].
  apply has_returned_spec. exact Hret.
Qed.

Lemma clean_code_reflects_termination_witness :
  has_returned
    (run 9 (small_config false false) false
       (clean_code (list_ascii_of_string "+ one [- down] ."))
       (init (small_config false false) [])) = true /\
  has_returned
    (run (9 * (length (list_ascii_of_string "+ one [- down] .") + 1) +
          length (list_ascii_of_string "+ one [- down] .") + 1)
       (small_config false false) false
       (list_ascii_of_string "+ one [- down] .")
       (init (small_config false false) [])) = true.
Proof.
  split; [vm_compute; reflexivity|].
  apply (clean_code_reflects_termination (small_config false false) false
           (list_ascii_of_string "+ one [- down] .") [] 9).
  vm_compute. reflexivity.
Defined.
